(** * A model of the tabular data cleaner [scripts/cleaner.py]

    The cleaner is a collection of short methods over pandas data
    frames.  The development below embeds the part of pandas and numpy
    the methods rely on (typed columns, null handling, reductions,
    boolean-mask selection), the object store in which frames live
    (several methods mutate the frame they are given, one works on a
    copy), and the methods themselves, written in a state-and-exception
    monad so that each definition can be read next to its Python source.

    Conventions of the model:
    - a [float64] is an exact rational, an infinity or NaN, with the
      arithmetic of IEEE 754 on infinities and NaN: rounding error,
      overflow and the sign of zero are not modelled;
    - text is a sequence of 8-bit characters, and [lower] is defined on
      ASCII text: what is proved about column names is stated for ASCII
      names;
    - following the data model of the specification, a column is numeric
      ([float64]), text ([object]) or date/time ([datetime64[ns]]), and
      column names are unique in a well-formed frame;
    - the pandas in use predates copy-on-write (the source calls
      [np.product] and [fillna(method=...)]), so [df[col].fillna(...,
      inplace=True)] updates the frame. *)

From Stdlib Require Import QArith Qround Lqa ZArith List Bool Lia Sorted.
From stdpp Require Import gmap strings list.

Local Open Scope Z_scope.

(** ** Floating-point values *)

Inductive float64 : Type :=
| F (q : Q)
| Inf (negative : bool)    (* [inf], and [-inf] when [negative] *)
| NaN.

(** Computed values are kept in lowest terms, so that a number has one
    representation. *)
Definition fl (q : Q) : float64 := F (Qred q).

Module Float.

Definition isnan (x : float64) : bool :=
  match x with NaN => true | _ => false end.

Definition isinf (x : float64) : bool :=
  match x with Inf _ => true | _ => false end.

Definition Qltb (a b : Q) : bool := negb (Qle_bool b a).

(** Arithmetic: an infinity absorbs a number, and [inf - inf], [0 * inf],
    [0 / 0] and [inf / inf] are NaN. *)
Definition add (x y : float64) : float64 :=
  match x, y with
  | F a, F b => fl (a + b)
  | F _, Inf s | Inf s, F _ => Inf s
  | Inf s, Inf t => if Bool.eqb s t then Inf s else NaN
  | _, _ => NaN
  end.

Definition sub (x y : float64) : float64 :=
  match x, y with
  | F a, F b => fl (a - b)
  | F _, Inf t => Inf (negb t)
  | Inf s, F _ => Inf s
  | Inf s, Inf t => if Bool.eqb s t then NaN else Inf s
  | _, _ => NaN
  end.

Definition mul (x y : float64) : float64 :=
  match x, y with
  | F a, F b => fl (a * b)
  | F a, Inf s | Inf s, F a =>
      if Qeq_bool a 0 then NaN else Inf (xorb s (Qltb a 0))
  | Inf s, Inf t => Inf (xorb s t)
  | _, _ => NaN
  end.

(** Division as numpy performs it: a division by zero gives an infinity
    or NaN (with a warning), not an exception. *)
Definition div (x y : float64) : float64 :=
  match x, y with
  | F a, F b =>
      if Qeq_bool b 0
      then (if Qeq_bool a 0 then NaN else Inf (Qltb a 0))
      else fl (a / b)
  | F _, Inf _ => F 0
  | Inf s, F b => Inf (xorb s (Qltb b 0))
  | _, _ => NaN
  end.

(** Comparisons involving NaN are false. *)
Definition ltb (x y : float64) : bool :=
  match x, y with
  | F a, F b => Qltb a b
  | F _, Inf t => negb t
  | Inf s, F _ => s
  | Inf s, Inf t => s && negb t
  | _, _ => false
  end.

Definition gtb (x y : float64) : bool := ltb y x.

Definition leb (x y : float64) : bool :=
  match x, y with
  | F a, F b => Qle_bool a b
  | F _, Inf t => negb t
  | Inf s, F _ => s
  | Inf s, Inf t => s || negb t
  | _, _ => false
  end.

(** Equality as used when values are hashed for counting and for
    duplicate detection: numerically equal values coincide. *)
Definition eqb (x y : float64) : bool :=
  match x, y with
  | F a, F b => Qeq_bool a b
  | Inf s, Inf t => Bool.eqb s t
  | NaN, NaN => true
  | _, _ => false
  end.

(** [np.rint]: round to the nearest integer, ties to even. *)
Definition rint (q : Q) : Z :=
  let fl := Qfloor q in
  let r := (q - inject_Z fl)%Q in
  match (r ?= 1 # 2)%Q with
  | Lt => fl
  | Gt => fl + 1
  | Eq => if Z.even fl then fl else fl + 1
  end.

(** [round(x, 2)] on a numpy float: [rint(x * 100) / 100]. *)
Definition round2 (x : float64) : float64 :=
  match x with
  | F q => fl (inject_Z (rint (q * 100)) / 100)
  | Inf s => Inf s
  | NaN => NaN
  end.

(** True division of two integer counts, as numpy performs it on an
    [int64] scalar: [0 / 0] is NaN and [m / 0] an infinity (with a
    warning, not an exception). *)
Definition true_divide (m n : nat) : float64 :=
  match n with
  | O => match m with O => NaN | S _ => Inf false end
  | S _ => fl (inject_Z (Z.of_nat m) / inject_Z (Z.of_nat n))
  end.

End Float.

(** ** Generic helpers on sequences *)

Section Sequences.
Context {A : Type}.

(** [np.where(cond, x, ys)] with a scalar [x]. *)
Fixpoint np_where (cond : list bool) (x : A) (ys : list A) : list A :=
  match cond, ys with
  | c :: cond', y :: ys' => (if c then x else y) :: np_where cond' x ys'
  | _, _ => []
  end.

(** Boolean-mask selection [xs[mask]]. *)
Fixpoint filter_mask (mask : list bool) (xs : list A) : list A :=
  match mask, xs with
  | b :: mask', x :: xs' =>
      if b then x :: filter_mask mask' xs' else filter_mask mask' xs'
  | _, _ => []
  end.

Variable isnull : A -> bool.

(** [fillna(value)] *)
Definition fillna (xs : list A) (value : A) : list A :=
  map (fun x => if isnull x then value else x) xs.

(** [fillna(method='ffill')]: a null entry takes the last non-null
    value before it, if there is one. *)
Fixpoint ffill_from (last : option A) (xs : list A) : list A :=
  match xs with
  | [] => []
  | x :: xs' =>
      if isnull x
      then default x last :: ffill_from last xs'
      else x :: ffill_from (Some x) xs'
  end.

Definition ffill (xs : list A) : list A := ffill_from None xs.

(** [fillna(method='bfill')]: the same, from the end. *)
Definition bfill (xs : list A) : list A := rev (ffill (rev xs)).

Definition dropna (xs : list A) : list A :=
  List.filter (fun x => negb (isnull x)) xs.

Definition count_null (xs : list A) : nat :=
  length (List.filter isnull xs).

(** Sorting (ascending, stable) with respect to [leb]. *)
Variable leb : A -> A -> bool.

Fixpoint insert_sorted (x : A) (l : list A) : list A :=
  match l with
  | [] => [x]
  | y :: l' => if leb x y then x :: l else y :: insert_sorted x l'
  end.

Definition sort_values (l : list A) : list A := foldr insert_sorted [] l.

(** The values of highest frequency, in order of first occurrence. *)
Variable eqb : A -> A -> bool.

Definition count_eq (x : A) (l : list A) : nat :=
  length (List.filter (eqb x) l).

Fixpoint unique (l : list A) : list A :=
  match l with
  | [] => []
  | x :: l' => x :: List.filter (fun y => negb (eqb x y)) (unique l')
  end.

Definition max_count (l : list A) : nat :=
  foldr Nat.max O (map (fun x => count_eq x l) l).

Definition most_frequent (l : list A) : list A :=
  List.filter (fun x => Nat.eqb (count_eq x l) (max_count l)) (unique l).

End Sequences.

(** ** Reductions of a numeric series *)

Module Series.

(** The entries that are not null. *)
Definition values (xs : list float64) : list float64 := dropna Float.isnan xs.

(** The sum of a sequence (in exact arithmetic the order of the terms
    does not matter). *)
Definition sum (vs : list float64) : float64 := foldr Float.add (F 0) vs.

Definition count (vs : list float64) : float64 :=
  F (inject_Z (Z.of_nat (length vs))).

(** [Series.mean()]: nulls are skipped; NaN when nothing is left. *)
Definition mean (xs : list float64) : float64 :=
  match values xs with
  | [] => NaN
  | vs => Float.div (sum vs) (count vs)
  end.

(** [Series.median()]: nulls are skipped; NaN when nothing is left. *)
Definition median (xs : list float64) : float64 :=
  let vs := sort_values Float.leb (values xs) in
  let n := length vs in
  match n with
  | O => NaN
  | S _ =>
      if Nat.even n
      then Float.div (Float.add (nth (n / 2 - 1) vs NaN) (nth (n / 2) vs NaN))
             (F 2)
      else nth (n / 2) vs NaN
  end.

(** Linear interpolation between two neighbours, as [np.percentile]
    computes it: from the lower one in the first half of the interval,
    from the upper one in the second. *)
Definition lerp (a b : float64) (t : Q) : float64 :=
  let diff_b_a := Float.sub b a in
  if Qle_bool (1 # 2) t
  then Float.sub b (Float.mul diff_b_a (F (1 - t)))
  else Float.add a (Float.mul diff_b_a (F t)).

(** The two order statistics around the fractional position [pos] of a
    sorted sample, interpolated. *)
Definition interpolate (vs : list float64) (pos : Q) : float64 :=
  let lo := Z.to_nat (Qfloor pos) in
  let hi := Nat.min (S lo) (length vs - 1) in
  lerp (nth lo vs NaN) (nth hi vs NaN) (pos - inject_Z (Qfloor pos)).

(** [Series.quantile(q)] with the default linear interpolation: nulls
    are skipped; NaN when nothing is left. *)
Definition quantile (xs : list float64) (q : Q) : float64 :=
  match sort_values Float.leb (values xs) with
  | [] => NaN
  | vs => interpolate vs (inject_Z (Z.of_nat (length vs - 1)) * q)
  end.

(** [Series.mode()]: the most frequent non-null values, sorted. *)
Definition mode (xs : list float64) : list float64 :=
  sort_values Float.leb (most_frequent Float.eqb (values xs)).

End Series.

(** ** Python objects held by an [object] column *)

Inductive pyobj : Type :=
| PyStr (s : string)
| PyNone
| PyFloat (x : float64)
| PyMethod (name : string).   (* a bound method, e.g. [Series.median] *)

Module Obj.

(** [pd.isnull] on an object: [None] and NaN are null. *)
Definition isnull (o : pyobj) : bool :=
  match o with
  | PyNone | PyFloat NaN => true
  | _ => false
  end.

(** Equality as used when objects are hashed: all nulls coincide. *)
Definition eqb (a b : pyobj) : bool :=
  match a, b with
  | PyStr s, PyStr t => String.eqb s t
  | PyFloat (F x), PyFloat (F y) => Qeq_bool x y
  | PyFloat (Inf s), PyFloat (Inf t) => Bool.eqb s t
  | PyMethod m, PyMethod n => String.eqb m n
  | _, _ => isnull a && isnull b
  end.

Definition is_str (o : pyobj) : bool :=
  match o with PyStr _ => true | _ => false end.

Definition is_float (o : pyobj) : bool :=
  match o with PyFloat _ => true | _ => false end.

Definition leb (a b : pyobj) : bool :=
  match a, b with
  | PyStr s, PyStr t => String.leb s t
  | PyFloat (F x), PyFloat (F y) => Qle_bool x y
  | PyFloat (F _), PyFloat (Inf t) => negb t
  | PyFloat (Inf s), PyFloat (F _) => s
  | PyFloat (Inf s), PyFloat (Inf t) => s || negb t
  | _, _ => true
  end.

(** [Series.mode()] sorts the most frequent values when they can be
    compared with one another and leaves them as found otherwise. *)
Definition mode (os : list pyobj) : list pyobj :=
  let ms := most_frequent eqb (dropna isnull os) in
  if forallb is_str ms || forallb is_float ms
  then sort_values leb ms
  else ms.

(** [x != s] for a string [s]. *)
Definition ne_str (s : string) (o : pyobj) : bool :=
  match o with
  | PyStr t => negb (String.eqb t s)
  | _ => true
  end.

(** [x > y] against a float: a null entry compares false, a float
    compares by value, anything else is not comparable with a float. *)
Definition gt_float (y : float64) (o : pyobj) : option bool :=
  match o with
  | PyFloat x => Some (Float.gtb x y)
  | PyNone => Some false
  | PyStr _ | PyMethod _ => None
  end.

End Obj.

(** ** Columns and data frames *)

Inductive dtype : Type := number | object | datetime64.

Global Instance dtype_eq_dec : EqDecision dtype.
Proof. solve_decision. Defined.

Inductive column : Type :=
| NumCol (xs : list float64)
| ObjCol (os : list pyobj)
| TimeCol (ts : list (option Z)).    (* nanoseconds; [None] is NaT *)

Record DataFrame : Type := mkFrame {
  index : list Z;                      (* row labels *)
  columns : list (string * column)
}.

Module Column.

Definition dtype_of (c : column) : dtype :=
  match c with
  | NumCol _ => number
  | ObjCol _ => object
  | TimeCol _ => datetime64
  end.

Definition len (c : column) : nat :=
  match c with
  | NumCol xs => length xs
  | ObjCol os => length os
  | TimeCol ts => length ts
  end.

Definition notime (t : option Z) : bool :=
  match t with None => true | Some _ => false end.

(** [c.isnull().sum()] *)
Definition count_missing (c : column) : nat :=
  match c with
  | NumCol xs => count_null Float.isnan xs
  | ObjCol os => count_null Obj.isnull os
  | TimeCol ts => count_null notime ts
  end.

(** [c[mask]] *)
Definition select (mask : list bool) (c : column) : column :=
  match c with
  | NumCol xs => NumCol (filter_mask mask xs)
  | ObjCol os => ObjCol (filter_mask mask os)
  | TimeCol ts => TimeCol (filter_mask mask ts)
  end.

(** [c != s] for a string [s].  Only text can be equal to a string; on
    a datetime column the string does not denote a timestamp and the
    comparison is true everywhere. *)
Definition ne_str (s : string) (c : column) : list bool :=
  match c with
  | NumCol xs => map (fun _ => true) xs
  | ObjCol os => map (Obj.ne_str s) os
  | TimeCol ts => map (fun _ => true) ts
  end.

Definition ffill (c : column) : column :=
  match c with
  | NumCol xs => NumCol (ffill Float.isnan xs)
  | ObjCol os => ObjCol (ffill Obj.isnull os)
  | TimeCol ts => TimeCol (ffill notime ts)
  end.

Definition bfill (c : column) : column :=
  match c with
  | NumCol xs => NumCol (bfill Float.isnan xs)
  | ObjCol os => ObjCol (bfill Obj.isnull os)
  | TimeCol ts => TimeCol (bfill notime ts)
  end.

Definition time_eqb (a b : option Z) : bool := bool_decide (a = b).

Definition time_leb (a b : option Z) : bool :=
  match a, b with
  | Some x, Some y => Z.leb x y
  | _, _ => true
  end.

Definition time_mode (ts : list (option Z)) : list (option Z) :=
  sort_values time_leb (most_frequent time_eqb (dropna notime ts)).

End Column.

Module Frame.

Fixpoint lookup (col : string) (cols : list (string * column)) : option column :=
  match cols with
  | [] => None
  | (name, c) :: cols' =>
      if String.eqb name col then Some c else lookup col cols'
  end.

(** [df[col] = c]: an existing column is replaced in place, a new one
    is appended. *)
Fixpoint assign (col : string) (c : column) (cols : list (string * column))
  : list (string * column) :=
  match cols with
  | [] => [(col, c)]
  | (name, c0) :: cols' =>
      if String.eqb name col then (name, c) :: cols'
      else (name, c0) :: assign col c cols'
  end.

Definition getitem (f : DataFrame) (col : string) : option column :=
  lookup col (columns f).

Definition setitem (f : DataFrame) (col : string) (c : column) : DataFrame :=
  mkFrame (index f) (assign col c (columns f)).

(** [df.select_dtypes(include=...).columns] *)
Definition select_dtypes (include : list dtype) (f : DataFrame) : list string :=
  map fst
    (List.filter (fun p => bool_decide (Column.dtype_of (snd p) ∈ include))
       (columns f)).

(** [df[mask]] for a boolean mask over the rows. *)
Definition select_rows (mask : list bool) (f : DataFrame) : DataFrame :=
  mkFrame (filter_mask mask (index f))
          (map (fun p => (fst p, Column.select mask (snd p))) (columns f)).

(** *** Rows *)

Inductive cell : Type :=
| CNum (x : float64)
| CObj (o : pyobj)
| CTime (t : option Z).

Definition cells (c : column) : list cell :=
  match c with
  | NumCol xs => map CNum xs
  | ObjCol os => map CObj os
  | TimeCol ts => map CTime ts
  end.

(** The first [n] rows of a list of columns. *)
Fixpoint transpose (n : nat) (cols : list (list cell)) : list (list cell) :=
  match n with
  | O => []
  | S n' => omap head cols :: transpose n' (map tail cols)
  end.

Definition rows (f : DataFrame) : list (list cell) :=
  transpose (length (index f)) (map (fun p => cells (snd p)) (columns f)).

(** Two cells are the same value for duplicate detection when they hash
    alike: nulls coincide, numbers compare by value. *)
Definition cell_eqb (a b : cell) : bool :=
  match a, b with
  | CNum x, CNum y => Float.eqb x y
  | CObj x, CObj y => Obj.eqb x y
  | CTime x, CTime y => Column.time_eqb x y
  | _, _ => false
  end.

Fixpoint row_eqb (r1 r2 : list cell) : bool :=
  match r1, r2 with
  | [], [] => true
  | a :: r1', b :: r2' => cell_eqb a b && row_eqb r1' r2'
  | _, _ => false
  end.

(** [duplicated(keep='first')]: a row is a duplicate when an earlier
    row holds the same values. *)
Fixpoint duplicated_from (seen rs : list (list cell)) : list bool :=
  match rs with
  | [] => []
  | r :: rs' => existsb (row_eqb r) seen :: duplicated_from (r :: seen) rs'
  end.

Definition duplicated (f : DataFrame) : list bool :=
  duplicated_from [] (rows f).

(** [df.drop_duplicates()] *)
Definition drop_duplicates (f : DataFrame) : DataFrame :=
  select_rows (map negb (duplicated f)) f.

(** Well-formed frames: unique column names, and as many entries in
    every column as there are row labels. *)
Definition wf (f : DataFrame) : Prop :=
  NoDup (map fst (columns f)) /\
  Forall (fun p => Column.len (snd p) = length (index f)) (columns f).

End Frame.

(** ** The object store, the log and the monad of cleaner methods *)

Definition loc : Type := positive.

Inductive exn : Type :=
| KeyError (key : string)
| ValueError (msg : string)
| TypeError
| InvalidLoc.     (* a location that denotes no object: no Python value *)

Inductive log_record : Type :=
| Executed (func : string)           (* INFO  "<func> executed successfully." *)
| Failed (func : string) (e : exn)   (* ERROR "Error in <func>: <e>" *)
| Message (msg : string).            (* ERROR "<msg>" *)

Record state : Type := mkState {
  heap : gmap loc DataFrame;
  log : list log_record               (* most recent first *)
}.

Definition M (A : Type) : Type := state -> (exn + A) * state.

Global Instance M_ret : MRet M := fun A x s => (inr x, s).

Global Instance M_bind : MBind M := fun A B k m s =>
  match m s with
  | (inr x, s') => k x s'
  | (inl e, s') => (inl e, s')
  end.

Definition raise {A : Type} (e : exn) : M A := fun s => (inl e, s).

Definition lift {A : Type} (r : exn + A) : M A := fun s => (r, s).

Definition logger (r : log_record) : M unit :=
  fun s => (inr tt, mkState (heap s) (r :: log s)).

Definition load (df : loc) : M DataFrame := fun s =>
  match heap s !! df with
  | Some f => (inr f, s)
  | None => (inl InvalidLoc, s)
  end.

Definition store (df : loc) (f : DataFrame) : M unit := fun s =>
  match heap s !! df with
  | Some _ => (inr tt, mkState (<[df := f]> (heap s)) (log s))
  | None => (inl InvalidLoc, s)
  end.

(** A new object is placed at a location not yet in use. *)
Definition alloc (f : DataFrame) : M loc := fun s =>
  let l := fresh (dom (heap s)) in
  (inr l, mkState (<[l := f]> (heap s)) (log s)).

(** [df[col]] *)
Definition getitem (df : loc) (col : string) : M column :=
  f ← load df;
  match Frame.getitem f col with
  | Some c => mret c
  | None => raise (KeyError col)
  end.

(** [df[col] = c] *)
Definition setitem (df : loc) (col : string) (c : column) : M unit :=
  f ← load df; store df (Frame.setitem f col c).

(** [df.copy()] *)
Definition copy (df : loc) : M loc :=
  f ← load df; alloc f.

(** [for x in xs: body] *)
Fixpoint for_each {A : Type} (xs : list A) (body : A -> M unit) : M unit :=
  match xs with
  | [] => mret tt
  | x :: xs' => body x;; for_each xs' body
  end.

(** [try: body / except KeyError: handler; raise] *)
Definition except_KeyError {A : Type} (body : M A) (handler : M unit) : M A :=
  fun s =>
    match body s with
    | (inl (KeyError k), s') =>
        match handler s' with
        | (inr _, s'') => (inl (KeyError k), s'')
        | (inl e, s'') => (inl e, s'')
        end
    | r => r
    end.

(** [s[0]] on the result of [mode()], which is labelled [0, 1, ...]. *)
Definition getitem0 {A : Type} (l : list A) : exn + A :=
  match l with
  | [] => inl (KeyError "0")
  | x :: _ => inr x
  end.

(** ** Text *)

Module Str.
Import Stdlib.Strings.Ascii.

Fixpoint map_chars (g : ascii -> ascii) (s : string) : string :=
  match s with
  | EmptyString => EmptyString
  | String c s' => String (g c) (map_chars g s')
  end.

Definition is_upper (c : ascii) : bool :=
  (65 <=? nat_of_ascii c)%nat && (nat_of_ascii c <=? 90)%nat.

(** [s.replace(' ', '_')] *)
Definition replace_spaces (s : string) : string :=
  map_chars (fun c => if Strings.Ascii.eqb c " " then "_"%char else c) s.

(** [s.lower()], for ASCII text only: the letters A to Z are mapped to
    a to z.  Python also lowers the capital letters outside ASCII, which
    this definition leaves as they are; what is proved of the new names
    is stated for ASCII names. *)
Definition lower (s : string) : string :=
  map_chars (fun c => if is_upper c
                      then ascii_of_nat (nat_of_ascii c + 32)
                      else c) s.

End Str.

(** ** Conversion to text *)

(** How Python writes a finite float, a timestamp and a bound method:
    the text itself is left open.  Infinities and nulls are written
    [inf], [-inf], [nan], [None] and [NaT]. *)
Record formatter : Type := mkFormatter {
  str_float : Q -> string;
  str_time : Z -> string;
  str_method : string -> string
}.

Section Formatting.
Variable fmt : formatter.

(** [str(x)] *)
Definition str_float64 (x : float64) : string :=
  match x with
  | F q => str_float fmt q
  | Inf false => "inf"
  | Inf true => "-inf"
  | NaN => "nan"
  end.

Definition str_obj (o : pyobj) : string :=
  match o with
  | PyStr s => s
  | PyNone => "None"
  | PyFloat x => str_float64 x
  | PyMethod m => str_method fmt m
  end.

Definition str_timestamp (t : option Z) : string :=
  match t with
  | Some z => str_time fmt z
  | None => "NaT"
  end.

(** [c.astype(str)]: every entry becomes its text, a null as well. *)
Definition astype_str (c : column) : column :=
  match c with
  | NumCol xs => ObjCol (map (fun x => PyStr (str_float64 x)) xs)
  | ObjCol os => ObjCol (map (fun o => PyStr (str_obj o)) os)
  | TimeCol ts => ObjCol (map (fun t => PyStr (str_timestamp t)) ts)
  end.

End Formatting.

(** ** Scaling to the unit interval *)

Module MinMaxScaler.

Definition fmin (a b : float64) : float64 := if Float.leb a b then a else b.
Definition fmax (a b : float64) : float64 := if Float.leb a b then b else a.

(** [np.nanmin] and [np.nanmax]: NaN when every entry is null. *)
Definition nanmin (xs : list float64) : float64 :=
  match Series.values xs with
  | [] => NaN
  | v :: vs => foldr fmin v vs
  end.

Definition nanmax (xs : list float64) : float64 :=
  match Series.values xs with
  | [] => NaN
  | v :: vs => foldr fmax v vs
  end.

(** The machine epsilon of a [float64], [2 ** -52]. *)
Definition eps : Q := 1 # 4503599627370496.

(** A range below ten epsilons is taken for zero and replaced by one, so
    that the division that follows never has a zero divisor. *)
Definition handle_zeros_in_scale (scale : float64) : float64 :=
  if Float.ltb scale (F (10 * eps)) then F 1 else scale.

(** [fit] followed by [transform] on one feature, for the range (0, 1):
    [scale_ = (1 - 0) / range], [min_ = 0 - data_min * scale_], and every
    entry becomes [x * scale_ + min_]. *)
Definition fit_transform_column (xs : list float64) : list float64 :=
  let data_min := nanmin xs in
  let data_max := nanmax xs in
  let data_range := Float.sub data_max data_min in
  let scale_ := Float.div (F 1) (handle_zeros_in_scale data_range) in
  let min_ := Float.sub (F 0) (Float.mul data_min scale_) in
  map (fun x => Float.add (Float.mul x scale_) min_) xs.

(** [MinMaxScaler().fit_transform(X)] on a table of [n_samples] rows,
    given by its columns: the input is validated first (at least one
    feature, no infinite entry, at least one sample; the messages are
    abridged). *)
Definition fit_transform (n_samples : nat) (X : list (list float64))
  : exn + list (list float64) :=
  match X with
  | [] => inl (ValueError "at least one array or dtype is required")
  | _ =>
      if existsb (existsb Float.isinf) X
      then inl (ValueError "Input contains infinity")
      else
        match n_samples with
        | O => inl (ValueError "Found array with 0 sample(s)")
        | S _ => inr (map fit_transform_column X)
        end
  end.

End MinMaxScaler.

(** ** The cleaner *)

Module DataCleaner.

(** Every method is wrapped: one log line on success, one on failure,
    and the exception is raised again. *)
Definition log_decorator {A : Type} (name : string) (func : M A) : M A :=
  fun s =>
    match func s with
    | (inr result, s') =>
        (inr result, mkState (heap s') (Executed name :: log s'))
    | (inl e, s') =>
        (inl e, mkState (heap s') (Failed name e :: log s'))
    end.

Definition drop_duplicate (df : loc) : M loc :=
  log_decorator "drop_duplicate" (
    f ← load df;
    store df (Frame.drop_duplicates f);;
    mret df).

Definition get_numerical_columns (df : loc) : M (list string) :=
  log_decorator "get_numerical_columns" (
    f ← load df;
    mret (Frame.select_dtypes [number] f)).

Definition get_categorical_columns (df : loc) : M (list string) :=
  log_decorator "get_categorical_columns" (
    f ← load df;
    mret (Frame.select_dtypes [object; datetime64] f)).

Definition percent_missing_column (df : loc) (col : string) : M float64 :=
  log_decorator "percent_missing_column" (
    col_len ← except_KeyError
                (c ← getitem df col; mret (Column.len c))
                (logger (Message (col +:+ " not found")));
    c ← getitem df col;
    let missing_count := Column.count_missing c in
    mret (Float.round2
            (Float.mul (Float.true_divide missing_count col_len) (F 100)))).

(** [c.fillna(c.mode()[0])] *)
Definition fillna_mode (c : column) : exn + column :=
  match c with
  | NumCol xs =>
      match getitem0 (Series.mode xs) with
      | inr m => inr (NumCol (fillna Float.isnan xs m))
      | inl e => inl e
      end
  | ObjCol os =>
      match getitem0 (Obj.mode os) with
      | inr m => inr (ObjCol (fillna Obj.isnull os m))
      | inl e => inl e
      end
  | TimeCol ts =>
      match getitem0 (Column.time_mode ts) with
      | inr m => inr (TimeCol (fillna Column.notime ts m))
      | inl e => inl e
      end
  end.

Definition fill_missing_values_categorical (df : loc) (method : string)
  : M loc :=
  log_decorator "fill_missing_values_categorical" (
    f ← load df;
    let categorical_columns := Frame.select_dtypes [object; datetime64] f in
    if String.eqb method "ffill" then
      for_each categorical_columns (fun col =>
        c ← getitem df col;
        setitem df col (Column.ffill c));;
      mret df
    else if String.eqb method "bfill" then
      for_each categorical_columns (fun col =>
        c ← getitem df col;
        setitem df col (Column.bfill c));;
      mret df
    else if String.eqb method "mode" then
      for_each categorical_columns (fun col =>
        c ← getitem df col;
        c' ← lift (fillna_mode c);
        setitem df col c');;
      mret df
    else
      logger (Message "Method unknown");;
      raise (ValueError "Method unknown")).

(** [c.fillna(stat(c), inplace=True)] for a reduction [stat] of a
    numeric column.  The methods reach a column of another type only
    when the caller names it; a reduction of text raises [TypeError],
    and the model reports that for every column that is not numeric. *)
Definition fillna_stat (stat : list float64 -> float64) (c : column)
  : exn + column :=
  match c with
  | NumCol xs => inr (NumCol (fillna Float.isnan xs (stat xs)))
  | ObjCol _ | TimeCol _ => inl TypeError
  end.

Definition fill_missing_values_numeric (df : loc) (method : string)
    (columns : option (list string)) : M loc :=
  log_decorator "fill_missing_values_numeric" (
    numeric_columns ← match columns with
                      | None => get_numerical_columns df
                      | Some cols => mret cols
                      end;
    (if String.eqb method "mean" then
       for_each numeric_columns (fun col =>
         c ← getitem df col;
         c' ← lift (fillna_stat Series.mean c);
         setitem df col c')
     else if String.eqb method "median" then
       for_each numeric_columns (fun col =>
         c ← getitem df col;
         c' ← lift (fillna_stat Series.median c);
         setitem df col c')
     else
       logger (Message "Method unknown");;
       raise (ValueError "Method unknown"));;
    mret df).

(** [for col in cols: df = df[df[col] != 'nan']], then [return df]: the
    local name is bound to a new frame at every turn. *)
Fixpoint remove_nan_loop (cols : list string) (df : loc) : M loc :=
  match cols with
  | [] => mret df
  | col :: cols' =>
      c ← getitem df col;
      f ← load df;
      df' ← alloc (Frame.select_rows (Column.ne_str "nan" c) f);
      remove_nan_loop cols' df'
  end.

Definition remove_nan_categorical (df : loc) : M loc :=
  log_decorator "remove_nan_categorical" (
    categorical_columns ← get_categorical_columns df;
    remove_nan_loop categorical_columns df).

(** [os > y] on an object column: against NaN nothing is compared and
    the answer is false everywhere; otherwise the entries are compared
    one by one, and an entry that cannot be compared with a float raises
    [TypeError]. *)
Definition gt_objects (os : list pyobj) (y : float64) : exn + list bool :=
  if Float.isnan y then inr (map (fun _ => false) os)
  else
    match mapM (Obj.gt_float y) os with
    | Some cond => inr cond
    | None => inl TypeError
    end.

(** The quartiles are those of a numeric column; [quantile] on text
    raises [TypeError], and the model reports that for every column
    that is not numeric.  Within one statement [df[col]] is read once:
    nothing is written between its reads. *)
Definition handle_outliers (df : loc) (col : string) (method : string)
  : M loc :=
  log_decorator "handle_outliers" (
    df ← copy df;
    c ← getitem df col;
    match c with
    | NumCol xs =>
        let q1 := Series.quantile xs (1 # 4) in
        let q3 := Series.quantile xs (3 # 4) in
        let lower_bound :=
          Float.sub q1 (Float.mul (F (3 # 2)) (Float.sub q3 q1)) in
        let upper_bound :=
          Float.add q3 (Float.mul (F (3 # 2)) (Float.sub q3 q1)) in
        (if String.eqb method "mode" then
           m ← lift (getitem0 (Series.mode xs));
           let xs1 :=
             np_where (map (fun x => Float.ltb x lower_bound) xs) m xs in
           setitem df col (NumCol xs1);;
           m1 ← lift (getitem0 (Series.mode xs1));
           setitem df col
             (NumCol (np_where (map (fun x => Float.gtb x upper_bound) xs1)
                        m1 xs1))
         else if String.eqb method "median" then
           (* [df[col].median] is the bound method, not its result *)
           let os1 :=
             np_where (map (fun x => Float.ltb x lower_bound) xs)
               (PyMethod "median") (map PyFloat xs) in
           setitem df col (ObjCol os1);;
           cond ← lift (gt_objects os1 upper_bound);
           setitem df col (ObjCol (np_where cond (PyMethod "median") os1))
         else
           let xs1 :=
             np_where (map (fun x => Float.ltb x lower_bound) xs)
               lower_bound xs in
           setitem df col (NumCol xs1);;
           setitem df col
             (NumCol (np_where (map (fun x => Float.gtb x upper_bound) xs1)
                        upper_bound xs1)));;
        mret df
    | ObjCol _ | TimeCol _ => raise TypeError
    end).

Definition remove_whitespace_column (df : loc) : M loc :=
  log_decorator "remove_whitespace_column" (
    f ← load df;
    store df
      (mkFrame (index f)
         (map (fun p => (Str.lower (Str.replace_spaces (fst p)), snd p))
            (columns f)));;
    mret df).

(** [np.product(df.shape)] is the number of cells (the function exists in
    numpy before 2.0). *)
Definition percent_missing (df : loc) : M float64 :=
  log_decorator "percent_missing" (
    f ← load df;
    let total_cells := (length (index f) * length (columns f))%nat in
    let missing_count :=
      map (fun p => Column.count_missing (snd p)) (columns f) in
    let total_missing := foldr Nat.add O missing_count in
    mret (Float.round2
            (Float.mul (Float.true_divide total_missing total_cells) (F 100)))).

(** [f[cols]]: the columns named, when the frame has them all (pandas
    names the missing labels in the error; the model keeps the first). *)
Fixpoint getitems (f : DataFrame) (cols : list string) : exn + list column :=
  match cols with
  | [] => inr []
  | col :: cols' =>
      match Frame.getitem f col with
      | None => inl (KeyError col)
      | Some c =>
          match getitems f cols' with
          | inr cs => inr (c :: cs)
          | inl e => inl e
          end
      end
  end.

Definition string_columns : list string :=
  ["bearer_id"; "imsi"; "msisdn/number"; "imei"; "handset_type"]%string.

(** [df[cols] = df[cols].astype(str)]: the right-hand side is built
    first, then the columns are assigned one by one. *)
Definition convert_to_string (fmt : formatter) (df : loc) : M loc :=
  log_decorator "convert_to_string" (
    f ← load df;
    cs ← lift (getitems f string_columns);
    for_each (zip string_columns (map (astype_str fmt) cs)) (fun p =>
      setitem df (fst p) (snd p));;
    mret df).

(** The columns of a table as arrays of numbers.  As for the reductions,
    the model covers numeric columns and reports [TypeError] otherwise. *)
Fixpoint to_numpy (cs : list column) : exn + list (list float64) :=
  match cs with
  | [] => inr []
  | NumCol xs :: cs' =>
      match to_numpy cs' with
      | inr X => inr (xs :: X)
      | inl e => inl e
      end
  | (ObjCol _ | TimeCol _) :: _ => inl TypeError
  end.

(** [pd.DataFrame(X, columns=names)]: the rows are labelled anew. *)
Definition new_frame (n : nat) (names : list string) (X : list (list float64))
  : DataFrame :=
  mkFrame (map Z.of_nat (seq 0 n)) (zip names (map NumCol X)).

Definition min_max_scaler (df : loc) : M loc :=
  log_decorator "min_max_scaler" (
    f ← load df;
    names ← get_numerical_columns df;
    cs ← lift (getitems f names);
    X ← lift (to_numpy cs);
    X' ← lift (MinMaxScaler.fit_transform (length (index f)) X);
    names' ← get_numerical_columns df;
    alloc (new_frame (length (index f)) names' X')).

End DataCleaner.

(** ** The utilities [scripts/utils.py] *)

Module Utils.

(** [1*10e+5], that is, one million. *)
Definition megabyte : Q := 1 * 1000000.

(** [c / d] for a number [d].  As for the reductions, the model covers
    numeric columns and reports [TypeError] otherwise. *)
Definition truediv (c : column) (d : Q) : exn + column :=
  match c with
  | NumCol xs => inr (NumCol (map (fun x => Float.div x (F d)) xs))
  | ObjCol _ | TimeCol _ => inl TypeError
  end.

(** The method is not decorated: nothing is logged. *)
Definition convert_bytes_to_megabytes (df : loc) (bytes_data : string)
  : M column :=
  c ← getitem df bytes_data;
  c' ← lift (truediv c megabyte);
  setitem df bytes_data c';;
  getitem df bytes_data.

End Utils.

(** ** Notions used to state the properties *)

(** A column without an infinite entry. *)
Definition finite (xs : list float64) : Prop :=
  Forall (fun x => Float.isinf x = false) xs.

(** [x] is a number between the numbers [lb] and [ub]. *)
Definition within (lb ub x : float64) : Prop :=
  match lb, ub, x with
  | F l, F u, F v => (l <= v <= u)%Q
  | _, _, _ => False
  end.



(** A cell other than the text 'nan'. *)
Definition not_nan_cell (c : Frame.cell) : bool :=
  match c with
  | Frame.CObj o => Obj.ne_str "nan" o
  | _ => true
  end.

(** A row in which no cell is the text 'nan'. *)
Definition without_nan (r : list Frame.cell) : bool := forallb not_nan_cell r.

(** The objects of [s] are still there, unchanged, in [s']. *)
Definition preserved (s s' : state) : Prop :=
  forall (l : loc) (g : DataFrame), heap s !! l = Some g -> heap s' !! l = Some g.

(** A frame with the single column [name], labelled [0, 1, ...]. *)
Definition single_column (name : string) (c : column) : DataFrame :=
  mkFrame (map Z.of_nat (seq 0 (Column.len c))) [(name, c)].

(** A store holding one frame, at location [1]. *)
Definition initial (f : DataFrame) : state := mkState {[ 1%positive := f ]} [].

(** ** Notions used in the proofs *)

(** A computation that writes to no object but [l], and does not lose it. *)
Definition writes_only {A : Type} (l : loc) (m : M A) : Prop :=
  forall s r s', m s = (r, s') ->
    (forall k, k <> l -> heap s' !! k = heap s !! k) /\
    (is_Some (heap s !! l) -> is_Some (heap s' !! l)).

(** A computation whose results, when it returns, satisfy [P]. *)
Definition returns {A : Type} (P : A -> Prop) (m : M A) : Prop :=
  forall s x s', m s = (inr x, s') -> P x.

(** A computation whose exceptions, when it raises, satisfy [P]. *)
Definition raises_only {A : Type} (P : exn -> Prop) (m : M A) : Prop :=
  forall s e s', m s = (inl e, s') -> P e.

(** Any exception but a [ValueError]. *)
Definition not_ValueError (e : exn) : Prop :=
  match e with
  | ValueError _ => False
  | _ => True
  end.

(** The numbers of a column, and their exact sum. *)
Definition finite_values (xs : list float64) : list Q :=
  flat_map (fun x => match x with F q => [q] | _ => [] end) xs.


(** The order of numbers and infinities. *)
Definition fle (x y : float64) : Prop := Float.leb x y = true.

(** The number of rows a mask selects. *)
Definition kept (mask : list bool) : nat := length (List.filter (fun b => b) mask).

(** What a numeric policy does to one column of the frame. *)
Definition fill_column (stat : list float64 -> float64) (c : column) : column :=
  match c with
  | NumCol xs => NumCol (fillna Float.isnan xs (stat xs))
  | ObjCol _ | TimeCol _ => c
  end.

(** The rows without 'nan', computed column by column. *)
Definition nan_mask (n : nat) (cols : list column) : list bool :=
  foldr (fun c acc => zip_with andb (Column.ne_str "nan" c) acc)
    (repeat true n) cols.

(** The same, for the columns of [f] named in [names]. *)
Definition names_mask (f : DataFrame) (names : list string) : list bool :=
  foldr (fun n acc =>
           zip_with andb
             (match Frame.getitem f n with
              | Some c => Column.ne_str "nan" c
              | None => []
              end) acc)
    (repeat true (length (index f))) names.

(** ** Sample data *)

(** Four rows, of which the third repeats the first; one null in each
    column. *)
Definition sample : DataFrame :=
  mkFrame [0; 1; 2; 3]
    [("n"%string, NumCol [F 1; F 2; F 1; NaN]);
     ("s"%string, ObjCol [PyStr "a"; PyStr "b"; PyStr "a"; PyNone])].

(** ** Filling forward and backward *)




(** ** Filling with the most frequent value *)


(** The relation [eqb] is an equivalence on the values that satisfy [P]. *)
Definition equivalence_on {A : Type} (P : A -> Prop) (eqb : A -> A -> bool)
  : Prop :=
  (forall x, P x -> eqb x x = true) /\
  (forall x y, P x -> P y -> eqb x y = true -> eqb y x = true) /\
  (forall x y z, P x -> P y -> P z ->
     eqb x y = true -> eqb y z = true -> eqb x z = true).

(** A few sessions of the telecom data: the columns that
    [convert_to_string] rewrites, and a volume in bytes. *)
Definition sessions : DataFrame :=
  mkFrame [0; 1; 2]
    [("bearer_id"%string, NumCol [F 1; NaN; F 3]);
     ("imsi"%string, NumCol [F 10; F 20; F 30]);
     ("msisdn/number"%string, NumCol [F 7; F 8; F 9]);
     ("imei"%string, NumCol [F 4; F 5; F 6]);
     ("handset_type"%string, ObjCol [PyStr "A"; PyNone; PyStr "B"]);
     ("Total DL (Bytes)"%string, NumCol [F 2000000; F 500000; NaN])].

(** ** Column names *)

(** A name of ASCII characters only. *)
Definition ascii_name (name : string) : Prop :=
  Forall (fun c => (Ascii.nat_of_ascii c < 128)%nat)
    (String.list_ascii_of_string name).

(** A name without a space and without an upper-case letter. *)
Definition clean_name (name : string) : Prop :=
  Forall (fun c => c <> Ascii.Space /\ Str.is_upper c = false)
    (String.list_ascii_of_string name).

(** ** Scaling *)

(** [y] is the number [x] divided by [k]; an infinity stays what it is,
    and a null stays a null. *)
Definition divided_by (k : Q) (x y : float64) : Prop :=
  match x with
  | F v => exists w : Q, y = F w /\ (w * k == v)%Q
  | Inf _ | NaN => y = x
  end.

(** ** Conversion to text *)

(** A formatter, for examples. *)
Definition plain : formatter :=
  mkFormatter (fun _ => "1.0"%string) (fun _ => "2019-04-04"%string)
    (fun name => name).


(** * Properties *)

Import DataCleaner.

(** ** Running the primitives *)

Lemma load_run (s : state) (df : loc) (f : DataFrame) :
  heap s !! df = Some f -> load df s = (inr f, s).
Proof. intros H. unfold load. now rewrite H. Qed.

Lemma store_run (s : state) (df : loc) (f g : DataFrame) :
  heap s !! df = Some f ->
  store df g s = (inr tt, mkState (<[df := g]> (heap s)) (log s)).
Proof. intros H. unfold store. now rewrite H. Qed.

Lemma setitem_run (s : state) (df : loc) (f : DataFrame) (col : string) (c : column) :
  heap s !! df = Some f ->
  setitem df col c s
  = (inr tt, mkState (<[df := Frame.setitem f col c]> (heap s)) (log s)).
Proof.
  intros H. unfold setitem, mbind, M_bind.
  rewrite (load_run _ _ _ H). now apply store_run with f.
Qed.

Lemma getitem_run (s : state) (df : loc) (f : DataFrame) (col : string) :
  heap s !! df = Some f ->
  getitem df col s
  = (match Frame.getitem f col with
     | Some c => inr c
     | None => inl (KeyError col)
     end, s).
Proof.
  intros H. unfold getitem, mbind, M_bind.
  rewrite (load_run _ _ _ H). now destruct (Frame.getitem f col).
Qed.

Lemma fresh_unused (s : state) : heap s !! fresh (dom (heap s)) = None.
Proof. apply not_elem_of_dom, is_fresh. Qed.

Lemma preserved_refl (s : state) : preserved s s.
Proof. now intros l g H. Qed.

Lemma preserved_insert_fresh (s : state) (h : gmap loc DataFrame)
    (l : loc) (g : DataFrame) (lg : list log_record) :
  heap s !! l = None ->
  (forall k v, heap s !! k = Some v -> h !! k = Some v) ->
  preserved s (mkState (<[l := g]> h) lg).
Proof.
  intros Hl Hh k v Hk. simpl.
  rewrite lookup_insert_ne; [now apply Hh | congruence].
Qed.

(** ** Effects *)

Lemma writes_only_ret {A : Type} (l : loc) (x : A) : writes_only l (mret x).
Proof. intros s r s' H. injection H as <- <-. auto. Qed.

Lemma writes_only_raise {A : Type} (l : loc) (e : exn) : writes_only l (@raise A e).
Proof. intros s r s' H. injection H as <- <-. auto. Qed.

Lemma writes_only_lift {A : Type} (l : loc) (x : exn + A) : writes_only l (lift x).
Proof. intros s r s' H. injection H as <- <-. auto. Qed.

Lemma writes_only_bind {A B : Type} (l : loc) (m : M A) (k : A -> M B) :
  writes_only l m -> (forall x, writes_only l (k x)) -> writes_only l (m ≫= k).
Proof.
  intros Hm Hk s r s' H. unfold mbind, M_bind in H.
  destruct (m s) as [[e | x] s1] eqn:E.
  - injection H as <- <-. now apply (Hm _ _ _ E).
  - destruct (Hm _ _ _ E) as [H1 H2], (Hk x _ _ _ H) as [H3 H4]. split.
    + intros k0 Hk0. now rewrite H3, H1.
    + auto.
Qed.

Lemma writes_only_getitem (l df : loc) (col : string) : writes_only l (getitem df col).
Proof.
  intros s r s' H. unfold getitem, mbind, M_bind, load in H.
  destruct (heap s !! df).
  - destruct (Frame.getitem d col); injection H as <- <-; auto.
  - injection H as <- <-; auto.
Qed.

Lemma writes_only_setitem (l : loc) (col : string) (c : column) :
  writes_only l (setitem l col c).
Proof.
  intros s r s' H. unfold setitem, mbind, M_bind, load, store in H.
  destruct (heap s !! l) eqn:E.
  - rewrite E in H. injection H as <- <-. simpl. split.
    + intros k Hk. rewrite lookup_insert_ne; auto.
    + intros _. rewrite lookup_insert_eq. eauto.
  - injection H as <- <-. split; [auto|]. intros [? ?]. congruence.
Qed.

Create HintDb effects.
#[export] Hint Resolve writes_only_ret writes_only_raise writes_only_lift
  writes_only_getitem writes_only_setitem : effects.
#[export] Hint Extern 2 (writes_only _ (_ ≫= _)) =>
  apply writes_only_bind; [| intros ?] : effects.
#[export] Hint Extern 3 (writes_only _ (if ?b then _ else _)) =>
  destruct b : effects.
#[export] Hint Extern 3
  (writes_only _ (match ?c with NumCol _ => _ | _ => _ end)) =>
  destruct c : effects.

Lemma returns_bind {A B : Type} (P : B -> Prop) (m : M A) (k : A -> M B) :
  (forall x, returns P (k x)) -> returns P (m ≫= k).
Proof.
  intros Hk s x s' H. unfold mbind, M_bind in H.
  destruct (m s) as [[e | y] s1]; [discriminate |]. exact (Hk _ _ _ _ H).
Qed.

Lemma returns_ret {A : Type} (P : A -> Prop) (x : A) : P x -> returns P (mret x).
Proof. intros HP s y s' H. now injection H as <- <-. Qed.

Lemma returns_raise {A : Type} (P : A -> Prop) (e : exn) : returns P (raise e).
Proof. intros s y s' H. discriminate. Qed.

(** ** [handle_outliers] works on a copy *)

(** C9: whatever the column and the policy, and whether the call returns
    or raises, [handle_outliers] leaves the frame it is given as it was
    (and every other object of the store with it); when it returns, the
    result is a new object, at a location that was not in use before. *)
Theorem handle_outliers_leaves_input
    (s : state) (df : loc) (col method : string) (f : DataFrame) :
  heap s !! df = Some f ->
  let r := fst (DataCleaner.handle_outliers df col method s) in
  let s' := snd (DataCleaner.handle_outliers df col method s) in
  heap s' !! df = Some f /\
  preserved s s' /\
  forall df', r = inr df' ->
    heap s !! df' = None /\ df' <> df /\ is_Some (heap s' !! df').
Proof.
  intros Hdf. cbv zeta.
  destruct (DataCleaner.handle_outliers df col method s) as [r s'] eqn:E0.
  cbn [fst snd].
  unfold DataCleaner.handle_outliers, DataCleaner.log_decorator, copy in E0.
  unfold mbind at 1, M_bind at 1 in E0. unfold mbind at 1, M_bind at 1 in E0.
  rewrite (load_run _ _ _ Hdf) in E0. unfold alloc in E0.
  set (l := fresh (dom (heap s))) in E0.
  assert (Hl : heap s !! l = None) by apply fresh_unused.
  match type of E0 with context [ (let (_, _) := ?b ?st in _) ] =>
     set (body := b) in E0; set (s1 := st) in E0 end.
  assert (Hw : writes_only l body) by (subst body; auto 20 with effects).
  assert (Hr : returns (eq l) body).
  { subst body. apply returns_bind. intros [xs | os | ts]; try apply returns_raise.
    apply returns_bind. intros _. now apply returns_ret. }
  destruct (body s1) as [[e | x] s2] eqn:E; injection E0 as <- <-; cbn [heap];
    destruct (Hw _ _ _ E) as [H1 H2]; subst s1; cbn [heap] in H1, H2;
    assert (Hp : forall k v, heap s !! k = Some v -> heap s2 !! k = Some v)
      by (intros k v Hk; rewrite H1 by congruence;
          rewrite lookup_insert_ne; congruence);
    (split; [now apply Hp |]); (split; [intros k v Hk; now apply Hp |]).
  - discriminate.
  - intros df' [= <-]. rewrite <- (Hr _ _ _ E).
    split; [exact Hl |]. split; [congruence |].
    apply H2. rewrite lookup_insert_eq. eauto.
Qed.

Lemma handle_outliers_leaves_input_witness :
  let f := single_column "x" (NumCol [F 1; F 2; F 3; F 100]) in
  let s' := snd (DataCleaner.handle_outliers 1%positive "x" "IQR" (initial f)) in
  heap (initial f) !! 1%positive = Some f /\
  heap s' !! 1%positive = Some f.
Proof.
  intros f s'. split; [reflexivity |].
  refine (proj1 (handle_outliers_leaves_input
                   (initial f) 1%positive "x" "IQR" f _)).
  reflexivity.
Defined.

(** ** The percentage of missing values *)

Lemma rint_nearest (q : Q) :
  (- (1 # 2) <= inject_Z (Float.rint q) - q <= 1 # 2)%Q.
Proof.
  unfold Float.rint.
  pose proof (Qfloor_le q) as H1. pose proof (Qlt_floor q) as H2.
  rewrite inject_Z_plus in H2. change (inject_Z 1) with 1%Q in H2.
  destruct (Qcompare_spec (q - inject_Z (Qfloor q)) (1 # 2)) as [E | E | E].
  - destruct (Z.even (Qfloor q));
      [| rewrite inject_Z_plus; change (inject_Z 1) with 1%Q]; lra.
  - lra.
  - rewrite inject_Z_plus. change (inject_Z 1) with 1%Q. lra.
Qed.

Lemma rint_bounds (q : Q) (a b : Z) :
  (inject_Z a <= q <= inject_Z b)%Q -> (a <= Float.rint q <= b)%Z.
Proof.
  intros [Ha Hb].
  pose proof (Qfloor_le q) as H1. pose proof (Qlt_floor q) as H2.
  assert (H2' := H2). rewrite inject_Z_plus in H2'. change (inject_Z 1) with 1%Q in H2'.
  assert (Hfb : (Qfloor q <= b)%Z) by (rewrite Zle_Qle; lra).
  assert (Haf : (a < Qfloor q + 1)%Z) by (rewrite Zlt_Qlt; lra).
  assert (Hhalf : ((1 # 2) <= q - inject_Z (Qfloor q))%Q -> (Qfloor q < b)%Z).
  { intros Hr. destruct (Z.eq_dec (Qfloor q) b) as [E | Hne]; [| lia].
    rewrite E in Hr. lra. }
  unfold Float.rint.
  destruct (Qcompare_spec (q - inject_Z (Qfloor q)) (1 # 2)) as [E | E | E].
  - destruct (Z.even (Qfloor q)); [lia |].
    assert (Qfloor q < b)%Z by (apply Hhalf; lra). lia.
  - lia.
  - assert (Qfloor q < b)%Z by (apply Hhalf; lra). lia.
Qed.

Lemma count_null_le {A : Type} (isnull : A -> bool) (xs : list A) :
  (count_null isnull xs <= length xs)%nat.
Proof.
  unfold count_null. induction xs as [| x xs IH]; simpl; [lia |].
  destruct (isnull x); simpl; lia.
Qed.

Lemma count_missing_le (c : column) : (Column.count_missing c <= Column.len c)%nat.
Proof. destruct c; apply count_null_le. Qed.

(** The share of [m] entries among [n], in percent, to two decimals. *)
Lemma percentage_rounded (m n : nat) :
  (0 < n)%nat -> (m <= n)%nat ->
  exists (p : Q) (k : Z),
    Float.round2 (Float.mul (Float.true_divide m n) (F 100)) = F p /\
    (p == k # 100)%Q /\
    (0 <= p <= 100)%Q /\
    (- (1 # 200) <= p - 100 * (inject_Z (Z.of_nat m) / inject_Z (Z.of_nat n))
       <= 1 # 200)%Q.
Proof.
  intros Hn Hm. destruct n as [| n']; [lia |].
  set (n := S n') in *. set (r := (inject_Z (Z.of_nat m) / inject_Z (Z.of_nat n))%Q).
  assert (Hnpos : (0 < inject_Z (Z.of_nat n))%Q).
  { change 0%Q with (inject_Z 0). rewrite <- Zlt_Qlt. lia. }
  assert (Hr : (0 <= r <= 1)%Q).
  { unfold r. split.
    - apply Qle_shift_div_l; [exact Hnpos |]. rewrite Qmult_0_l.
      change 0%Q with (inject_Z 0). rewrite <- Zle_Qle. lia.
    - apply Qle_shift_div_r; [exact Hnpos |]. rewrite Qmult_1_l.
      rewrite <- Zle_Qle. lia. }
  unfold Float.true_divide. fold n. fold r.
  unfold Float.mul, fl, Float.round2, fl.
  set (q := (Qred (Qred r * 100) * 100)%Q).
  assert (Hq : (q == r * 100 * 100)%Q) by (unfold q; now rewrite !Qred_correct).
  exists (Qred (inject_Z (Float.rint q) / 100)), (Float.rint q).
  split; [reflexivity |].
  pose proof (rint_nearest q) as Hnear.
  pose proof (rint_bounds q 0 10000) as Hb.
  assert (Hk : (0 <= Float.rint q <= 10000)%Z).
  { apply Hb. change (inject_Z 0) with 0%Q. change (inject_Z 10000) with 10000%Q. lra. }
  rewrite Qred_correct.
  assert (Hk' : (0 <= inject_Z (Float.rint q) <= 10000)%Q).
  { change 0%Q with (inject_Z 0). change 10000%Q with (inject_Z 10000).
    rewrite <- !Zle_Qle. exact Hk. }
  split; [| split].
  - rewrite (Qmake_Qdiv (Float.rint q) 100). reflexivity.
  - unfold Qdiv. change (/ 100)%Q with (1 # 100)%Q. lra.
  - unfold Qdiv. change (/ 100)%Q with (1 # 100)%Q.
    clearbody q. fold r. lra.
Qed.

Lemma percent_missing_column_run
    (s : state) (df : loc) (col : string) (f : DataFrame) (c : column) :
  heap s !! df = Some f ->
  Frame.getitem f col = Some c ->
  percent_missing_column df col s
  = (inr (Float.round2
            (Float.mul (Float.true_divide (Column.count_missing c) (Column.len c))
               (F 100))),
     mkState (heap s) (Executed "percent_missing_column" :: log s)).
Proof.
  intros Hdf Hc.
  unfold percent_missing_column, log_decorator, except_KeyError, mbind, M_bind.
  rewrite (getitem_run _ _ _ _ Hdf), Hc. cbn.
  rewrite (getitem_run _ _ _ _ Hdf), Hc. reflexivity.
Qed.

(** C7 (as amended): on a column that is present and has at least one
    row, [percent_missing_column] returns a number of hundredths between
    0 and 100, the nearest to the exact percentage of null entries, and
    changes no frame. *)
Theorem percent_missing_column_range
    (s : state) (df : loc) (col : string) (f : DataFrame) (c : column) :
  heap s !! df = Some f ->
  Frame.getitem f col = Some c ->
  (0 < Column.len c)%nat ->
  exists (p : Q) (k : Z),
    fst (percent_missing_column df col s) = inr (F p) /\
    within (F 0) (F 100) (F p) /\
    (p == k # 100)%Q /\
    (- (1 # 200)
       <= p - 100 * (inject_Z (Z.of_nat (Column.count_missing c))
                       / inject_Z (Z.of_nat (Column.len c)))
       <= 1 # 200)%Q /\
    heap (snd (percent_missing_column df col s)) = heap s.
Proof.
  intros Hdf Hc Hlen.
  rewrite (percent_missing_column_run _ _ _ _ _ Hdf Hc). cbn [fst snd heap].
  destruct (percentage_rounded (Column.count_missing c) (Column.len c) Hlen
              (count_missing_le c)) as (p & k & E & Hk & Hp & Hnear).
  exists p, k. rewrite E. auto.
Qed.

Lemma percent_missing_column_range_witness :
  let f := single_column "x" (NumCol [F 1; NaN; F 2]) in
  heap (initial f) !! 1%positive = Some f /\
  Frame.getitem f "x" = Some (NumCol [F 1; NaN; F 2]) /\
  (0 < Column.len (NumCol [F 1; NaN; F 2]))%nat /\
  exists (p : Q) (k : Z),
    fst (percent_missing_column 1%positive "x" (initial f)) = inr (F p) /\
    within (F 0) (F 100) (F p) /\
    (p == k # 100)%Q /\
    (- (1 # 200)
       <= p - 100 * (inject_Z (Z.of_nat (Column.count_missing (NumCol [F 1; NaN; F 2])))
                       / inject_Z (Z.of_nat (Column.len (NumCol [F 1; NaN; F 2]))))
       <= 1 # 200)%Q /\
    heap (snd (percent_missing_column 1%positive "x" (initial f))) = heap (initial f).
Proof.
  intros f. split; [reflexivity |]. split; [reflexivity |]. split; [simpl; lia |].
  apply (percent_missing_column_range (initial f) 1%positive "x" f
           (NumCol [F 1; NaN; F 2])); [reflexivity | reflexivity | simpl; lia].
Defined.

(** C7, as stated, fails on a frame without rows: the percentage is
    [0 / 0], which numpy evaluates to NaN. *)
Lemma percent_missing_column_empty :
  let f := single_column "x" (NumCol []) in
  Frame.getitem f "x" = Some (NumCol []) /\
  fst (percent_missing_column 1%positive "x" (initial f)) = inr NaN /\
  ~ exists x : float64,
      fst (percent_missing_column 1%positive "x" (initial f)) = inr x /\
      within (F 0) (F 100) x.
Proof.
  split; [reflexivity |]. split; [reflexivity |].
  intros (x & E & W). vm_compute in E. injection E as <-. exact W.
Qed.

(** ** The order of floating-point values *)

Lemma leb_refl (x : float64) : Float.isnan x = false -> fle x x.
Proof.
  unfold fle. destruct x as [a | [] |]; cbn; try reflexivity; try discriminate.
  intros _. apply Qle_bool_iff. apply Qle_refl.
Qed.

Lemma leb_total (x y : float64) :
  Float.isnan x = false -> Float.isnan y = false -> fle x y \/ fle y x.
Proof.
  unfold fle. destruct x as [a | [] |], y as [b | [] |]; cbn; intros Hx Hy;
    try discriminate; auto.
  destruct (Qlt_le_dec a b) as [H | H].
  - left. apply Qle_bool_iff. lra.
  - right. now apply Qle_bool_iff.
Qed.

Lemma leb_trans (x y z : float64) : fle x y -> fle y z -> fle x z.
Proof.
  unfold fle.
  destruct x as [a | [] |], y as [b | [] |], z as [c | [] |]; cbn;
    try discriminate; try reflexivity.
  rewrite !Qle_bool_iff. lra.
Qed.

Lemma leb_ltb (x y : float64) : fle x y -> Float.ltb y x = false.
Proof.
  unfold fle.
  destruct x as [a | [] |], y as [b | [] |]; cbn; try discriminate;
    try reflexivity.
  unfold Float.Qltb. now intros ->.
Qed.

Lemma ltb_nan_l (x : float64) : Float.ltb NaN x = false.
Proof. reflexivity. Qed.

Lemma ltb_nan_r (x : float64) : Float.ltb x NaN = false.
Proof. now destruct x. Qed.

(** ** Sorting *)

Lemma insert_sorted_length {A : Type} (leb : A -> A -> bool) (x : A) (l : list A) :
  length (insert_sorted leb x l) = S (length l).
Proof.
  induction l as [| y l IH]; simpl; [reflexivity |].
  destruct (leb x y); simpl; congruence.
Qed.

Lemma sort_values_length {A : Type} (leb : A -> A -> bool) (l : list A) :
  length (sort_values leb l) = length l.
Proof.
  induction l as [| x l IH]; [reflexivity |].
  change (sort_values leb (x :: l)) with (insert_sorted leb x (sort_values leb l)).
  now rewrite insert_sorted_length, IH.
Qed.

Lemma insert_sorted_Forall {A : Type} (P : A -> Prop) (leb : A -> A -> bool)
    (x : A) (l : list A) :
  P x -> Forall P l -> Forall P (insert_sorted leb x l).
Proof.
  intros Hx Hl. induction Hl as [| y l Hy Hl IH]; simpl.
  - auto.
  - destruct (leb x y); auto.
Qed.

Lemma sort_values_Forall {A : Type} (P : A -> Prop) (leb : A -> A -> bool)
    (l : list A) :
  Forall P l -> Forall P (sort_values leb l).
Proof.
  induction 1 as [| x l Hx _ IH]; [constructor |].
  change (sort_values leb (x :: l)) with (insert_sorted leb x (sort_values leb l)).
  now apply insert_sorted_Forall.
Qed.

Lemma insert_sorted_sorted (x : float64) (l : list float64) :
  Float.isnan x = false ->
  Forall (fun y => Float.isnan y = false) l ->
  StronglySorted fle l -> StronglySorted fle (insert_sorted Float.leb x l).
Proof.
  intros Hx Hnn Hl. induction Hl as [| y l Hl IH Hy]; simpl.
  - repeat constructor.
  - apply Forall_cons in Hnn as [Hyn Hnn].
    destruct (Float.leb x y) eqn:E.
    + constructor; [now constructor |].
      constructor; [exact E |].
      eapply Forall_impl; [exact Hy |]. intros z Hz. cbv beta in Hz.
      now apply leb_trans with y.
    + constructor; [now apply IH |].
      apply insert_sorted_Forall; [| exact Hy].
      destruct (leb_total x y Hx Hyn) as [H | H]; [| exact H].
      unfold fle in H. congruence.
Qed.

Lemma sort_values_sorted (l : list float64) :
  Forall (fun y => Float.isnan y = false) l ->
  StronglySorted fle (sort_values Float.leb l).
Proof.
  induction 1 as [| x l Hx Hl IH]; [constructor |].
  change (sort_values Float.leb (x :: l))
    with (insert_sorted Float.leb x (sort_values Float.leb l)).
  apply insert_sorted_sorted; [exact Hx | | exact IH].
  now apply sort_values_Forall.
Qed.

Lemma sorted_nth (l : list float64) (i j : nat) :
  Forall (fun y => Float.isnan y = false) l ->
  StronglySorted fle l -> (i <= j)%nat -> (j < length l)%nat ->
  fle (nth i l NaN) (nth j l NaN).
Proof.
  intros Hnn Hl. revert i j.
  induction Hl as [| y l Hl IH Hy]; intros i j Hij Hj.
  - simpl in Hj. lia.
  - apply Forall_cons in Hnn as [Hyn Hnn].
    destruct i as [| i], j as [| j]; simpl in *; try lia.
    + now apply leb_refl.
    + rewrite List.Forall_forall in Hy. apply Hy. apply nth_In. lia.
    + apply IH; [exact Hnn | lia | lia].
Qed.

Lemma values_not_null (xs : list float64) :
  Forall (fun y => Float.isnan y = false) (Series.values xs).
Proof.
  unfold Series.values, dropna. apply List.Forall_forall. intros x Hx.
  apply filter_In in Hx as [_ Hx]. now destruct (Float.isnan x).
Qed.

Lemma values_In (xs : list float64) (x : float64) :
  In x (Series.values xs) <-> In x xs /\ Float.isnan x = false.
Proof.
  unfold Series.values, dropna. rewrite filter_In.
  destruct (Float.isnan x); cbn; intuition congruence.
Qed.

Lemma values_finite (xs : list float64) :
  finite xs -> Series.values xs = map F (finite_values xs).
Proof.
  unfold finite, Series.values, dropna, finite_values.
  induction 1 as [| x xs Hx _ IH]; [reflexivity |].
  destruct x as [a | s |]; cbn in *; [| discriminate |]; now rewrite ?IH.
Qed.

(** ** Quartiles *)

Lemma lerp_number (a b t : Q) :
  exists r : Q, Series.lerp (F a) (F b) t = F r /\ (r == a + (b - a) * t)%Q.
Proof.
  unfold Series.lerp. cbn [Float.sub Float.mul Float.add].
  destruct (Qle_bool (1 # 2) t); unfold fl; eexists;
    (split; [reflexivity |]); rewrite !Qred_correct; ring.
Qed.

Lemma mul_inf_positive (s : bool) (t : Q) :
  (0 < t)%Q -> Float.mul (Inf s) (F t) = Inf s.
Proof.
  intros Ht. cbn.
  assert (E1 : Qeq_bool t 0 = false).
  { destruct (Qeq_bool t 0) eqn:E; [| reflexivity].
    apply Qeq_bool_iff in E. lra. }
  assert (E2 : Float.Qltb t 0 = false).
  { unfold Float.Qltb. apply negb_false_iff. apply Qle_bool_iff. lra. }
  rewrite E1, E2. now destruct s.
Qed.

Lemma mul_inf_zero (s : bool) (t : Q) :
  (t == 0)%Q -> Float.mul (Inf s) (F t) = NaN.
Proof.
  intros Ht. cbn. apply Qeq_bool_iff in Ht. now rewrite Ht.
Qed.

(** The value interpolated between two neighbours, when it is not NaN,
    lies between them. *)
Lemma lerp_between (a b : float64) (t : Q) :
  fle a b -> (0 <= t < 1)%Q ->
  Float.isnan (Series.lerp a b t) = false ->
  fle a (Series.lerp a b t) /\ fle (Series.lerp a b t) b.
Proof.
  intros Hab Ht.
  destruct a as [a | s |], b as [b | s' |]; try discriminate Hab.
  - destruct (lerp_number a b t) as (r & -> & Hr). intros _.
    unfold fle in *. cbn in *. apply Qle_bool_iff in Hab.
    rewrite !Qle_bool_iff. split; nra.
  - unfold Series.lerp. cbn [Float.sub].
    destruct (Qle_bool (1 # 2) t) eqn:E; [| destruct (Qeq_dec t 0) as [Z | Z]];
      rewrite ?(mul_inf_zero _ _ Z), ?mul_inf_positive by lra;
      destruct s'; cbn; try discriminate; intros _; split; reflexivity.
  - unfold Series.lerp. cbn [Float.sub].
    destruct (Qle_bool (1 # 2) t) eqn:E; [| destruct (Qeq_dec t 0) as [Z | Z]];
      rewrite ?(mul_inf_zero _ _ Z), ?mul_inf_positive by lra;
      destruct s; cbn; try discriminate; intros _; split; reflexivity.
  - unfold Series.lerp. cbn [Float.sub].
    destruct s, s'; cbn [Bool.eqb negb]; try discriminate;
      (destruct (Qle_bool (1 # 2) t) eqn:E; [| destruct (Qeq_dec t 0) as [Z | Z]]);
      rewrite ?(mul_inf_zero _ _ Z), ?mul_inf_positive by lra;
      cbn; try discriminate; intros _; split; reflexivity.
Qed.

Ltac lerp_cases t :=
  let E := fresh "E" in
  let Z := fresh "Z" in
  destruct (Qle_bool (1 # 2) t) eqn:E;
  [ apply Qle_bool_iff in E;
    rewrite ?(mul_inf_positive _ (1 - t)) by lra
  | assert (~ (1 # 2 <= t)%Q) by (rewrite <- Qle_bool_iff; congruence);
    destruct (Qeq_dec t 0) as [Z | Z];
    [ rewrite ?(mul_inf_zero _ t Z)
    | rewrite ?(mul_inf_positive _ t) by lra ] ].

(** Between two given neighbours the interpolated value does not
    decrease along the interval. *)
Lemma lerp_monotone (a b : float64) (t1 t2 : Q) :
  fle a b -> (0 <= t1)%Q -> (t1 <= t2)%Q -> (t2 < 1)%Q ->
  Float.ltb (Series.lerp a b t2) (Series.lerp a b t1) = false.
Proof.
  intros Hab H0 H12 H1.
  destruct a as [a | s |], b as [b | s' |]; try discriminate Hab.
  - destruct (lerp_number a b t1) as (r1 & -> & Hr1).
    destruct (lerp_number a b t2) as (r2 & -> & Hr2).
    unfold fle in Hab. cbn in *. apply Qle_bool_iff in Hab.
    unfold Float.Qltb. apply negb_false_iff. apply Qle_bool_iff. nra.
  - unfold Series.lerp. cbn [Float.sub].
    destruct s'; try discriminate Hab.
    lerp_cases t1; lerp_cases t2; cbn; try reflexivity; exfalso;
      first [lra | match goal with Z : ~ (_ == 0)%Q |- _ => apply Z; lra end].
  - unfold Series.lerp. cbn [Float.sub].
    destruct s; try discriminate Hab.
    lerp_cases t1; lerp_cases t2; cbn; try reflexivity; exfalso;
      first [lra | match goal with Z : ~ (_ == 0)%Q |- _ => apply Z; lra end].
  - unfold Series.lerp. cbn [Float.sub].
    destruct s, s'; cbn [Bool.eqb negb]; try discriminate Hab;
      lerp_cases t1; lerp_cases t2; cbn; try reflexivity; exfalso;
      first [lra | match goal with Z : ~ (_ == 0)%Q |- _ => apply Z; lra end].
Qed.

Lemma interpolate_monotone (vs : list float64) (p1 p2 : Q) :
  Forall (fun y => Float.isnan y = false) vs ->
  StronglySorted fle vs ->
  (0 < length vs)%nat ->
  (0 <= p1)%Q -> (p1 <= p2)%Q -> (p2 <= inject_Z (Z.of_nat (length vs - 1)))%Q ->
  Float.ltb (Series.interpolate vs p2) (Series.interpolate vs p1) = false.
Proof.
  intros Hnn Hs Hlen H0 H12 Hn.
  pose proof (Qfloor_resp_le _ _ H12) as Hfl.
  assert (Hfl0 : (0 <= Qfloor p1)%Z).
  { change 0%Z with (Qfloor 0). now apply Qfloor_resp_le. }
  assert (Hfln : (Qfloor p2 <= Z.of_nat (length vs - 1))%Z).
  { rewrite Zle_Qle. pose proof (Qfloor_le p2). lra. }
  pose proof (Qfloor_le p1) as Hp1. pose proof (Qlt_floor p1) as Hp1'.
  pose proof (Qfloor_le p2) as Hp2. pose proof (Qlt_floor p2) as Hp2'.
  rewrite inject_Z_plus in Hp1', Hp2'.
  change (inject_Z 1) with 1%Q in Hp1', Hp2'.
  destruct (Z.eq_dec (Qfloor p1) (Qfloor p2)) as [E | E].
  - unfold Series.interpolate. rewrite E.
    set (lo := Z.to_nat (Qfloor p2)).
    rewrite E in Hp1, Hp1'.
    apply lerp_monotone; [| lra | lra | lra].
    apply sorted_nth; [exact Hnn | exact Hs | |]; unfold lo; lia.
  - set (r1 := Series.interpolate vs p1). set (r2 := Series.interpolate vs p2).
    destruct (Float.isnan r1) eqn:N1; [destruct r1; try discriminate; apply ltb_nan_r |].
    destruct (Float.isnan r2) eqn:N2; [destruct r2; try discriminate; apply ltb_nan_l |].
    apply leb_ltb.
    unfold r1, r2, Series.interpolate in *.
    set (lo1 := Z.to_nat (Qfloor p1)) in *. set (lo2 := Z.to_nat (Qfloor p2)) in *.
    set (hi1 := Nat.min (S lo1) (length vs - 1)) in *.
    set (hi2 := Nat.min (S lo2) (length vs - 1)) in *.
    assert (H1 : fle (nth lo1 vs NaN) (nth hi1 vs NaN)).
    { apply sorted_nth; [exact Hnn | exact Hs | |]; unfold hi1, lo1; lia. }
    assert (H2 : fle (nth lo2 vs NaN) (nth hi2 vs NaN)).
    { apply sorted_nth; [exact Hnn | exact Hs | |]; unfold hi2, lo2; lia. }
    assert (Hmid : fle (nth hi1 vs NaN) (nth lo2 vs NaN)).
    { apply sorted_nth; [exact Hnn | exact Hs | |]; unfold hi1, lo1, lo2; lia. }
    destruct (lerp_between _ _ (p1 - inject_Z (Qfloor p1)) H1 ltac:(lra) N1)
      as [_ Hu].
    destruct (lerp_between _ _ (p2 - inject_Z (Qfloor p2)) H2 ltac:(lra) N2)
      as [Hl _].
    eapply leb_trans; [exact Hu |]. eapply leb_trans; [exact Hmid | exact Hl].
Qed.

(** The upper quartile is not below the lower one. *)
Lemma quantile_monotone (xs : list float64) :
  Float.ltb (Series.quantile xs (3 # 4)) (Series.quantile xs (1 # 4)) = false.
Proof.
  unfold Series.quantile.
  pose proof (sort_values_sorted _ (values_not_null xs)) as Hs.
  pose proof (sort_values_Forall _ Float.leb _ (values_not_null xs)) as Hnn.
  destruct (sort_values Float.leb (Series.values xs)) as [| v vs] eqn:E;
    [reflexivity |].
  assert (Hlen : (0 < length (v :: vs))%nat) by (simpl; lia).
  revert Hs Hnn Hlen. generalize (v :: vs) as ws. clear E v vs.
  intros ws Hs Hnn Hlen.
  set (n := inject_Z (Z.of_nat (length ws - 1))).
  assert (Hn : (0 <= n)%Q).
  { unfold n. change 0%Q with (inject_Z 0). rewrite <- Zle_Qle. lia. }
  apply interpolate_monotone; [exact Hnn | exact Hs | exact Hlen | | |];
    fold n; clearbody n; lra.
Qed.

Lemma quantile_quartiles (xs : list float64) (a b : Q) :
  Series.quantile xs (1 # 4) = F a ->
  Series.quantile xs (3 # 4) = F b ->
  (a <= b)%Q.
Proof.
  intros Ha Hb. pose proof (quantile_monotone xs) as H.
  rewrite Ha, Hb in H. cbn in H. unfold Float.Qltb in H.
  apply negb_false_iff in H. now apply Qle_bool_iff.
Qed.

Lemma quantile_finite (xs : list float64) (q v : Q) :
  finite xs -> (0 <= q <= 1)%Q -> In (F v) xs ->
  exists a : Q, Series.quantile xs q = F a.
Proof.
  intros Hfin Hq Hin. unfold Series.quantile.
  assert (Hnum : Forall (fun x => exists a : Q, x = F a)
                   (sort_values Float.leb (Series.values xs))).
  { apply sort_values_Forall. rewrite (values_finite xs Hfin).
    apply List.Forall_forall. intros x Hx. apply in_map_iff in Hx as (a & <- & _).
    eauto. }
  assert (Hlen : (0 < length (sort_values Float.leb (Series.values xs)))%nat).
  { rewrite sort_values_length.
    assert (Hv : In (F v) (Series.values xs)) by (apply values_In; auto).
    destruct (Series.values xs); [destruct Hv | simpl; lia]. }
  destruct (sort_values Float.leb (Series.values xs)) as [| w ws] eqn:E;
    [simpl in Hlen; lia |].
  revert Hnum Hlen. generalize (w :: ws) as vs. clear E w ws.
  intros vs Hnum Hlen. unfold Series.interpolate.
  set (n := inject_Z (Z.of_nat (length vs - 1))).
  assert (Hn : (0 <= n)%Q).
  { unfold n. change 0%Q with (inject_Z 0). rewrite <- Zle_Qle. lia. }
  assert (Hpos : (0 <= n * q <= n)%Q) by (clearbody n; nra).
  assert (Hfl0 : (0 <= Qfloor (n * q))%Z).
  { change 0%Z with (Qfloor 0). apply Qfloor_resp_le. lra. }
  assert (Hfln : (Qfloor (n * q) <= Z.of_nat (length vs - 1))%Z).
  { rewrite Zle_Qle. pose proof (Qfloor_le (n * q)). fold n. lra. }
  rewrite List.Forall_forall in Hnum.
  destruct (Hnum (nth (Z.to_nat (Qfloor (n * q))) vs NaN)) as [a ->];
    [apply nth_In; lia |].
  destruct (Hnum (nth (Nat.min (S (Z.to_nat (Qfloor (n * q)))) (length vs - 1))
                    vs NaN)) as [b ->]; [apply nth_In; lia |].
  destruct (lerp_number a b (n * q - inject_Z (Qfloor (n * q)))) as (r & -> & _).
  eauto.
Qed.

(** ** Clipping to the bounds *)

Lemma np_where_map {A : Type} (p : A -> bool) (v : A) (xs : list A) :
  np_where (map p xs) v xs = map (fun x => if p x then v else x) xs.
Proof. induction xs as [| x xs IH]; simpl; [reflexivity | now rewrite IH]. Qed.

Lemma lookup_assign_eq (col : string) (c : column) (cols : list (string * column)) :
  Frame.lookup col (Frame.assign col c cols) = Some c.
Proof.
  induction cols as [| [name c0] cols IH]; simpl.
  - now rewrite String.eqb_refl.
  - destruct (String.eqb name col) eqn:E; simpl; now rewrite E.
Qed.

Lemma lookup_assign_ne (col col' : string) (c : column) (cols : list (string * column)) :
  col <> col' ->
  Frame.lookup col' (Frame.assign col c cols) = Frame.lookup col' cols.
Proof.
  intros Hne. induction cols as [| [name c0] cols IH]; simpl.
  - destruct (String.eqb col col') eqn:E; [| reflexivity].
    apply String.eqb_eq in E. contradiction.
  - destruct (String.eqb name col) eqn:E; simpl.
    + apply String.eqb_eq in E. subst name.
      destruct (String.eqb col col') eqn:E'; [| reflexivity].
      apply String.eqb_eq in E'. contradiction.
    + now rewrite IH.
Qed.

Lemma getitem_setitem_eq (f : DataFrame) (col : string) (c : column) :
  Frame.getitem (Frame.setitem f col c) col = Some c.
Proof. apply lookup_assign_eq. Qed.

Lemma getitem_setitem_ne (f : DataFrame) (col col' : string) (c : column) :
  col <> col' ->
  Frame.getitem (Frame.setitem f col c) col' = Frame.getitem f col'.
Proof. apply lookup_assign_ne. Qed.

Lemma clip_within (l u v : Q) :
  (l <= u)%Q ->
  let x1 := if Float.ltb (F v) (F l) then F l else F v in
  within (F l) (F u) (if Float.gtb x1 (F u) then F u else x1).
Proof.
  intros Hlu. cbv zeta. unfold Float.gtb, Float.ltb, Float.Qltb.
  destruct (Qle_bool l v) eqn:E1; simpl.
  - apply Qle_bool_iff in E1.
    destruct (Qle_bool v u) eqn:E2; simpl.
    + apply Qle_bool_iff in E2. lra.
    + lra.
  - destruct (Qle_bool l u) eqn:E2; simpl; [lra |].
    apply Qle_bool_iff in Hlu. congruence.
Qed.

Lemma clip_nan (lb ub : float64) :
  let x1 := if Float.ltb NaN lb then lb else NaN in
  (if Float.gtb x1 ub then ub else x1) = NaN.
Proof. now destruct lb, ub. Qed.

Lemma handle_outliers_clip_run
    (s : state) (df : loc) (col : string) (f : DataFrame) (xs : list float64) :
  heap s !! df = Some f ->
  Frame.getitem f col = Some (NumCol xs) ->
  let q1 := Series.quantile xs (1 # 4) in
  let q3 := Series.quantile xs (3 # 4) in
  let lb := Float.sub q1 (Float.mul (F (3 # 2)) (Float.sub q3 q1)) in
  let ub := Float.add q3 (Float.mul (F (3 # 2)) (Float.sub q3 q1)) in
  let xs1 := map (fun x => if Float.ltb x lb then lb else x) xs in
  let ys := map (fun x => if Float.gtb x ub then ub else x) xs1 in
  let l := fresh (dom (heap s)) in
  handle_outliers df col "IQR" s
  = (inr l,
     mkState (<[l := Frame.setitem (Frame.setitem f col (NumCol xs1)) col
                       (NumCol ys)]> (heap s))
       (Executed "handle_outliers" :: log s)).
Proof.
  intros Hdf Hc. cbv zeta.
  unfold handle_outliers, log_decorator, copy, mbind, M_bind.
  rewrite (load_run _ _ _ Hdf). unfold alloc.
  set (l := fresh (dom (heap s))).
  erewrite getitem_run by (cbn [heap]; apply lookup_insert_eq). rewrite Hc.
  cbn [String.eqb Ascii.eqb Bool.eqb].
  rewrite !np_where_map.
  erewrite setitem_run by (cbn [heap]; apply lookup_insert_eq).
  erewrite setitem_run by (cbn [heap]; apply lookup_insert_eq).
  cbn [heap log mret M_ret]. now rewrite !insert_insert_eq.
Qed.

(** C5 (as amended): on a numeric column without an infinite entry the
    default policy returns a frame whose column has one entry for each
    entry of the input: a null stays null, and every other entry lies
    between the bounds computed from the quartiles of the input
    column. *)
Theorem handle_outliers_clips
    (s : state) (df : loc) (col : string) (f : DataFrame) (xs : list float64) :
  heap s !! df = Some f ->
  Frame.getitem f col = Some (NumCol xs) ->
  finite xs ->
  let q1 := Series.quantile xs (1 # 4) in
  let q3 := Series.quantile xs (3 # 4) in
  let iqr := Float.sub q3 q1 in
  let lb := Float.sub q1 (Float.mul (F (3 # 2)) iqr) in
  let ub := Float.add q3 (Float.mul (F (3 # 2)) iqr) in
  exists (df' : loc) (s' : state) (f' : DataFrame) (ys : list float64),
    handle_outliers df col "IQR" s = (inr df', s') /\
    heap s' !! df' = Some f' /\
    Frame.getitem f' col = Some (NumCol ys) /\
    Forall2 (fun x y => if Float.isnan x then y = NaN else within lb ub y)
      xs ys.
Proof.
  intros Hdf Hc Hfin. cbv zeta.
  rewrite (handle_outliers_clip_run _ _ _ _ _ Hdf Hc). cbv zeta.
  eexists _, _, _, _. split; [reflexivity |].
  split; [cbn [heap]; apply lookup_insert_eq |].
  split; [apply getitem_setitem_eq |].
  set (q1 := Series.quantile xs (1 # 4)). set (q3 := Series.quantile xs (3 # 4)).
  rewrite map_map. apply Forall2_fmap_r, Forall_Forall2_diag.
  apply List.Forall_forall. intros x Hin.
  pose proof Hfin as Hx. unfold finite in Hx. rewrite List.Forall_forall in Hx.
  specialize (Hx x Hin).
  destruct x as [v | sg |]; [| discriminate Hx | apply clip_nan].
  cbn [Float.isnan].
  destruct (quantile_finite xs (1 # 4) v Hfin ltac:(split; lra) Hin) as [a Ha].
  destruct (quantile_finite xs (3 # 4) v Hfin ltac:(split; lra) Hin) as [b Hb].
  pose proof (quantile_quartiles xs a b Ha Hb) as Hab.
  subst q1 q3. rewrite Ha, Hb.
  unfold Float.sub, Float.add, Float.mul, fl.
  apply clip_within. rewrite !Qred_correct. lra.
Qed.

Lemma handle_outliers_clips_witness :
  let xs := [F 1; F 2; F 3; F 100] in
  let f := single_column "x" (NumCol xs) in
  let q1 := Series.quantile xs (1 # 4) in
  let q3 := Series.quantile xs (3 # 4) in
  let iqr := Float.sub q3 q1 in
  let lb := Float.sub q1 (Float.mul (F (3 # 2)) iqr) in
  let ub := Float.add q3 (Float.mul (F (3 # 2)) iqr) in
  heap (initial f) !! 1%positive = Some f /\
  Frame.getitem f "x" = Some (NumCol xs) /\
  finite xs /\
  exists (df' : loc) (s' : state) (f' : DataFrame) (ys : list float64),
    handle_outliers 1%positive "x" "IQR" (initial f) = (inr df', s') /\
    heap s' !! df' = Some f' /\
    Frame.getitem f' "x" = Some (NumCol ys) /\
    Forall2 (fun x y => if Float.isnan x then y = NaN else within lb ub y)
      xs ys.
Proof.
  intros xs f. split; [reflexivity |]. split; [reflexivity |].
  split; [repeat constructor |].
  apply (handle_outliers_clips (initial f) 1%positive "x" f xs);
    [reflexivity | reflexivity | repeat constructor].
Defined.

(** C5, as stated, fails on a column with a null entry: the entry stays
    null, and a null lies within no bounds.  It fails as well on a column
    with infinite entries: on [1, 2, 3, inf, inf] the upper quartile is
    [inf - inf], the bounds are NaN, nothing is clipped, and no entry
    lies within the bounds. *)
Lemma handle_outliers_null_or_infinite_entry :
  (let xs := [F 1; F 2; NaN] in
   let f := single_column "x" (NumCol xs) in
   let q1 := Series.quantile xs (1 # 4) in
   let q3 := Series.quantile xs (3 # 4) in
   let iqr := Float.sub q3 q1 in
   let lb := Float.sub q1 (Float.mul (F (3 # 2)) iqr) in
   let ub := Float.add q3 (Float.mul (F (3 # 2)) iqr) in
   exists (df' : loc) (s' : state) (f' : DataFrame),
     handle_outliers 1%positive "x" "IQR" (initial f) = (inr df', s') /\
     heap s' !! df' = Some f' /\
     Frame.getitem f' "x" = Some (NumCol [F 1; F 2; NaN]) /\
     ~ Forall (within lb ub) [F 1; F 2; NaN]) /\
  (let xs := [F 1; F 2; F 3; Inf false; Inf false] in
   let f := single_column "x" (NumCol xs) in
   let q1 := Series.quantile xs (1 # 4) in
   let q3 := Series.quantile xs (3 # 4) in
   let iqr := Float.sub q3 q1 in
   let lb := Float.sub q1 (Float.mul (F (3 # 2)) iqr) in
   let ub := Float.add q3 (Float.mul (F (3 # 2)) iqr) in
   q1 = F 2 /\ q3 = NaN /\ lb = NaN /\ ub = NaN /\
   exists (df' : loc) (s' : state) (f' : DataFrame),
     handle_outliers 1%positive "x" "IQR" (initial f) = (inr df', s') /\
     heap s' !! df' = Some f' /\
     Frame.getitem f' "x" = Some (NumCol xs) /\
     Forall (fun y => ~ within lb ub y) xs).
Proof.
  split.
  - cbv zeta. eexists _, _, _. split; [vm_compute; reflexivity |].
    split; [reflexivity |]. split; [reflexivity |].
    intros H. rewrite !Forall_cons in H. destruct H as (_ & _ & H & _). exact H.
  - cbv zeta. repeat (split; [reflexivity |]).
    eexists _, _, _. split; [vm_compute; reflexivity |].
    split; [reflexivity |]. split; [reflexivity |].
    repeat constructor; intros H; exact H.
Qed.

(** ** Outliers: the worked example and the median policy *)

(** C4 (as amended): on the column [1, 2, 3, 100] the quartiles are
    Q1 = 1.75 and Q3 = 27.25 (linear interpolation), the bounds are -36.5
    and 65.5, and the default policy returns a new frame in which 100 is
    clipped to 65.5; the input keeps its values. *)
Theorem handle_outliers_example :
  let xs := [F 1; F 2; F 3; F 100] in
  let f := single_column "x" (NumCol xs) in
  let q1 := Series.quantile xs (1 # 4) in
  let q3 := Series.quantile xs (3 # 4) in
  let iqr := Float.sub q3 q1 in
  q1 = F (7 # 4) /\ q3 = F (109 # 4) /\ iqr = F (51 # 2) /\
  Float.sub q1 (Float.mul (F (3 # 2)) iqr) = F (-73 # 2) /\
  Float.add q3 (Float.mul (F (3 # 2)) iqr) = F (131 # 2) /\
  exists (df' : loc) (s' : state),
    handle_outliers 1%positive "x" "IQR" (initial f) = (inr df', s') /\
    heap s' !! df'
    = Some (single_column "x" (NumCol [F 1; F 2; F 3; F (131 # 2)])) /\
    heap s' !! 1%positive = Some f.
Proof.
  cbv zeta. repeat (split; [reflexivity |]).
  eexists _, _. split; [vm_compute; reflexivity |].
  split; reflexivity.
Qed.

(** C4, as stated, fails: the third quartile is not 51.5, the upper
    bound is below 100, and the frame returned differs from the input. *)
Lemma handle_outliers_example_differs :
  let xs := [F 1; F 2; F 3; F 100] in
  let f := single_column "x" (NumCol xs) in
  Series.quantile xs (3 # 4) <> F (103 # 2) /\
  ~ exists (df' : loc) (s' : state),
      handle_outliers 1%positive "x" "IQR" (initial f) = (inr df', s') /\
      heap s' !! df' = Some f.
Proof.
  cbv zeta. split; [vm_compute; discriminate |].
  intros (df' & s' & E & H).
  vm_compute in E. injection E as <- <-.
  vm_compute in H. discriminate H.
Qed.

(** C1: with the median policy an entry above the upper bound is
    replaced by the bound method [Series.median] itself, not by the
    median of the column (3 in this example), and the column becomes an
    object column; an entry below the lower bound makes the second
    comparison fail with [TypeError]. *)
Theorem handle_outliers_median_policy :
  let xs := [F 1; F 2; F 3; F 4; F 100] in
  let f := single_column "x" (NumCol xs) in
  let g := single_column "x" (NumCol [F (-100); F 1; F 2; F 3; F 4]) in
  Series.median xs = F 3 /\
  (exists (df' : loc) (s' : state),
     handle_outliers 1%positive "x" "median" (initial f) = (inr df', s') /\
     heap s' !! df'
     = Some (single_column "x"
               (ObjCol [PyFloat (F 1); PyFloat (F 2); PyFloat (F 3);
                        PyFloat (F 4); PyMethod "median"]))) /\
  fst (handle_outliers 1%positive "x" "median" (initial g)) = inl TypeError.
Proof.
  cbv zeta. split; [reflexivity |]. split; [| reflexivity].
  eexists _, _. split; [vm_compute; reflexivity | reflexivity].
Qed.

(** ** Selecting rows *)

Lemma filter_mask_length {A : Type} (mask : list bool) (xs : list A) :
  length mask = length xs -> length (filter_mask mask xs) = kept mask.
Proof.
  revert xs. induction mask as [| b mask IH]; intros [| x xs] H; try discriminate.
  - reflexivity.
  - injection H as H. destruct b; cbn; [f_equal |]; now apply IH.
Qed.

Lemma filter_mask_map {A B : Type} (g : A -> B) (mask : list bool) (xs : list A) :
  filter_mask mask (map g xs) = map g (filter_mask mask xs).
Proof.
  revert xs. induction mask as [| b mask IH]; intros [| x xs]; try reflexivity.
  cbn. destruct b; cbn; now rewrite IH.
Qed.

Lemma filter_mask_all {A : Type} (mask : list bool) (xs : list A) :
  length mask = length xs -> Forall (fun b => b = true) mask ->
  filter_mask mask xs = xs.
Proof.
  revert xs. induction mask as [| b mask IH]; intros [| x xs] H Hm; try discriminate.
  - reflexivity.
  - injection H as H. inversion Hm as [| ? ? -> Hm']; subst. cbn. f_equal. now apply IH.
Qed.

Lemma cells_length (c : column) : length (Frame.cells c) = Column.len c.
Proof. destruct c; apply length_map. Qed.

Lemma cells_select (mask : list bool) (c : column) :
  Frame.cells (Column.select mask c) = filter_mask mask (Frame.cells c).
Proof. destruct c; cbn; now rewrite filter_mask_map. Qed.

Lemma select_length (mask : list bool) (c : column) :
  length mask = Column.len c -> Column.len (Column.select mask c) = kept mask.
Proof. destruct c; cbn; apply filter_mask_length. Qed.

Lemma select_all (mask : list bool) (c : column) :
  length mask = Column.len c -> Forall (fun b => b = true) mask ->
  Column.select mask c = c.
Proof. destruct c; cbn; intros H Hm; f_equal; now apply filter_mask_all. Qed.

Lemma transpose_length (n : nat) (cols : list (list Frame.cell)) :
  length (Frame.transpose n cols) = n.
Proof. revert cols. induction n as [| n IH]; intros cols; cbn; [| rewrite IH]; reflexivity. Qed.

Lemma transpose_S (n : nat) (cols : list (list Frame.cell)) :
  Frame.transpose (S n) cols
  = omap head cols :: Frame.transpose n (map tail cols).
Proof. reflexivity. Qed.

(** Selecting entries in every column selects rows. *)
Lemma transpose_filter_mask (mask : list bool) (cols : list (list Frame.cell)) :
  Forall (fun c => length c = length mask) cols ->
  Frame.transpose (kept mask) (map (filter_mask mask) cols)
  = filter_mask mask (Frame.transpose (length mask) cols).
Proof.
  revert cols. induction mask as [| b mask IH]; intros cols Hc; [reflexivity |].
  assert (Htl : Forall (fun c => length c = length mask) (map tail cols)).
  { apply Forall_fmap. eapply Forall_impl; [exact Hc |].
    intros [| x c] H; [discriminate | now injection H]. }
  assert (Hhd : forall k : list Frame.cell -> list Frame.cell,
             (forall x c, k (x :: c) = x :: filter_mask mask c) ->
             omap head (map k cols) = omap head cols /\
             map tail (map k cols) = map (filter_mask mask) (map tail cols)).
  { intros k Hk. clear IH Htl. induction Hc as [| c cols Hl Hc IH]; [now split |].
    destruct c as [| x c]; [discriminate |]. destruct IH as [IH1 IH2].
    cbn. rewrite Hk. cbn. now rewrite IH1, IH2. }
  change (length (b :: mask)) with (S (length mask)). rewrite !transpose_S.
  destruct b.
  - destruct (Hhd (filter_mask (true :: mask))) as [H1 H2]; [reflexivity |].
    change (kept (true :: mask)) with (S (kept mask)).
    rewrite transpose_S, H1, H2.
    change (filter_mask (true :: mask) (?x :: ?l)) with (x :: filter_mask mask l).
    f_equal. now apply IH.
  - change (kept (false :: mask)) with (kept mask).
    change (filter_mask (false :: mask) (?x :: ?l)) with (filter_mask mask l).
    rewrite <- IH by exact Htl. f_equal.
    clear IH Htl Hhd. induction Hc as [| c cols Hl Hc IH]; [reflexivity |].
    destruct c as [| x c]; [discriminate |]. cbn [map tail]. rewrite IH. reflexivity.
Qed.

Lemma rows_select_rows (mask : list bool) (f : DataFrame) :
  Frame.wf f -> length mask = length (index f) ->
  Frame.rows (Frame.select_rows mask f) = filter_mask mask (Frame.rows f).
Proof.
  intros [_ Hwf] Hm. unfold Frame.rows, Frame.select_rows. cbn [index columns].
  rewrite filter_mask_length by exact Hm. rewrite <- Hm.
  rewrite <- transpose_filter_mask.
  - f_equal. rewrite !map_map. apply map_ext. intros [name c]. apply cells_select.
  - apply Forall_fmap. eapply Forall_impl; [exact Hwf |].
    intros [name c] H. cbn in *. rewrite cells_length. congruence.
Qed.

Lemma rows_length (f : DataFrame) : length (Frame.rows f) = length (index f).
Proof. apply transpose_length. Qed.

Lemma select_rows_wf (mask : list bool) (f : DataFrame) :
  Frame.wf f -> length mask = length (index f) ->
  Frame.wf (Frame.select_rows mask f).
Proof.
  intros [Hnd Hlen] Hm. split; cbn [Frame.select_rows index columns].
  - rewrite map_map. cbn. exact Hnd.
  - rewrite filter_mask_length by exact Hm.
    apply Forall_fmap. eapply Forall_impl; [exact Hlen |].
    intros [name c] H. cbn in *. apply select_length. congruence.
Qed.

Lemma select_rows_all (mask : list bool) (f : DataFrame) :
  Frame.wf f -> length mask = length (index f) ->
  Forall (fun b => b = true) mask ->
  Frame.select_rows mask f = f.
Proof.
  intros [_ Hlen] Hm Hall. destruct f as [idx cols]. unfold Frame.select_rows.
  cbn [index columns] in *. f_equal; [now apply filter_mask_all |].
  induction Hlen as [| [name c] cols H Hlen IH]; [reflexivity |].
  cbn in *. rewrite IH. do 2 f_equal. apply select_all; [congruence | exact Hall].
Qed.

(** ** Duplicate rows *)

Lemma duplicated_from_length (seen rs : list (list Frame.cell)) :
  length (Frame.duplicated_from seen rs) = length rs.
Proof.
  revert seen. induction rs as [| r rs IH]; intros seen; cbn; [| rewrite IH]; reflexivity.
Qed.







Lemma drop_duplicate_run (s : state) (df : loc) (f : DataFrame) :
  heap s !! df = Some f ->
  drop_duplicate df s
  = (inr df, mkState (<[df := Frame.drop_duplicates f]> (heap s))
               (Executed "drop_duplicate" :: log s)).
Proof.
  intros Hdf. unfold drop_duplicate, log_decorator, mbind, M_bind.
  rewrite (load_run _ _ _ Hdf). erewrite store_run by exact Hdf. reflexivity.
Qed.



(** ** Exceptions *)

Lemma raises_only_ret {A : Type} (P : exn -> Prop) (x : A) : raises_only P (mret x).
Proof. intros s e s' H. discriminate. Qed.

Lemma raises_only_raise {A : Type} (P : exn -> Prop) (e : exn) :
  P e -> raises_only P (@raise A e).
Proof. intros HP s e' s' H. now injection H as <- <-. Qed.

Lemma raises_only_bind {A B : Type} (P : exn -> Prop) (m : M A) (k : A -> M B) :
  raises_only P m -> (forall x, raises_only P (k x)) -> raises_only P (m ≫= k).
Proof.
  intros Hm Hk s e s' H. unfold mbind, M_bind in H.
  destruct (m s) as [[e0 | x] s1] eqn:E.
  - injection H as <- <-. exact (Hm _ _ _ E).
  - exact (Hk _ _ _ _ H).
Qed.

Lemma raises_only_load (df : loc) : raises_only not_ValueError (load df).
Proof.
  intros s e s' H. unfold load in H.
  destruct (heap s !! df); [discriminate |]. now injection H as <- <-.
Qed.

Lemma raises_only_getitem (df : loc) (col : string) :
  raises_only not_ValueError (getitem df col).
Proof.
  apply raises_only_bind; [apply raises_only_load |].
  intros f. destruct (Frame.getitem f col);
    [apply raises_only_ret | now apply raises_only_raise].
Qed.

Lemma raises_only_setitem (df : loc) (col : string) (c : column) :
  raises_only not_ValueError (setitem df col c).
Proof.
  apply raises_only_bind; [apply raises_only_load |].
  intros f s e s' H. unfold store in H.
  destruct (heap s !! df); [discriminate |]. now injection H as <- <-.
Qed.

Lemma raises_only_fillna_mode (c : column) :
  raises_only not_ValueError (lift (fillna_mode c)).
Proof.
  intros s e s' H. unfold lift in H. injection H as H <-.
  destruct c as [xs | os | ts]; cbn in H.
  - destruct (Series.mode xs); cbn in H; [now injection H as <- | discriminate].
  - destruct (Obj.mode os); cbn in H; [now injection H as <- | discriminate].
  - destruct (Column.time_mode ts); cbn in H; [now injection H as <- | discriminate].
Qed.

Lemma raises_only_fillna_stat (stat : list float64 -> float64) (c : column) :
  raises_only not_ValueError (lift (fillna_stat stat c)).
Proof.
  intros s e s' H. unfold lift in H. injection H as H <-.
  destruct c; cbn in H; [discriminate | |]; now injection H as <-.
Qed.

Lemma raises_only_for_each {A : Type} (P : exn -> Prop) (xs : list A)
    (body : A -> M unit) :
  (forall x, raises_only P (body x)) -> raises_only P (for_each xs body).
Proof.
  intros Hb. induction xs as [| x xs IH]; cbn [for_each].
  - apply raises_only_ret.
  - apply raises_only_bind; [apply Hb | intros _; exact IH].
Qed.

Lemma raises_only_log_decorator {A : Type} (P : exn -> Prop) (name : string)
    (m : M A) :
  raises_only P m -> raises_only P (log_decorator name m).
Proof.
  intros Hm s e s' H. unfold log_decorator in H.
  destruct (m s) as [[e0 | x] s1] eqn:E; [| discriminate].
  injection H as <- <-. exact (Hm _ _ _ E).
Qed.

Create HintDb exceptions.
#[export] Hint Resolve raises_only_ret raises_only_load raises_only_getitem
  raises_only_setitem raises_only_fillna_mode raises_only_fillna_stat
  raises_only_log_decorator : exceptions.
#[export] Hint Extern 2 (raises_only _ (_ ≫= _)) =>
  apply raises_only_bind; [| intros ?] : exceptions.
#[export] Hint Extern 2 (raises_only _ (for_each _ _)) =>
  apply raises_only_for_each; intros ? : exceptions.
#[export] Hint Extern 2 (raises_only _ (raise _)) =>
  apply raises_only_raise; exact I : exceptions.

Lemma eqb_false (a b : string) : a <> b -> String.eqb a b = false.
Proof. apply String.eqb_neq. Qed.

(** ** Unknown policies *)

Lemma fill_missing_values_categorical_known
    (df : loc) (method : string) :
  method = "ffill"%string \/ method = "bfill"%string \/ method = "mode"%string ->
  raises_only not_ValueError (fill_missing_values_categorical df method).
Proof.
  intros [-> | [-> | ->]]; unfold fill_missing_values_categorical;
    cbn [String.eqb Ascii.eqb Bool.eqb]; auto 10 with exceptions.
Qed.

Lemma fill_missing_values_numeric_known
    (df : loc) (method : string) (columns : option (list string)) :
  method = "mean"%string \/ method = "median"%string ->
  raises_only not_ValueError (fill_missing_values_numeric df method columns).
Proof.
  intros [-> | ->]; unfold fill_missing_values_numeric, get_numerical_columns;
    cbn [String.eqb Ascii.eqb Bool.eqb]; destruct columns;
    auto 10 with exceptions.
Qed.

Lemma fill_missing_values_categorical_unknown
    (s : state) (df : loc) (method : string) (f : DataFrame) :
  heap s !! df = Some f ->
  method <> "ffill"%string -> method <> "bfill"%string -> method <> "mode"%string ->
  fill_missing_values_categorical df method s
  = (inl (ValueError "Method unknown"),
     mkState (heap s)
       (Failed "fill_missing_values_categorical" (ValueError "Method unknown")
        :: Message "Method unknown" :: log s)).
Proof.
  intros Hdf H1 H2 H3.
  unfold fill_missing_values_categorical, log_decorator, mbind, M_bind.
  rewrite (load_run _ _ _ Hdf).
  now rewrite (eqb_false _ _ H1), (eqb_false _ _ H2), (eqb_false _ _ H3).
Qed.

Lemma fill_missing_values_numeric_unknown
    (s : state) (df : loc) (method : string) (columns : option (list string))
    (f : DataFrame) :
  heap s !! df = Some f ->
  method <> "mean"%string -> method <> "median"%string ->
  exists lg : list log_record,
    fill_missing_values_numeric df method columns s
    = (inl (ValueError "Method unknown"), mkState (heap s) lg).
Proof.
  intros Hdf H1 H2.
  unfold fill_missing_values_numeric, get_numerical_columns, log_decorator,
    mbind, M_bind.
  rewrite (eqb_false _ _ H1), (eqb_false _ _ H2).
  destruct columns; [| rewrite (load_run _ _ _ Hdf)]; eexists; reflexivity.
Qed.

(** C8: on a frame of the store, [fill_missing_values_categorical] raises
    [ValueError("Method unknown")] exactly when the policy is none of
    ffill, bfill and mode, and [fill_missing_values_numeric] exactly when
    it is none of mean and median; the error is raised before any frame
    is touched. *)
Theorem unknown_policy_error (s : state) (df : loc) (f : DataFrame) :
  heap s !! df = Some f ->
  (forall method : string,
     (fst (fill_missing_values_categorical df method s)
        = inl (ValueError "Method unknown")
      <-> method <> "ffill"%string /\ method <> "bfill"%string
          /\ method <> "mode"%string) /\
     (fst (fill_missing_values_categorical df method s)
        = inl (ValueError "Method unknown") ->
      heap (snd (fill_missing_values_categorical df method s)) = heap s)) /\
  (forall (method : string) (columns : option (list string)),
     (fst (fill_missing_values_numeric df method columns s)
        = inl (ValueError "Method unknown")
      <-> method <> "mean"%string /\ method <> "median"%string) /\
     (fst (fill_missing_values_numeric df method columns s)
        = inl (ValueError "Method unknown") ->
      heap (snd (fill_missing_values_numeric df method columns s)) = heap s)).
Proof.
  intros Hdf. split.
  - intros method.
    assert (Hiff : fst (fill_missing_values_categorical df method s)
                     = inl (ValueError "Method unknown")
                   <-> method <> "ffill"%string /\ method <> "bfill"%string
                       /\ method <> "mode"%string).
    { split.
      - intros H.
        destruct (fill_missing_values_categorical df method s) as [r s'] eqn:E.
        cbn in H. subst r.
        repeat split; intros ->;
          refine (fill_missing_values_categorical_known df _ _ _ _ _ E); auto.
      - intros (H1 & H2 & H3).
        now rewrite (fill_missing_values_categorical_unknown _ _ _ _ Hdf H1 H2 H3). }
    split; [exact Hiff |]. intros H. apply Hiff in H as (H1 & H2 & H3).
    now rewrite (fill_missing_values_categorical_unknown _ _ _ _ Hdf H1 H2 H3).
  - intros method columns.
    assert (Hiff : fst (fill_missing_values_numeric df method columns s)
                     = inl (ValueError "Method unknown")
                   <-> method <> "mean"%string /\ method <> "median"%string).
    { split.
      - intros H.
        destruct (fill_missing_values_numeric df method columns s) as [r s'] eqn:E.
        cbn in H. subst r.
        split; intros ->;
          refine (fill_missing_values_numeric_known df _ columns _ _ _ _ E); auto.
      - intros (H1 & H2).
        destruct (fill_missing_values_numeric_unknown _ _ _ columns _ Hdf H1 H2)
          as [lg ->]. reflexivity. }
    split; [exact Hiff |]. intros H. apply Hiff in H as (H1 & H2).
    destruct (fill_missing_values_numeric_unknown _ _ _ columns _ Hdf H1 H2)
      as [lg ->]. reflexivity.
Qed.

Lemma unknown_policy_error_witness :
  let f := single_column "x" (NumCol [F 1; NaN]) in
  heap (initial f) !! 1%positive = Some f /\
  fst (fill_missing_values_categorical 1%positive "linear" (initial f))
  = inl (ValueError "Method unknown").
Proof.
  intros f. split; [reflexivity |].
  apply (proj1 (unknown_policy_error (initial f) 1%positive f eq_refl)).
  repeat split; discriminate.
Defined.

(** ** Selecting columns by type *)

Lemma select_dtypes_present (include : list dtype) (f : DataFrame) (col : string) :
  In col (Frame.select_dtypes include f) -> is_Some (Frame.getitem f col).
Proof.
  unfold Frame.select_dtypes, Frame.getitem.
  induction (columns f) as [| [name c] cols IH]; cbn; [intros [] |].
  destruct (String.eqb name col) eqn:E; [eauto |].
  destruct (bool_decide (Column.dtype_of c ∈ include)); cbn; [| exact IH].
  intros [-> | H]; [| now apply IH]. now rewrite String.eqb_refl in E.
Qed.

Lemma select_dtypes_complete (include : list dtype) (f : DataFrame)
    (col : string) (c : column) :
  Frame.getitem f col = Some c -> Column.dtype_of c ∈ include ->
  In col (Frame.select_dtypes include f).
Proof.
  unfold Frame.select_dtypes, Frame.getitem. intros H Hc.
  induction (columns f) as [| [name c0] cols IH]; cbn in *; [discriminate |].
  destruct (String.eqb name col) eqn:E.
  - injection H as ->. apply String.eqb_eq in E. subst name.
    rewrite bool_decide_eq_true_2 by exact Hc. now left.
  - destruct (bool_decide (Column.dtype_of c0 ∈ include)); cbn; auto.
Qed.

Lemma getitem_setitem_present (f : DataFrame) (col col' : string) (c : column) :
  is_Some (Frame.getitem f col') ->
  is_Some (Frame.getitem (Frame.setitem f col c) col').
Proof.
  intros H. destruct (decide (col = col')) as [-> | Hne].
  - rewrite getitem_setitem_eq. eauto.
  - now rewrite getitem_setitem_ne.
Qed.

(** ** Filling with the mode *)

Lemma dropna_all_null {A : Type} (isnull : A -> bool) (xs : list A) :
  count_null isnull xs = length xs -> dropna isnull xs = [].
Proof.
  unfold count_null, dropna. induction xs as [| x xs IH]; cbn; [reflexivity |].
  destruct (isnull x); cbn; intros H.
  - apply IH. congruence.
  - pose proof (count_null_le isnull xs) as Hle. unfold count_null in Hle. lia.
Qed.

Lemma fillna_mode_all_null (c : column) :
  Column.count_missing c = Column.len c -> fillna_mode c = inl (KeyError "0").
Proof.
  destruct c as [xs | os | ts]; cbn; intros H.
  - unfold Series.mode, Series.values. now rewrite (dropna_all_null _ _ H).
  - unfold Obj.mode. now rewrite (dropna_all_null _ _ H).
  - unfold Column.time_mode. now rewrite (dropna_all_null _ _ H).
Qed.

Lemma fillna_mode_error (c : column) (e : exn) :
  fillna_mode c = inl e -> e = KeyError "0".
Proof.
  destruct c as [xs | os | ts]; cbn.
  - destruct (Series.mode xs); cbn; congruence.
  - destruct (Obj.mode os); cbn; congruence.
  - destruct (Column.time_mode ts); cbn; congruence.
Qed.

Lemma fill_mode_loop_raises (df : loc) (col : string) (c : column)
    (names : list string) :
  fillna_mode c = inl (KeyError "0") ->
  forall (s : state) (g : DataFrame),
    heap s !! df = Some g ->
    Frame.getitem g col = Some c ->
    (forall n, In n names -> is_Some (Frame.getitem g n)) ->
    In col names ->
    exists s' : state,
      for_each names (fun col =>
        c ← getitem df col;
        c' ← lift (fillna_mode c);
        setitem df col c') s
      = (inl (KeyError "0"), s').
Proof.
  intros Hc. induction names as [| n names IH]; intros s g Hdf Hg Hall Hin;
    [destruct Hin |].
  cbn [for_each]. unfold mbind, M_bind.
  rewrite (getitem_run _ _ _ _ Hdf).
  destruct (Hall n (or_introl eq_refl)) as [c0 Hc0]. rewrite Hc0.
  unfold lift at 1. destruct (fillna_mode c0) as [e | c1] eqn:E.
  - apply fillna_mode_error in E. subst e. eauto.
  - assert (Hne : n <> col).
    { intros ->. rewrite Hg in Hc0. injection Hc0 as <-. congruence. }
    rewrite (setitem_run _ _ _ _ _ Hdf).
    apply (IH _ (Frame.setitem g n c1)).
    + cbn [heap]. apply lookup_insert_eq.
    + now rewrite getitem_setitem_ne.
    + intros n' Hn'. apply getitem_setitem_present. apply Hall. now right.
    + destruct Hin as [-> | Hin]; [contradiction | exact Hin].
Qed.

(** C10: when a text or date/time column of the frame holds nothing but
    nulls, [fill_missing_values_categorical] with the valid policy mode
    raises [KeyError(0)], from indexing the empty result of [mode()],
    instead of returning. *)
Theorem fill_missing_values_categorical_mode_all_null
    (s : state) (df : loc) (f : DataFrame) (col : string) (c : column) :
  heap s !! df = Some f ->
  Frame.getitem f col = Some c ->
  Column.dtype_of c <> number ->
  Column.count_missing c = Column.len c ->
  fst (fill_missing_values_categorical df "mode" s) = inl (KeyError "0").
Proof.
  intros Hdf Hc Hty Hnull.
  unfold fill_missing_values_categorical, log_decorator.
  unfold mbind at 1, M_bind at 1. rewrite (load_run _ _ _ Hdf).
  cbn [String.eqb Ascii.eqb Bool.eqb].
  unfold mbind at 1, M_bind at 1.
  destruct (fill_mode_loop_raises df col c
              (Frame.select_dtypes [object; datetime64] f)
              (fillna_mode_all_null c Hnull) s f Hdf Hc) as [s' ->].
  - intros n. apply select_dtypes_present.
  - apply (select_dtypes_complete _ _ _ c Hc).
    destruct c; [contradiction | set_solver | set_solver].
  - reflexivity.
Qed.

Lemma fill_missing_values_categorical_mode_all_null_witness :
  let f := mkFrame [0; 1]
             [("n"%string, NumCol [F 1; F 2]);
              ("s"%string, ObjCol [PyNone; PyFloat NaN])] in
  heap (initial f) !! 1%positive = Some f /\
  Frame.getitem f "s" = Some (ObjCol [PyNone; PyFloat NaN]) /\
  Column.dtype_of (ObjCol [PyNone; PyFloat NaN]) <> number /\
  Column.count_missing (ObjCol [PyNone; PyFloat NaN])
  = Column.len (ObjCol [PyNone; PyFloat NaN]) /\
  fst (fill_missing_values_categorical 1%positive "mode" (initial f))
  = inl (KeyError "0").
Proof.
  intros f. split; [reflexivity |]. split; [reflexivity |].
  split; [discriminate |]. split; [reflexivity |].
  apply (fill_missing_values_categorical_mode_all_null
           (initial f) 1%positive f "s" (ObjCol [PyNone; PyFloat NaN]));
    [reflexivity | reflexivity | discriminate | reflexivity].
Defined.

(** ** Filling numeric columns *)

Lemma filter_names_incl (p : string * column -> bool) (cols : list (string * column))
    (n : string) :
  In n (map fst (List.filter p cols)) -> In n (map fst cols).
Proof.
  induction cols as [| [name c] cols IH]; cbn; [auto |].
  destruct (p (name, c)); cbn; tauto.
Qed.

Lemma select_dtypes_NoDup (include : list dtype) (f : DataFrame) :
  NoDup (map fst (columns f)) -> NoDup (Frame.select_dtypes include f).
Proof.
  unfold Frame.select_dtypes. induction (columns f) as [| [name c] cols IH]; cbn;
    [constructor |].
  intros H. apply NoDup_cons in H as [Hnotin Hnd].
  destruct (bool_decide (Column.dtype_of c ∈ include)); cbn; [| now apply IH].
  apply NoDup_cons. split; [| now apply IH].
  intros Hin. apply Hnotin. apply list_elem_of_In.
  apply list_elem_of_In in Hin. now apply filter_names_incl in Hin.
Qed.

Lemma select_dtypes_lookup (include : list dtype) (f : DataFrame) (n : string) :
  NoDup (map fst (columns f)) ->
  In n (Frame.select_dtypes include f) ->
  exists c : column, Frame.getitem f n = Some c /\ Column.dtype_of c ∈ include.
Proof.
  unfold Frame.select_dtypes, Frame.getitem.
  induction (columns f) as [| [name c] cols IH]; cbn; [intros _ [] |].
  intros H Hin. apply NoDup_cons in H as [Hnotin Hnd].
  destruct (String.eqb name n) eqn:E.
  - apply String.eqb_eq in E. subst n. exists c. split; [reflexivity |].
    destruct (bool_decide (Column.dtype_of c ∈ include)) eqn:Ec.
    + now apply bool_decide_eq_true in Ec.
    + exfalso. apply Hnotin. apply list_elem_of_In.
      now apply filter_names_incl in Hin.
  - apply IH; [exact Hnd |].
    destruct (bool_decide (Column.dtype_of c ∈ include)); [| exact Hin].
    cbn in Hin. destruct Hin as [-> | Hin]; [| exact Hin].
    now rewrite String.eqb_refl in E.
Qed.

Lemma fill_stat_loop (df : loc) (stat : list float64 -> float64) (f : DataFrame)
    (names : list string) :
  NoDup names ->
  (forall n, In n names -> exists xs, Frame.getitem f n = Some (NumCol xs)) ->
  forall (s : state) (g : DataFrame),
    heap s !! df = Some g ->
    (forall col, In col names -> Frame.getitem g col = Frame.getitem f col) ->
    (forall col, ~ In col names ->
       Frame.getitem g col = fill_column stat <$> Frame.getitem f col) ->
    exists (s' : state) (g' : DataFrame),
      for_each names (fun col =>
        c ← getitem df col;
        c' ← lift (fillna_stat stat c);
        setitem df col c') s
      = (inr tt, s') /\
      heap s' !! df = Some g' /\
      forall col, Frame.getitem g' col = fill_column stat <$> Frame.getitem f col.
Proof.
  intros Hnd Hnum. induction names as [| n names IH]; intros s g Hdf Hin Hout.
  - exists s, g. split; [reflexivity |]. split; [exact Hdf |].
    intros col. apply Hout. intros [].
  - apply NoDup_cons in Hnd as [Hn Hnd'].
    rewrite list_elem_of_In in Hn.
    cbn [for_each]. unfold mbind, M_bind.
    rewrite (getitem_run _ _ _ _ Hdf).
    destruct (Hnum n (or_introl eq_refl)) as [xs Hxs].
    rewrite (Hin n (or_introl eq_refl)), Hxs.
    unfold lift at 1. cbn [fillna_stat].
    rewrite (setitem_run _ _ _ _ _ Hdf).
    apply (IH Hnd') with (g := Frame.setitem g n
                                 (NumCol (fillna Float.isnan xs (stat xs)))).
    + intros n' Hn'. apply Hnum. now right.
    + cbn [heap]. apply lookup_insert_eq.
    + intros col Hcol. rewrite getitem_setitem_ne by congruence.
      apply Hin. now right.
    + intros col Hcol. destruct (decide (n = col)) as [<- | Hne].
      * now rewrite getitem_setitem_eq, Hxs.
      * rewrite getitem_setitem_ne by exact Hne. apply Hout.
        intros [-> | H]; contradiction.
Qed.

(** The sum of a sequence without nulls is a number when no entry is
    infinite, an infinity when all infinite entries have the same sign,
    and NaN when both infinities occur. *)
Lemma sum_cases (vs : list float64) :
  Forall (fun y => Float.isnan y = false) vs ->
  match Series.sum vs with
  | F _ => forall s : bool, ~ In (Inf s) vs
  | Inf s => In (Inf s) vs /\ ~ In (Inf (negb s)) vs
  | NaN => In (Inf false) vs /\ In (Inf true) vs
  end.
Proof.
  induction 1 as [| x vs Hx _ IH]; cbn [Series.sum foldr].
  - intros s [].
  - fold (Series.sum vs).
    destruct x as [a | s |]; [| | discriminate Hx];
      destruct (Series.sum vs) as [b | t |]; cbn [Float.add]; unfold fl.
    + intros s [H | H]; [discriminate | exact (IH s H)].
    + destruct IH as [H1 H2]. split; [now right |].
      intros [H | H]; [discriminate | contradiction].
    + destruct IH as [H1 H2]. split; now right.
    + split; [now left |].
      intros [H | H]; [destruct s; discriminate | exact (IH _ H)].
    + destruct IH as [H1 H2]. destruct s, t; cbn [Bool.eqb negb] in *.
      * split; [now left |]. intros [H | H]; [discriminate | contradiction].
      * split; [now right | now left].
      * split; [now left | now right].
      * split; [now left |]. intros [H | H]; [discriminate | contradiction].
    + destruct IH as [H1 H2]. split; now right.
Qed.

Lemma count_positive (k : nat) :
  Qeq_bool (inject_Z (Z.of_nat (S k))) 0 = false /\
  Float.Qltb (inject_Z (Z.of_nat (S k))) 0 = false.
Proof.
  assert (H : (0 < inject_Z (Z.of_nat (S k)))%Q).
  { change 0%Q with (inject_Z 0). rewrite <- Zlt_Qlt. lia. }
  split.
  - destruct (Qeq_bool _ 0) eqn:E; [| reflexivity].
    apply Qeq_bool_iff in E. lra.
  - unfold Float.Qltb. apply negb_false_iff. apply Qle_bool_iff. lra.
Qed.

(** The mean of a column is NaN only when the column holds no value or
    holds both infinities; it is an infinity when the column holds that
    infinity and not the other, and a number when it holds no infinity. *)
Lemma mean_cases (xs : list float64) :
  match Series.mean xs with
  | F _ => forall s : bool, ~ In (Inf s) xs
  | Inf s => In (Inf s) xs /\ ~ In (Inf (negb s)) xs
  | NaN => Series.values xs = [] \/ (In (Inf false) xs /\ In (Inf true) xs)
  end.
Proof.
  unfold Series.mean.
  pose proof (sum_cases _ (values_not_null xs)) as H.
  assert (Hin : forall s, In (Inf s) (Series.values xs) <-> In (Inf s) xs).
  { intros s. rewrite values_In. cbn. tauto. }
  destruct (Series.values xs) as [| v vs] eqn:E; [now left |].
  unfold Series.count. cbn [length].
  destruct (count_positive (length vs)) as [E1 E2].
  destruct (Series.sum (v :: vs)) as [b | t |];
    cbn [Float.div]; rewrite ?E1, ?E2.
  - unfold fl. intros s Hs. apply (H s). now apply Hin.
  - destruct t; cbn [xorb]; rewrite <- !Hin; exact H.
  - right. rewrite <- !Hin. exact H.
Qed.

Lemma mean_not_null (xs : list float64) :
  (exists x : float64, In x xs /\ x <> NaN) ->
  ~ (In (Inf false) xs /\ In (Inf true) xs) ->
  Series.mean xs <> NaN.
Proof.
  intros (x & Hx & Hn) Hboth E. pose proof (mean_cases xs) as H.
  rewrite E in H. destruct H as [H | H]; [| contradiction].
  assert (Hv : In x (Series.values xs)).
  { apply values_In. split; [exact Hx |]. now destruct x. }
  rewrite H in Hv. destruct Hv.
Qed.

Lemma fillna_no_null (xs : list float64) (m : float64) :
  m <> NaN -> Forall (fun x => x <> NaN) (fillna Float.isnan xs m).
Proof.
  intros Hm. unfold fillna. apply Forall_fmap, List.Forall_forall.
  intros [q | s |] _; cbn; [discriminate | discriminate | exact Hm].
Qed.

Lemma fillna_nan (xs : list float64) : fillna Float.isnan xs NaN = xs.
Proof.
  unfold fillna. induction xs as [| [q | sg |] xs IH]; cbn; congruence.
Qed.

Lemma values_all_null (xs : list float64) :
  Forall (fun x => x = NaN) xs -> Series.values xs = [].
Proof.
  intros H. unfold Series.values, dropna.
  induction H as [| x xs -> _ IH]; [reflexivity | exact IH].
Qed.

Lemma mean_null (xs : list float64) :
  Forall (fun x => x = NaN) xs \/ (In (Inf false) xs /\ In (Inf true) xs) ->
  Series.mean xs = NaN.
Proof.
  intros [H | [H1 H2]].
  - unfold Series.mean. now rewrite (values_all_null xs H).
  - pose proof (mean_cases xs) as H.
    destruct (Series.mean xs) as [m | sg |]; [| | reflexivity].
    + exfalso. exact (H false H1).
    + exfalso. destruct H as [_ H]. destruct sg; cbn [negb] in H; contradiction.
Qed.

(** C2 (as amended): with the policy mean and no list of columns,
    [fill_missing_values_numeric] returns the frame it was given, in
    which every numeric column is the column of the input with its nulls
    replaced by its mean: a numeric column that has a value that is not
    null, and does not hold both infinities, holds no null afterwards; a
    column of nulls only, or one that holds both infinities, has no mean
    and stays as it was. *)
Theorem fill_missing_values_numeric_mean (s : state) (df : loc) (f : DataFrame) :
  heap s !! df = Some f ->
  Frame.wf f ->
  exists (s' : state) (f' : DataFrame),
    fill_missing_values_numeric df "mean" None s = (inr df, s') /\
    heap s' !! df = Some f' /\
    forall (col : string) (xs' : list float64),
      Frame.getitem f' col = Some (NumCol xs') ->
      exists xs : list float64,
        Frame.getitem f col = Some (NumCol xs) /\
        xs' = fillna Float.isnan xs (Series.mean xs) /\
        ((exists x : float64, In x xs /\ x <> NaN) ->
         ~ (In (Inf false) xs /\ In (Inf true) xs) ->
         Forall (fun x => x <> NaN) xs') /\
        (Forall (fun x => x = NaN) xs \/
         (In (Inf false) xs /\ In (Inf true) xs) ->
         xs' = xs).
Proof.
  intros Hdf [Hnd _].
  unfold fill_missing_values_numeric, get_numerical_columns, log_decorator.
  unfold mbind at 1, M_bind at 1. unfold mbind at 1, M_bind at 1.
  rewrite (load_run _ _ _ Hdf). cbn [mret M_ret String.eqb Ascii.eqb Bool.eqb].
  set (names := Frame.select_dtypes [number] f).
  set (s0 := mkState (heap s) (Executed "get_numerical_columns" :: log s)).
  destruct (fill_stat_loop df Series.mean f names) with (s := s0) (g := f)
    as (s' & f' & Hrun & Hdf' & Hf').
  - now apply select_dtypes_NoDup.
  - intros n Hn.
    destruct (select_dtypes_lookup _ _ _ Hnd Hn) as (c & Hc & Hty).
    destruct c; [eauto | |];
      apply list_elem_of_singleton in Hty; discriminate.
  - exact Hdf.
  - reflexivity.
  - intros col Hcol. destruct (Frame.getitem f col) as [c |] eqn:Hc; [| reflexivity].
    destruct c; [| reflexivity | reflexivity].
    exfalso. apply Hcol. apply (select_dtypes_complete _ _ _ _ Hc). set_solver.
  - unfold mbind at 1, M_bind at 1. rewrite Hrun. cbn [heap].
    eexists _, f'. split; [reflexivity |]. split; [exact Hdf' |].
    intros col xs' Hxs'. rewrite Hf' in Hxs'.
    destruct (Frame.getitem f col) as [[xs | os | ts] |]; cbn in Hxs';
      try discriminate.
    injection Hxs' as <-. exists xs. split; [reflexivity |]. split; [reflexivity |].
    split.
    + intros Hval Hboth. apply fillna_no_null. now apply mean_not_null.
    + intros Hnull. rewrite (mean_null xs Hnull). apply fillna_nan.
Qed.

Lemma fill_missing_values_numeric_mean_witness :
  let f := mkFrame [0; 1; 2]
             [("x"%string, NumCol [F 1; NaN; F 2]);
              ("s"%string, ObjCol [PyStr "a"; PyNone; PyStr "b"])] in
  heap (initial f) !! 1%positive = Some f /\
  Frame.wf f /\
  exists (s' : state) (f' : DataFrame),
    fill_missing_values_numeric 1%positive "mean" None (initial f)
    = (inr 1%positive, s') /\
    heap s' !! 1%positive = Some f' /\
    forall (col : string) (xs' : list float64),
      Frame.getitem f' col = Some (NumCol xs') ->
      exists xs : list float64,
        Frame.getitem f col = Some (NumCol xs) /\
        xs' = fillna Float.isnan xs (Series.mean xs) /\
        ((exists x : float64, In x xs /\ x <> NaN) ->
         ~ (In (Inf false) xs /\ In (Inf true) xs) ->
         Forall (fun x => x <> NaN) xs') /\
        (Forall (fun x => x = NaN) xs \/
         (In (Inf false) xs /\ In (Inf true) xs) ->
         xs' = xs).
Proof.
  intros f.
  assert (Hwf : Frame.wf f).
  { split; [apply (bool_decide_unpack _); vm_compute; reflexivity |].
    repeat constructor. }
  split; [reflexivity |]. split; [exact Hwf |].
  apply (fill_missing_values_numeric_mean (initial f) 1%positive f);
    [reflexivity | exact Hwf].
Defined.

(** C2, as stated, fails on a numeric column that holds nothing but
    nulls: its mean is NaN and the nulls remain.  It fails as well on a
    column that holds both infinities, whose mean is [inf - inf]. *)
Lemma fill_missing_values_numeric_all_null :
  let f := mkFrame [0; 1; 2]
             [("x"%string, NumCol [F 1; F 2; NaN]);
              ("y"%string, NumCol [NaN; NaN; NaN]);
              ("z"%string, NumCol [Inf false; Inf true; NaN])] in
  Series.mean [NaN; NaN; NaN] = NaN /\
  Series.mean [Inf false; Inf true; NaN] = NaN /\
  exists (s' : state) (f' : DataFrame),
    fill_missing_values_numeric 1%positive "mean" None (initial f)
    = (inr 1%positive, s') /\
    heap s' !! 1%positive = Some f' /\
    Frame.getitem f' "y" = Some (NumCol [NaN; NaN; NaN]) /\
    Frame.getitem f' "z" = Some (NumCol [Inf false; Inf true; NaN]) /\
    ~ (forall (col : string) (xs' : list float64),
         Frame.getitem f' col = Some (NumCol xs') ->
         Forall (fun x => x <> NaN) xs') /\
    ~ (forall (col : string) (xs' : list float64),
         Frame.getitem f' col = Some (NumCol xs') ->
         (exists x : float64, In x xs' /\ x <> NaN) ->
         Forall (fun x => x <> NaN) xs').
Proof.
  cbv zeta. split; [reflexivity |]. split; [reflexivity |].
  eexists _, _. split; [vm_compute; reflexivity |].
  split; [reflexivity |]. split; [reflexivity |]. split; [reflexivity |].
  split.
  - intros H. specialize (H "y"%string [NaN; NaN; NaN] eq_refl).
    apply Forall_cons in H as [H _]. now apply H.
  - intros H.
    specialize (H "z"%string [Inf false; Inf true; NaN] eq_refl).
    assert (Hv : exists x : float64,
               In x [Inf false; Inf true; NaN] /\ x <> NaN).
    { exists (Inf false). split; [now left | discriminate]. }
    specialize (H Hv). rewrite !Forall_cons in H.
    destruct H as (_ & _ & H & _). now apply H.
Qed.

(** ** Removing the rows that hold the text 'nan' *)

Lemma filter_mask_nil_r {A : Type} (mask : list bool) :
  filter_mask mask (@nil A) = [].
Proof. now destruct mask. Qed.

Lemma filter_mask_filter_mask {A : Type} (m m2 : list bool) (xs : list A) :
  filter_mask (filter_mask m m2) (filter_mask m xs)
  = filter_mask (zip_with andb m m2) xs.
Proof.
  revert m2 xs. induction m as [| b m IH]; intros m2 xs; [reflexivity |].
  destruct m2 as [| b2 m2], xs as [| x xs]; destruct b; cbn;
    try reflexivity; try (destruct b2; cbn); rewrite ?IH;
    try reflexivity; now rewrite ?filter_mask_nil_r.
Qed.

Lemma filter_mask_filter {A : Type} (p : A -> bool) (xs : list A) :
  filter_mask (map p xs) xs = List.filter p xs.
Proof.
  induction xs as [| x xs IH]; cbn; [reflexivity |].
  destruct (p x); now rewrite IH.
Qed.

Lemma zip_with_andb_true_l (m : list bool) :
  zip_with andb (repeat true (length m)) m = m.
Proof. induction m as [| b m IH]; cbn; [reflexivity | now rewrite IH]. Qed.

Lemma zip_with_andb_true_r (m : list bool) :
  zip_with andb m (repeat true (length m)) = m.
Proof.
  induction m as [| b m IH]; cbn; [reflexivity |].
  now rewrite IH, andb_true_r.
Qed.

Lemma zip_with_andb_assoc (m1 m2 m3 : list bool) :
  zip_with andb (zip_with andb m1 m2) m3
  = zip_with andb m1 (zip_with andb m2 m3).
Proof.
  revert m2 m3. induction m1 as [| b1 m1 IH]; intros [| b2 m2] [| b3 m3];
    cbn; try reflexivity.
  now rewrite IH, andb_assoc.
Qed.

Lemma ne_str_length (s : string) (c : column) :
  length (Column.ne_str s c) = Column.len c.
Proof. destruct c; apply length_map. Qed.

Lemma ne_str_select (s : string) (m : list bool) (c : column) :
  Column.ne_str s (Column.select m c) = filter_mask m (Column.ne_str s c).
Proof. destruct c; cbn; now rewrite filter_mask_map. Qed.

Lemma ne_str_cells (c : column) :
  Column.ne_str "nan" c = map not_nan_cell (Frame.cells c).
Proof. destruct c; cbn; now rewrite map_map. Qed.

Lemma select_select (m m2 : list bool) (c : column) :
  Column.select (filter_mask m m2) (Column.select m c)
  = Column.select (zip_with andb m m2) c.
Proof. destruct c; cbn; now rewrite filter_mask_filter_mask. Qed.

Lemma select_rows_select_rows (m m2 : list bool) (f : DataFrame) :
  Frame.select_rows (filter_mask m m2) (Frame.select_rows m f)
  = Frame.select_rows (zip_with andb m m2) f.
Proof.
  unfold Frame.select_rows. cbn [index columns].
  rewrite filter_mask_filter_mask. f_equal.
  rewrite map_map. apply map_ext. intros [name c]. cbn. now rewrite select_select.
Qed.

Lemma getitem_select_rows (m : list bool) (f : DataFrame) (col : string) :
  Frame.getitem (Frame.select_rows m f) col
  = Column.select m <$> Frame.getitem f col.
Proof.
  unfold Frame.getitem, Frame.select_rows. cbn [columns].
  induction (columns f) as [| [name c] cols IH]; cbn; [reflexivity |].
  now destruct (String.eqb name col).
Qed.

Lemma getitem_len (f : DataFrame) (col : string) (c : column) :
  Frame.wf f -> Frame.getitem f col = Some c -> Column.len c = length (index f).
Proof.
  intros [_ Hlen]. unfold Frame.getitem.
  induction Hlen as [| [name c0] cols H Hlen IH]; cbn; [discriminate |].
  destruct (String.eqb name col); [| exact IH]. now intros [= <-].
Qed.

Lemma preserved_trans (s1 s2 s3 : state) :
  preserved s1 s2 -> preserved s2 s3 -> preserved s1 s3.
Proof. intros H12 H23 l g H. apply H23, H12, H. Qed.

Lemma remove_nan_loop_run (f : DataFrame) (names : list string) :
  Frame.wf f ->
  (forall n, In n names -> is_Some (Frame.getitem f n)) ->
  forall (s : state) (d : loc) (m0 : list bool),
    heap s !! d = Some (Frame.select_rows m0 f) ->
    length m0 = length (index f) ->
    exists (d' : loc) (s' : state),
      remove_nan_loop names d s = (inr d', s') /\
      heap s' !! d'
      = Some (Frame.select_rows (zip_with andb m0 (names_mask f names)) f) /\
      preserved s s' /\
      (names = [] -> d' = d) /\
      (names <> [] -> heap s !! d' = None).
Proof.
  intros Hwf. induction names as [| n names IH]; intros Hall s d m0 Hd Hm0.
  - exists d, s. split; [reflexivity |].
    split; [| split; [apply preserved_refl | split; [reflexivity | congruence]]].
    unfold names_mask. cbn [foldr]. now rewrite <- Hm0, zip_with_andb_true_r.
  - destruct (Hall n (or_introl eq_refl)) as [c Hc].
    pose proof (getitem_len _ _ _ Hwf Hc) as Hlen.
    cbn [remove_nan_loop]. unfold mbind at 1, M_bind at 1.
    rewrite (getitem_run _ _ _ _ Hd), getitem_select_rows, Hc. cbn [fmap option_fmap option_map].
    unfold mbind at 1, M_bind at 1. rewrite (load_run _ _ _ Hd).
    unfold mbind at 1, M_bind at 1. unfold alloc.
    set (l := fresh (dom (heap s))).
    rewrite ne_str_select, select_rows_select_rows.
    set (m1 := zip_with andb m0 (Column.ne_str "nan" c)).
    destruct (IH (fun n' Hn' => Hall n' (or_intror Hn'))
                (mkState (<[l := Frame.select_rows m1 f]> (heap s)) (log s))
                l m1) as (d' & s' & Hrun & Hd' & Hpres & Hsame & Hnew).
    + cbn [heap]. apply lookup_insert_eq.
    + unfold m1. rewrite length_zip_with, ne_str_length, Hlen, Hm0. lia.
    + exists d', s'. split; [exact Hrun |]. split; [| split; [| split]].
      * rewrite Hd'. unfold m1, names_mask. cbn [foldr]. rewrite Hc.
        now rewrite zip_with_andb_assoc.
      * eapply preserved_trans; [| exact Hpres].
        apply preserved_insert_fresh; [apply fresh_unused | auto].
      * discriminate.
      * intros _. destruct names as [| n' names'].
        -- rewrite (Hsame eq_refl). apply fresh_unused.
        -- assert (Hd1 : heap (mkState (<[l := Frame.select_rows m1 f]> (heap s))
                                 (log s)) !! d' = None)
             by (apply Hnew; discriminate).
           cbn [heap] in Hd1. apply lookup_insert_None in Hd1. tauto.
Qed.

Lemma lookup_in (cols : list (string * column)) (n : string) (c : column) :
  NoDup (map fst cols) -> In (n, c) cols -> Frame.lookup n cols = Some c.
Proof.
  induction cols as [| [name c0] cols IH]; cbn; [intros _ [] |].
  intros Hnd Hin. apply NoDup_cons in Hnd as [Hnotin Hnd].
  destruct Hin as [[= -> ->] | Hin].
  - now rewrite String.eqb_refl.
  - destruct (String.eqb name n) eqn:E; [| now apply IH].
    apply String.eqb_eq in E. subst name. exfalso. apply Hnotin.
    apply list_elem_of_In. apply (in_map fst) in Hin. exact Hin.
Qed.

Lemma names_mask_columns (f : DataFrame) (sel : list (string * column)) :
  (forall n c, In (n, c) sel -> Frame.getitem f n = Some c) ->
  names_mask f (map fst sel) = nan_mask (length (index f)) (map snd sel).
Proof.
  intros Hsel. unfold names_mask, nan_mask.
  induction sel as [| [n c] sel IH]; cbn; [reflexivity |].
  rewrite (Hsel n c (or_introl eq_refl)), IH; [reflexivity |].
  intros n' c' H. apply Hsel. now right.
Qed.

Lemma nan_mask_length (n : nat) (cols : list column) :
  Forall (fun c => Column.len c = n) cols -> length (nan_mask n cols) = n.
Proof.
  intros H. unfold nan_mask. induction H as [| c cols Hc H IH]; cbn.
  - apply repeat_length.
  - rewrite length_zip_with, ne_str_length, IH, Hc. lia.
Qed.

Lemma nan_mask_categorical (n : nat) (cols : list (string * column)) :
  Forall (fun p => Column.len (snd p) = n) cols ->
  nan_mask n
    (map snd
       (List.filter
          (fun p => bool_decide (Column.dtype_of (snd p) ∈ [object; datetime64]))
          cols))
  = nan_mask n (map snd cols).
Proof.
  intros H. induction H as [| [name c] cols Hc H IH]; [reflexivity |].
  cbn [List.filter snd]. destruct c as [xs | os | ts].
  - change (bool_decide (Column.dtype_of (NumCol xs)
                         ∈ [object; datetime64])) with false. cbv iota. rewrite IH.
    cbn [map snd]. unfold nan_mask at 2. cbn [foldr Column.ne_str].
    fold (nan_mask n (map snd cols)).
    assert (Hrep : map (fun _ : float64 => true) xs
                   = repeat true (length (nan_mask n (map snd cols)))).
    { rewrite nan_mask_length by (apply Forall_fmap; exact H).
      cbn in Hc. rewrite <- Hc. clear. induction xs; cbn; congruence. }
    now rewrite Hrep, zip_with_andb_true_l.
  - change (bool_decide (Column.dtype_of (ObjCol os)
                         ∈ [object; datetime64])) with true. cbv iota. cbn [map snd].
    unfold nan_mask in *. cbn [foldr]. now rewrite IH.
  - change (bool_decide (Column.dtype_of (TimeCol ts)
                         ∈ [object; datetime64])) with true. cbv iota. cbn [map snd].
    unfold nan_mask in *. cbn [foldr]. now rewrite IH.
Qed.

Lemma mask_transpose (n : nat) (cs : list (list Frame.cell)) :
  Forall (fun c => length c = n) cs ->
  foldr (fun c acc => zip_with andb (map not_nan_cell c) acc) (repeat true n) cs
  = map without_nan (Frame.transpose n cs).
Proof.
  revert cs. induction n as [| n IH]; intros cs Hcs.
  - cbn. induction Hcs as [| c cs Hc Hcs IHc]; cbn; [reflexivity |].
    now destruct c.
  - rewrite transpose_S. cbn [map]. rewrite <- IH.
    + clear IH. induction Hcs as [| c cs Hc Hcs IHc]; [reflexivity |].
      destruct c as [| x c]; [discriminate |].
      cbn [foldr map]. rewrite IHc. reflexivity.
    + apply Forall_fmap. eapply Forall_impl; [exact Hcs |].
      intros [| x c] H; [discriminate | now injection H].
Qed.

Lemma nan_mask_rows (f : DataFrame) :
  Frame.wf f ->
  nan_mask (length (index f)) (map snd (columns f))
  = map without_nan (Frame.rows f).
Proof.
  intros [_ Hlen]. unfold Frame.rows. rewrite <- mask_transpose.
  - unfold nan_mask. induction (columns f) as [| [name c] cols IH]; cbn;
      [reflexivity |].
    rewrite ne_str_cells. f_equal. apply IH. now inversion Hlen.
  - apply Forall_fmap. eapply Forall_impl; [exact Hlen |].
    intros [name c] H. cbn in *. now rewrite cells_length.
Qed.

Lemma categorical_mask (f : DataFrame) :
  Frame.wf f ->
  names_mask f (Frame.select_dtypes [object; datetime64] f)
  = map without_nan (Frame.rows f).
Proof.
  intros Hwf. pose proof Hwf as [Hnd Hlen].
  unfold Frame.select_dtypes. rewrite names_mask_columns.
  - rewrite nan_mask_categorical by exact Hlen. now apply nan_mask_rows.
  - intros n c Hin. apply lookup_in; [exact Hnd |].
    apply filter_In in Hin. tauto.
Qed.

(** C3 (as amended): [remove_nan_categorical] returns a frame made of
    the rows of the input in which no text column holds the placeholder
    text 'nan', in their order; every other row is kept, also when a
    text or date/time column holds a null there.  The input frame is not
    changed; the frame returned is a new object when the input has a
    text or date/time column, and the input itself when it has none. *)
Theorem remove_nan_categorical_rows (s : state) (df : loc) (f : DataFrame) :
  heap s !! df = Some f ->
  Frame.wf f ->
  exists (df' : loc) (s' : state) (f' : DataFrame),
    remove_nan_categorical df s = (inr df', s') /\
    heap s' !! df' = Some f' /\
    f' = Frame.select_rows (map without_nan (Frame.rows f)) f /\
    Frame.rows f' = List.filter without_nan (Frame.rows f) /\
    preserved s s' /\
    (Frame.select_dtypes [object; datetime64] f = [] -> df' = df) /\
    (Frame.select_dtypes [object; datetime64] f <> [] -> heap s !! df' = None).
Proof.
  intros Hdf Hwf.
  unfold remove_nan_categorical, get_categorical_columns, log_decorator.
  unfold mbind at 1, M_bind at 1. unfold mbind at 1, M_bind at 1.
  rewrite (load_run _ _ _ Hdf). cbn [mret M_ret].
  set (s0 := mkState (heap s) (Executed "get_categorical_columns" :: log s)).
  set (all := repeat true (length (index f))).
  assert (Hall : length all = length (index f)) by apply repeat_length.
  destruct (remove_nan_loop_run f (Frame.select_dtypes [object; datetime64] f)
              Hwf (fun n => select_dtypes_present _ f n) s0 df all)
    as (d' & s' & Hrun & Hd' & Hpres & Hsame & Hnew).
  - cbn [s0 heap]. rewrite Hdf. f_equal. symmetry.
    apply select_rows_all; [exact Hwf | exact Hall |].
    apply Forall_forall. intros b Hb. apply list_elem_of_In in Hb.
    now apply repeat_spec in Hb.
  - exact Hall.
  - rewrite Hrun. rewrite (categorical_mask f Hwf) in Hd'.
    assert (Hmask : zip_with andb all (map without_nan (Frame.rows f))
                    = map without_nan (Frame.rows f)).
    { unfold all. rewrite <- (rows_length f).
      rewrite <- (length_map without_nan (Frame.rows f)).
      apply zip_with_andb_true_l. }
    rewrite Hmask in Hd'.
    eexists d', _, _. split; [reflexivity |]. split; [exact Hd' |].
    split; [reflexivity |].
    split; [| split; [exact Hpres | split; [exact Hsame | exact Hnew]]].
    rewrite rows_select_rows; [apply filter_mask_filter | exact Hwf |].
    now rewrite length_map, rows_length.
Qed.

Lemma remove_nan_categorical_rows_witness :
  let f := mkFrame [0; 1; 2]
             [("n"%string, NumCol [F 1; F 2; NaN]);
              ("s"%string, ObjCol [PyNone; PyStr "nan"; PyStr "a"])] in
  heap (initial f) !! 1%positive = Some f /\
  Frame.wf f /\
  exists (df' : loc) (s' : state) (f' : DataFrame),
    remove_nan_categorical 1%positive (initial f) = (inr df', s') /\
    heap s' !! df' = Some f' /\
    f' = Frame.select_rows (map without_nan (Frame.rows f)) f /\
    Frame.rows f' = List.filter without_nan (Frame.rows f) /\
    preserved (initial f) s' /\
    (Frame.select_dtypes [object; datetime64] f = [] -> df' = 1%positive) /\
    (Frame.select_dtypes [object; datetime64] f <> [] ->
     heap (initial f) !! df' = None).
Proof.
  intros f.
  assert (Hwf : Frame.wf f).
  { split; [apply (bool_decide_unpack _); vm_compute; reflexivity |].
    repeat constructor. }
  split; [reflexivity |]. split; [exact Hwf |].
  apply (remove_nan_categorical_rows (initial f) 1%positive f);
    [reflexivity | exact Hwf].
Defined.

(** C3, as stated, fails: a row is removed only for the text 'nan'; rows
    in which a text or date/time column holds a null are kept. *)
Lemma remove_nan_categorical_keeps_null :
  let f := mkFrame [0; 1; 2]
             [("s"%string, ObjCol [PyNone; PyStr "nan"; PyStr "a"]);
              ("t"%string, TimeCol [Some 5; Some 6; None])] in
  exists (df' : loc) (s' : state) (f' : DataFrame),
    remove_nan_categorical 1%positive (initial f) = (inr df', s') /\
    heap s' !! df' = Some f' /\
    f' = mkFrame [0; 2]
           [("s"%string, ObjCol [PyNone; PyStr "a"]);
            ("t"%string, TimeCol [Some 5; None])] /\
    ~ (forall (col : string) (c : column),
         Frame.getitem f' col = Some c ->
         Column.dtype_of c <> number ->
         Column.count_missing c = 0%nat).
Proof.
  cbv zeta. eexists _, _, _. split; [vm_compute; reflexivity |].
  split; [reflexivity |]. split; [reflexivity |].
  intros H. specialize (H "s"%string (ObjCol [PyNone; PyStr "a"]) eq_refl).
  discriminate H. discriminate.
Qed.

(** * Further properties *)

(** ** More on [drop_duplicate] *)


Lemma kept_le (mask : list bool) : (kept mask <= length mask)%nat.
Proof.
  unfold kept. induction mask as [| b mask IH]; cbn; [lia |].
  destruct b; cbn; lia.
Qed.

Lemma duplicated_length (f : DataFrame) :
  length (Frame.duplicated f) = length (index f).
Proof. unfold Frame.duplicated. now rewrite duplicated_from_length, rows_length. Qed.

Lemma Forall_negb_true (m : list bool) :
  Forall (fun b => b = true) (map negb m) <-> Forall (fun b => b = false) m.
Proof.
  rewrite Forall_fmap.
  split; intros H; (eapply Forall_impl; [exact H |]); intros []; cbn; congruence.
Qed.


(** A frame in which no row repeats an earlier one is left exactly as it
    is by [drop_duplicate]: nothing in the store changes. *)
Theorem drop_duplicate_without_duplicates (s : state) (df : loc) (f : DataFrame) :
  heap s !! df = Some f ->
  Frame.wf f ->
  Forall (fun b => b = false) (Frame.duplicated f) ->
  exists s' : state,
    drop_duplicate df s = (inr df, s') /\ heap s' = heap s.
Proof.
  intros Hdf Hwf Hnone. rewrite (drop_duplicate_run _ _ _ Hdf).
  eexists. split; [reflexivity |]. cbn [heap].
  unfold Frame.drop_duplicates. rewrite select_rows_all.
  - now apply insert_id.
  - exact Hwf.
  - now rewrite length_map, duplicated_length.
  - now apply Forall_negb_true.
Qed.




Lemma sample_wf : Frame.wf sample.
Proof.
  split; [apply (bool_decide_unpack _); vm_compute; reflexivity |].
  repeat constructor.
Defined.


Lemma drop_duplicate_without_duplicates_witness :
  let f := Frame.drop_duplicates sample in
  heap (initial f) !! 1%positive = Some f /\
  Frame.wf f /\
  Forall (fun b => b = false) (Frame.duplicated f) /\
  exists s' : state,
    drop_duplicate 1%positive (initial f) = (inr 1%positive, s') /\
    heap s' = heap (initial f).
Proof.
  intros f.
  assert (Hwf : Frame.wf f).
  { split; [apply (bool_decide_unpack _); vm_compute; reflexivity |].
    repeat constructor. }
  assert (Hnone : Forall (fun b => b = false) (Frame.duplicated f))
    by (vm_compute; repeat constructor).
  split; [reflexivity |]. split; [exact Hwf |]. split; [exact Hnone |].
  apply (drop_duplicate_without_duplicates (initial f) 1%positive f);
    [reflexivity | exact Hwf | exact Hnone].
Defined.


(** ** Missing columns *)

(** On a column that the frame does not have, [percent_missing_column]
    raises [KeyError] for that column, after logging that the column was
    not found; the decorator logs the failure as well, and no frame is
    touched. *)
Theorem percent_missing_column_absent
    (s : state) (df : loc) (col : string) (f : DataFrame) :
  heap s !! df = Some f ->
  Frame.getitem f col = None ->
  percent_missing_column df col s
  = (inl (KeyError col),
     mkState (heap s)
       (Failed "percent_missing_column" (KeyError col)
        :: Message (col +:+ " not found") :: log s)).
Proof.
  intros Hdf Hc.
  unfold percent_missing_column, log_decorator, except_KeyError, mbind, M_bind.
  rewrite (getitem_run _ _ _ _ Hdf), Hc. reflexivity.
Qed.

Lemma percent_missing_column_absent_witness :
  heap (initial sample) !! 1%positive = Some sample /\
  Frame.getitem sample "x" = None /\
  percent_missing_column 1%positive "x" (initial sample)
  = (inl (KeyError "x"),
     mkState (heap (initial sample))
       [Failed "percent_missing_column" (KeyError "x"); Message "x not found"]).
Proof.
  split; [reflexivity |]. split; [reflexivity |].
  apply (percent_missing_column_absent (initial sample) 1%positive "x" sample);
    reflexivity.
Defined.

(** On a column that the frame does not have, [handle_outliers] raises
    [KeyError] for that column, whatever the policy.  The exception comes
    from the first read of the column, after the copy was made. *)
Theorem handle_outliers_absent
    (s : state) (df : loc) (col method : string) (f : DataFrame) :
  heap s !! df = Some f ->
  Frame.getitem f col = None ->
  fst (handle_outliers df col method s) = inl (KeyError col).
Proof.
  intros Hdf Hc. unfold handle_outliers, log_decorator, copy.
  unfold mbind at 1, M_bind at 1. unfold mbind at 1, M_bind at 1.
  rewrite (load_run _ _ _ Hdf). unfold alloc.
  unfold mbind at 1, M_bind at 1.
  erewrite getitem_run by (cbn [heap]; apply lookup_insert_eq).
  now rewrite Hc.
Qed.

Lemma handle_outliers_absent_witness :
  heap (initial sample) !! 1%positive = Some sample /\
  Frame.getitem sample "x" = None /\
  fst (handle_outliers 1%positive "x" "mode" (initial sample)) = inl (KeyError "x").
Proof.
  split; [reflexivity |]. split; [reflexivity |].
  apply (handle_outliers_absent (initial sample) 1%positive "x" "mode" sample);
    reflexivity.
Defined.

(** ** Loops that rewrite columns *)

Lemma setitem_index (f : DataFrame) (col : string) (c : column) :
  index (Frame.setitem f col c) = index f.
Proof. reflexivity. Qed.

Lemma lift_loop (df : loc) (G : column -> exn + column) (names : list string) :
  NoDup names ->
  forall (s : state) (g : DataFrame),
    heap s !! df = Some g ->
    (forall n, In n names ->
       exists c c', Frame.getitem g n = Some c /\ G c = inr c') ->
    exists (s' : state) (g' : DataFrame),
      for_each names (fun col =>
        c ← getitem df col;
        c' ← lift (G c);
        setitem df col c') s
      = (inr tt, s') /\
      heap s' !! df = Some g' /\
      log s' = log s /\
      index g' = index g /\
      (forall col, In col names ->
         exists c c', Frame.getitem g col = Some c /\ G c = inr c' /\
                      Frame.getitem g' col = Some c') /\
      (forall col, ~ In col names -> Frame.getitem g' col = Frame.getitem g col).
Proof.
  intros Hnd. induction names as [| n names IH]; intros s g Hdf Hall.
  - exists s, g. repeat split; auto. intros col [].
  - apply NoDup_cons in Hnd as [Hn Hnd']. rewrite list_elem_of_In in Hn.
    destruct (Hall n (or_introl eq_refl)) as (c & c' & Hc & HG).
    cbn [for_each]. unfold mbind at 1, M_bind at 1.
    unfold mbind at 1, M_bind at 1.
    rewrite (getitem_run _ _ _ _ Hdf), Hc.
    unfold mbind at 1, M_bind at 1. unfold lift at 1. rewrite HG.
    rewrite (setitem_run _ _ _ _ _ Hdf).
    destruct (IH Hnd' (mkState (<[df := Frame.setitem g n c']> (heap s)) (log s))
                (Frame.setitem g n c'))
      as (s' & g' & Hrun & Hdf' & Hlog & Hidx & Hin & Hout).
    + cbn [heap]. apply lookup_insert_eq.
    + intros m Hm. rewrite getitem_setitem_ne by congruence.
      apply Hall. now right.
    + exists s', g'. split; [exact Hrun |]. split; [exact Hdf' |].
      split; [exact Hlog |]. split; [exact Hidx |]. split.
      * intros col [<- | Hcol].
        -- exists c, c'. split; [exact Hc |]. split; [exact HG |].
           rewrite (Hout n Hn). apply getitem_setitem_eq.
        -- destruct (Hin col Hcol) as (c0 & c0' & H0 & HG0 & H0').
           rewrite getitem_setitem_ne in H0 by congruence. eauto.
      * intros col Hcol. rewrite Hout by (intros H; apply Hcol; now right).
        apply getitem_setitem_ne. intros ->. apply Hcol. now left.
Qed.


(** ** Forward and backward fill *)















(** ** The most frequent values *)


Lemma foldr_max_attained (ns : list nat) :
  ns <> [] -> In (foldr Nat.max O ns) ns.
Proof.
  induction ns as [| a ns IH]; [congruence |]. intros _. cbn.
  destruct ns as [| b ns]; [left; cbn; lia |].
  destruct (Nat.max_spec a (foldr Nat.max O (b :: ns))) as [[_ ->] | [_ ->]].
  - right. apply IH. discriminate.
  - now left.
Qed.

Lemma unique_incl {A : Type} (eqb : A -> A -> bool) (l : list A) (x : A) :
  In x (unique eqb l) -> In x l.
Proof.
  induction l as [| a l IH]; cbn; [auto |].
  intros [-> | H]; [now left |]. right. apply IH.
  apply filter_In in H. tauto.
Qed.

Lemma most_frequent_incl {A : Type} (eqb : A -> A -> bool) (l : list A) (x : A) :
  In x (most_frequent eqb l) -> In x l.
Proof.
  unfold most_frequent. intros H. apply filter_In in H as [H _].
  now apply unique_incl in H.
Qed.


Lemma unique_representative {A : Type} (P : A -> Prop) (eqb : A -> A -> bool)
    (l : list A) (x : A) :
  equivalence_on P eqb -> List.Forall P l -> In x l ->
  exists y : A, In y (unique eqb l) /\ eqb y x = true.
Proof.
  intros (Hrefl & Hsym & Htrans) Hl. induction Hl as [| a l Ha Hl IH];
    [intros [] |].
  intros [-> | Hx].
  - exists x. split; [now left | now apply Hrefl].
  - destruct (IH Hx) as (y & Hy & Hyx).
    assert (Py : P y).
    { rewrite List.Forall_forall in Hl. now apply Hl, (unique_incl eqb). }
    assert (Px : P x) by (rewrite List.Forall_forall in Hl; now apply Hl).
    destruct (eqb a y) eqn:E.
    + exists a. split; [now left |]. now apply (Htrans a y x).
    + exists y. split; [| exact Hyx]. right. apply filter_In.
      split; [exact Hy | now rewrite E].
Qed.

Lemma count_eq_equivalent {A : Type} (P : A -> Prop) (eqb : A -> A -> bool)
    (l : list A) (x y : A) :
  equivalence_on P eqb -> List.Forall P l -> P x -> P y -> eqb y x = true ->
  count_eq eqb y l = count_eq eqb x l.
Proof.
  intros (Hrefl & Hsym & Htrans) Hl Px Py Hyx. unfold count_eq.
  induction Hl as [| a l Ha Hl IH]; [reflexivity |]. cbn.
  assert (E : eqb y a = eqb x a).
  { destruct (eqb x a) eqn:Exa.
    - now apply (Htrans y x a).
    - destruct (eqb y a) eqn:Eya; [| reflexivity].
      assert (eqb x a = true) by (apply (Htrans x y a); auto). congruence. }
  rewrite E. destruct (eqb x a); cbn; now rewrite IH.
Qed.

(** Where equality is an equivalence, a list that is not empty has a most
    frequent value. *)
Lemma most_frequent_nonempty {A : Type} (P : A -> Prop) (eqb : A -> A -> bool)
    (l : list A) :
  equivalence_on P eqb -> List.Forall P l -> l <> [] -> most_frequent eqb l <> [].
Proof.
  intros Heq Hl Hne.
  assert (Hmax : In (max_count eqb l) (map (fun x => count_eq eqb x l) l)).
  { apply foldr_max_attained. destruct l; [congruence | discriminate]. }
  apply in_map_iff in Hmax as (x & Hcount & Hx).
  destruct (unique_representative P eqb l x Heq Hl Hx) as (y & Hy & Hyx).
  assert (Px : P x) by (rewrite List.Forall_forall in Hl; now apply Hl).
  assert (Py : P y).
  { rewrite List.Forall_forall in Hl. now apply Hl, (unique_incl eqb). }
  assert (Hin : In y (most_frequent eqb l)).
  { unfold most_frequent. apply filter_In. split; [exact Hy |].
    apply Nat.eqb_eq. rewrite <- Hcount.
    now apply (count_eq_equivalent P eqb l x y). }
  intros E. rewrite E in Hin. destruct Hin.
Qed.

Lemma insert_sorted_In {A : Type} (leb : A -> A -> bool) (x y : A) (l : list A) :
  In y (insert_sorted leb x l) -> y = x \/ In y l.
Proof.
  induction l as [| a l IH]; cbn; [intuition congruence |].
  destruct (leb x a); cbn; [intuition congruence |].
  intros [-> | H]; [tauto |]. destruct (IH H); tauto.
Qed.

Lemma sort_values_In {A : Type} (leb : A -> A -> bool) (y : A) (l : list A) :
  In y (sort_values leb l) -> In y l.
Proof.
  induction l as [| x l IH]; [auto |].
  change (sort_values leb (x :: l)) with (insert_sorted leb x (sort_values leb l)).
  intros H. apply insert_sorted_In in H as [-> | H]; [now left | right; auto].
Qed.

Lemma sort_values_nonempty {A : Type} (leb : A -> A -> bool) (l : list A) :
  l <> [] -> sort_values leb l <> [].
Proof.
  intros Hne E. apply (f_equal (@length A)) in E.
  rewrite sort_values_length in E. destruct l; [congruence | discriminate].
Qed.










(** ** More on [fill_missing_values_numeric] *)

Lemma numeric_loop (df : loc) (stat : list float64 -> float64)
    (s : state) (f : DataFrame) :
  heap s !! df = Some f ->
  Frame.wf f ->
  exists (s' : state) (f' : DataFrame),
    for_each (Frame.select_dtypes [number] f) (fun col =>
      c ← getitem df col;
      c' ← lift (fillna_stat stat c);
      setitem df col c') s
    = (inr tt, s') /\
    heap s' !! df = Some f' /\
    index f' = index f /\
    forall (col : string) (c : column),
      Frame.getitem f col = Some c ->
      Frame.getitem f' col = Some (fill_column stat c).
Proof.
  intros Hdf [Hnd _].
  destruct (lift_loop df (fillna_stat stat) (Frame.select_dtypes [number] f)
              (select_dtypes_NoDup _ f Hnd) s f Hdf)
    as (s' & f' & Hrun & Hdf' & Hlog & Hidx & Hin & Hout).
  { intros n Hn. destruct (select_dtypes_lookup _ _ _ Hnd Hn) as (c & Hc & Hty).
    destruct c; [cbn; eauto | |];
      apply list_elem_of_singleton in Hty; discriminate. }
  exists s', f'. split; [exact Hrun |]. split; [exact Hdf' |].
  split; [exact Hidx |].
  intros col c Hc.
  destruct (in_dec String.string_dec col (Frame.select_dtypes [number] f)) as [Hcol | Hcol].
  - destruct (Hin col Hcol) as (c0 & c' & Hc0 & HG & Hc').
    rewrite Hc in Hc0. injection Hc0 as <-. rewrite Hc'.
    destruct c; cbn in HG; [injection HG as <-; reflexivity | |]; discriminate.
  - rewrite (Hout col Hcol), Hc. destruct c; [| reflexivity | reflexivity].
    exfalso. apply Hcol. apply (select_dtypes_complete _ _ _ _ Hc).
    apply list_elem_of_here.
Qed.












Lemma median_finite (xs : list float64) (v : Q) :
  finite xs -> In (F v) xs -> exists m : Q, Series.median xs = F m.
Proof.
  intros Hfin Hin. unfold Series.median.
  assert (Hnum : Forall (fun x => exists a : Q, x = F a)
                   (sort_values Float.leb (Series.values xs))).
  { apply sort_values_Forall. rewrite (values_finite xs Hfin).
    apply List.Forall_forall. intros x Hx. apply in_map_iff in Hx as (a & <- & _).
    eauto. }
  assert (Hlen : length (sort_values Float.leb (Series.values xs)) <> O).
  { rewrite sort_values_length.
    assert (Hv : In (F v) (Series.values xs)) by (apply values_In; auto).
    destruct (Series.values xs); [destruct Hv | discriminate]. }
  set (vs := sort_values Float.leb (Series.values xs)) in *.
  rewrite List.Forall_forall in Hnum.
  destruct (length vs) as [| n] eqn:En; [congruence |].
  assert (Hdiv : (S n / 2 < length vs)%nat).
  { rewrite En. apply Nat.div_lt; lia. }
  destruct (Hnum (nth (S n / 2) vs NaN)) as [b ->]; [now apply nth_In |].
  destruct (Nat.even (S n)); [| eauto].
  destruct (Hnum (nth (S n / 2 - 1) vs NaN)) as [a ->]; [apply nth_In; lia |].
  cbn [Float.add]. unfold fl at 1. cbn [Float.div].
  change (Qeq_bool 2 0) with false. cbv iota. unfold fl. eauto.
Qed.

Lemma median_all_null (xs : list float64) :
  Forall (fun x => x = NaN) xs -> Series.median xs = NaN.
Proof.
  intros H. unfold Series.median.
  assert (E : Series.values xs = []).
  { unfold Series.values, dropna.
    induction H as [| x xs -> _ IH]; [reflexivity | exact IH]. }
  now rewrite E.
Qed.

(** With the policy median, [fill_missing_values_numeric] returns the
    frame it was given, in which the nulls of every numeric column are
    replaced by the median of its values: a numeric column without
    infinite entry that holds a number holds no null afterwards, and a
    column of nulls only stays as it was.  The entries that are not
    null, the text and date/time columns and the row labels are
    untouched. *)
Theorem fill_missing_values_numeric_median
    (s : state) (df : loc) (f : DataFrame) :
  heap s !! df = Some f ->
  Frame.wf f ->
  exists (s' : state) (f' : DataFrame),
    fill_missing_values_numeric df "median" None s = (inr df, s') /\
    heap s' !! df = Some f' /\
    index f' = index f /\
    forall (col : string) (c : column),
      Frame.getitem f col = Some c ->
      exists c' : column,
        Frame.getitem f' col = Some c' /\
        match c, c' with
        | NumCol xs, NumCol xs' =>
            xs' = fillna Float.isnan xs (Series.median xs) /\
            (finite xs -> (exists v : Q, In (F v) xs) ->
             Forall (fun x => x <> NaN) xs') /\
            (Forall (fun x => x = NaN) xs -> xs' = xs)
        | NumCol _, _ => False
        | _, _ => c' = c
        end.
Proof.
  intros Hdf Hwf.
  unfold fill_missing_values_numeric, get_numerical_columns, log_decorator.
  unfold mbind at 1, M_bind at 1. unfold mbind at 1, M_bind at 1.
  rewrite (load_run _ _ _ Hdf). cbn [mret M_ret String.eqb Ascii.eqb Bool.eqb].
  set (s0 := mkState (heap s) (Executed "get_numerical_columns" :: log s)).
  destruct (numeric_loop df Series.median s0 f Hdf Hwf)
    as (s' & f' & Hrun & Hdf' & Hidx & Hcols).
  unfold mbind at 1, M_bind at 1. rewrite Hrun. cbn [heap].
  eexists _, f'. split; [reflexivity |]. split; [exact Hdf' |].
  split; [exact Hidx |].
  intros col c Hc. exists (fill_column Series.median c).
  split; [now apply Hcols |].
  destruct c as [xs | os | ts]; cbn; [| reflexivity | reflexivity].
  split; [reflexivity |]. split.
  - intros Hfin [v Hv]. destruct (median_finite xs v Hfin Hv) as [m ->].
    apply fillna_no_null. discriminate.
  - intros Hnull. rewrite (median_all_null xs Hnull). apply fillna_nan.
Qed.

(** On a column that holds both infinities on either side of its middle
    the median is [(-inf + inf) / 2], and the nulls remain. *)
Lemma fill_missing_values_numeric_median_infinite :
  Series.median [Inf true; Inf false; NaN] = NaN /\
  fillna Float.isnan [Inf true; Inf false; NaN]
    (Series.median [Inf true; Inf false; NaN])
  = [Inf true; Inf false; NaN].
Proof. split; reflexivity. Qed.

Lemma for_each_app {A : Type} (l1 l2 : list A) (body : A -> M unit) (s : state) :
  for_each (l1 ++ l2) body s
  = match for_each l1 body s with
    | (inr _, s1) => for_each l2 body s1
    | (inl e, s1) => (inl e, s1)
    end.
Proof.
  revert s. induction l1 as [| x l1 IH]; intros s; [reflexivity |].
  cbn [app for_each]. unfold mbind, M_bind.
  destruct (body x s) as [[e | []] s1]; [reflexivity | apply IH].
Qed.

(** When the caller names the columns and one of them is not in the
    frame, [fill_missing_values_numeric] with the policy mean or median
    raises [KeyError] for it, and does not undo what it did: the columns
    named before it, when they are numeric and named once, are already
    filled, the others are as they were. *)
Theorem fill_missing_values_numeric_absent
    (s : state) (df : loc) (f : DataFrame) (method : string)
    (stat : list float64 -> float64) (pre post : list string) (bad : string) :
  heap s !! df = Some f ->
  (method = "mean"%string /\ stat = Series.mean) \/
  (method = "median"%string /\ stat = Series.median) ->
  NoDup pre ->
  (forall n, In n pre -> exists xs, Frame.getitem f n = Some (NumCol xs)) ->
  Frame.getitem f bad = None ->
  exists (s' : state) (f' : DataFrame),
    fill_missing_values_numeric df method (Some (pre ++ bad :: post)) s
    = (inl (KeyError bad), s') /\
    heap s' !! df = Some f' /\
    (forall col, In col pre ->
       Frame.getitem f' col = fill_column stat <$> Frame.getitem f col) /\
    (forall col, ~ In col pre -> Frame.getitem f' col = Frame.getitem f col).
Proof.
  intros Hdf Hmethod Hnd Hpre Hbad.
  destruct (lift_loop df (fillna_stat stat) pre Hnd s f Hdf)
    as (s1 & f1 & Hrun & Hdf1 & Hlog & Hidx & Hin & Hout).
  { intros n Hn. destruct (Hpre n Hn) as [xs Hxs]. cbn. eauto. }
  assert (Hbad1 : Frame.getitem f1 bad = None).
  { rewrite Hout; [exact Hbad |]. intros Hin'.
    destruct (Hpre bad Hin') as [xs Hxs]. congruence. }
  exists (mkState (heap s1)
            (Failed "fill_missing_values_numeric" (KeyError bad) :: log s1)), f1.
  split.
  - unfold fill_missing_values_numeric, log_decorator.
    unfold mbind at 1, M_bind at 1.
    destruct Hmethod as [[-> ->] | [-> ->]];
      cbn [mret M_ret String.eqb Ascii.eqb Bool.eqb];
      unfold mbind at 1, M_bind at 1; rewrite for_each_app, Hrun;
      cbn [for_each]; unfold mbind at 1, M_bind at 1;
      unfold mbind at 1, M_bind at 1; rewrite (getitem_run _ _ _ _ Hdf1), Hbad1;
      reflexivity.
  - split; [exact Hdf1 |]. split; [| exact Hout].
    intros col Hcol. destruct (Hin col Hcol) as (c & c' & Hc & HG & Hc').
    rewrite Hc, Hc'. destruct (Hpre col Hcol) as [xs Hxs].
    rewrite Hc in Hxs. injection Hxs as ->. cbn in HG. injection HG as <-.
    reflexivity.
Qed.


Lemma fill_missing_values_numeric_median_witness :
  heap (initial sample) !! 1%positive = Some sample /\
  Frame.wf sample /\
  exists (s' : state) (f' : DataFrame),
    fill_missing_values_numeric 1%positive "median" None (initial sample)
    = (inr 1%positive, s') /\
    heap s' !! 1%positive = Some f' /\
    index f' = index sample.
Proof.
  split; [reflexivity |]. split; [exact sample_wf |].
  destruct (fill_missing_values_numeric_median
              (initial sample) 1%positive sample eq_refl sample_wf)
    as (s' & f' & Hrun & Hdf' & Hidx & _).
  exists s', f'. auto.
Defined.

Lemma fill_missing_values_numeric_absent_witness :
  heap (initial sample) !! 1%positive = Some sample /\
  (("median" = "mean" /\ Series.median = Series.mean) \/
   ("median" = "median" /\ Series.median = Series.median))%string /\
  NoDup ["n"%string] /\
  (forall n, In n ["n"%string] ->
     exists xs, Frame.getitem sample n = Some (NumCol xs)) /\
  Frame.getitem sample "x" = None /\
  exists (s' : state) (f' : DataFrame),
    fill_missing_values_numeric 1%positive "median" (Some ["n"; "x"]%string)
      (initial sample)
    = (inl (KeyError "x"), s') /\
    heap s' !! 1%positive = Some f' /\
    (forall col, In col ["n"%string] ->
       Frame.getitem f' col
       = fill_column Series.median <$> Frame.getitem sample col) /\
    (forall col, ~ In col ["n"%string] ->
       Frame.getitem f' col = Frame.getitem sample col).
Proof.
  assert (Hnd : NoDup ["n"%string]) by (apply NoDup_singleton).
  assert (Hpre : forall n, In n ["n"%string] ->
            exists xs, Frame.getitem sample n = Some (NumCol xs)).
  { intros n [<- | []]. eexists. reflexivity. }
  split; [reflexivity |]. split; [right; split; reflexivity |].
  split; [exact Hnd |]. split; [exact Hpre |].
  split; [reflexivity |].
  apply (fill_missing_values_numeric_absent
           (initial sample) 1%positive sample "median" Series.median
           ["n"%string] [] "x" eq_refl
           (or_intror (conj eq_refl eq_refl)) Hnd Hpre eq_refl).
Defined.

(** ** More on [handle_outliers] *)

Lemma assign_assign (col : string) (c1 c2 : column) (cols : list (string * column)) :
  Frame.assign col c2 (Frame.assign col c1 cols) = Frame.assign col c2 cols.
Proof.
  induction cols as [| [name c0] cols IH]; cbn.
  - now rewrite String.eqb_refl.
  - destruct (String.eqb name col) eqn:E; cbn; rewrite E; [reflexivity |].
    now rewrite IH.
Qed.

Lemma assign_same (col : string) (c : column) (cols : list (string * column)) :
  Frame.lookup col cols = Some c -> Frame.assign col c cols = cols.
Proof.
  induction cols as [| [name c0] cols IH]; cbn; [discriminate |].
  destruct (String.eqb name col); [now intros [= ->] |].
  intros H. now rewrite IH.
Qed.

Lemma setitem_setitem (f : DataFrame) (col : string) (c1 c2 : column) :
  Frame.setitem (Frame.setitem f col c1) col c2 = Frame.setitem f col c2.
Proof. unfold Frame.setitem. cbn. now rewrite assign_assign. Qed.

Lemma setitem_same (f : DataFrame) (col : string) (c : column) :
  Frame.getitem f col = Some c -> Frame.setitem f col c = f.
Proof.
  intros H. destruct f as [idx cols]. unfold Frame.setitem, Frame.getitem in *.
  cbn [index columns] in *. now rewrite (assign_same _ _ _ H).
Qed.

(** Clipping in two passes, first from below and then from above, is
    clipping once, provided the lower bound is not above the upper. *)
Lemma clip_twice (lb ub x : float64) :
  Float.gtb lb ub = false ->
  (let x1 := if Float.ltb x lb then lb else x in
   if Float.gtb x1 ub then ub else x1)
  = if Float.ltb x lb then lb else if Float.gtb x ub then ub else x.
Proof.
  intros Hle. cbv zeta. destruct (Float.ltb x lb) eqn:E; [| reflexivity].
  now rewrite Hle.
Qed.

(** The lower bound is not above the upper one: both are NaN, or they
    are ordered. *)
Lemma quartile_bounds_ordered (xs : list float64) :
  let q1 := Series.quantile xs (1 # 4) in
  let q3 := Series.quantile xs (3 # 4) in
  Float.gtb (Float.sub q1 (Float.mul (F (3 # 2)) (Float.sub q3 q1)))
    (Float.add q3 (Float.mul (F (3 # 2)) (Float.sub q3 q1)))
  = false.
Proof.
  cbv zeta. pose proof (quantile_monotone xs) as Hmono.
  destruct (Series.quantile xs (1 # 4)) as [a | s |] eqn:Ha;
    destruct (Series.quantile xs (3 # 4)) as [b | t |] eqn:Hb;
    try reflexivity.
  - pose proof (quantile_quartiles xs a b Ha Hb) as Hab.
    unfold Float.gtb. cbn [Float.sub Float.add Float.mul Float.ltb]. unfold fl.
    unfold Float.Qltb. apply negb_false_iff. apply Qle_bool_iff.
    rewrite !Qred_correct. lra.
  - destruct t; [discriminate Hmono | reflexivity].
  - destruct s; [reflexivity | discriminate Hmono].
  - destruct s, t; try reflexivity. discriminate Hmono.
Qed.

(** With the default policy, [handle_outliers] returns a copy of the
    frame in which only the named numeric column is rewritten: an entry
    below the lower bound becomes the lower bound, one above the upper
    bound becomes the upper bound, every other entry (a null too) is
    kept; the other columns and the row labels are those of the input,
    and when the column has no outlier the copy is equal to the input. *)
Theorem handle_outliers_clips_outliers_only
    (s : state) (df : loc) (col : string) (f : DataFrame) (xs : list float64) :
  heap s !! df = Some f ->
  Frame.getitem f col = Some (NumCol xs) ->
  let q1 := Series.quantile xs (1 # 4) in
  let q3 := Series.quantile xs (3 # 4) in
  let iqr := Float.sub q3 q1 in
  let lb := Float.sub q1 (Float.mul (F (3 # 2)) iqr) in
  let ub := Float.add q3 (Float.mul (F (3 # 2)) iqr) in
  let ys := map (fun x => if Float.ltb x lb then lb
                          else if Float.gtb x ub then ub else x) xs in
  exists (df' : loc) (s' : state),
    handle_outliers df col "IQR" s = (inr df', s') /\
    heap s' !! df' = Some (Frame.setitem f col (NumCol ys)) /\
    (Forall (fun x => Float.ltb x lb = false /\ Float.gtb x ub = false) xs ->
     heap s' !! df' = Some f).
Proof.
  intros Hdf Hc. cbv zeta.
  rewrite (handle_outliers_clip_run _ _ _ _ _ Hdf Hc). cbv zeta.
  set (lb := Float.sub (Series.quantile xs (1 # 4)) _).
  set (ub := Float.add (Series.quantile xs (3 # 4)) _).
  assert (Hys : map (fun x => if Float.gtb x ub then ub else x)
                  (map (fun x => if Float.ltb x lb then lb else x) xs)
                = map (fun x => if Float.ltb x lb then lb
                                else if Float.gtb x ub then ub else x) xs).
  { rewrite map_map. apply map_ext. intros x.
    apply (clip_twice lb ub x). exact (quartile_bounds_ordered xs). }
  rewrite setitem_setitem, Hys.
  eexists _, _. split; [reflexivity |].
  split; [cbn [heap]; apply lookup_insert_eq |].
  intros Hin. cbn [heap]. rewrite lookup_insert_eq. f_equal.
  apply setitem_same. rewrite Hc. do 2 f_equal.
  symmetry. transitivity (map (fun x : float64 => x) xs); [| apply map_id].
  apply map_ext_in. intros x Hx.
  rewrite List.Forall_forall in Hin. destruct (Hin x Hx) as [-> ->]. reflexivity.
Qed.

Lemma handle_outliers_clips_outliers_only_witness :
  let xs := [F 1; F 2; F 3; F 4] in
  let f := single_column "x" (NumCol xs) in
  heap (initial f) !! 1%positive = Some f /\
  Frame.getitem f "x" = Some (NumCol xs) /\
  exists (df' : loc) (s' : state),
    handle_outliers 1%positive "x" "IQR" (initial f) = (inr df', s') /\
    heap s' !! df' = Some f.
Proof.
  intros xs f. split; [reflexivity |]. split; [reflexivity |].
  destruct (handle_outliers_clips_outliers_only
              (initial f) 1%positive "x" f xs eq_refl eq_refl)
    as (df' & s' & Hrun & _ & Hsame).
  exists df', s'. split; [exact Hrun |]. apply Hsame.
  repeat constructor.
Defined.

(** ** More on [remove_nan_categorical] *)

Lemma remove_nan_categorical_run (s : state) (df : loc) (f : DataFrame) :
  heap s !! df = Some f ->
  Frame.wf f ->
  exists (df' : loc) (s' : state),
    remove_nan_categorical df s = (inr df', s') /\
    heap s' !! df'
    = Some (Frame.select_rows (map without_nan (Frame.rows f)) f) /\
    preserved s s'.
Proof.
  intros Hdf Hwf.
  unfold remove_nan_categorical, get_categorical_columns, log_decorator.
  unfold mbind at 1, M_bind at 1. unfold mbind at 1, M_bind at 1.
  rewrite (load_run _ _ _ Hdf). cbn [mret M_ret].
  set (s0 := mkState (heap s) (Executed "get_categorical_columns" :: log s)).
  set (all := repeat true (length (index f))).
  assert (Hall : length all = length (index f)) by apply repeat_length.
  destruct (remove_nan_loop_run f (Frame.select_dtypes [object; datetime64] f)
              Hwf (fun n => select_dtypes_present _ f n) s0 df all)
    as (d' & s' & Hrun & Hd' & Hpres & _).
  - cbn [s0 heap]. rewrite Hdf. f_equal. symmetry.
    apply select_rows_all; [exact Hwf | exact Hall |].
    apply Forall_forall. intros b Hb. apply list_elem_of_In in Hb.
    now apply repeat_spec in Hb.
  - exact Hall.
  - rewrite Hrun. rewrite (categorical_mask f Hwf) in Hd'.
    assert (Hmask : zip_with andb all (map without_nan (Frame.rows f))
                    = map without_nan (Frame.rows f)).
    { unfold all. rewrite <- (rows_length f).
      rewrite <- (length_map without_nan (Frame.rows f)).
      apply zip_with_andb_true_l. }
    rewrite Hmask in Hd'.
    eexists d', _. split; [reflexivity |]. split; [exact Hd' | exact Hpres].
Qed.

Lemma filter_mask_Forall {A : Type} (P : A -> Prop) (mask : list bool) (xs : list A) :
  (forall (i : nat) (x : A), mask !! i = Some true -> xs !! i = Some x -> P x) ->
  Forall P (filter_mask mask xs).
Proof.
  revert xs. induction mask as [| b mask IH]; intros [| x xs] H; cbn;
    try constructor.
  destruct b.
  - constructor; [apply (H O x); reflexivity |].
    apply IH. intros i y Hi Hy. apply (H (S i) y); assumption.
  - apply IH. intros i y Hi Hy. apply (H (S i) y); assumption.
Qed.

Lemma nan_mask_column (n : nat) (cols : list column) (c : column) (i : nat) :
  In c cols ->
  nan_mask n cols !! i = Some true ->
  Column.ne_str "nan" c !! i = Some true.
Proof.
  unfold nan_mask. induction cols as [| c0 cols IH]; [intros [] |].
  cbn [foldr]. intros Hin Hi. rewrite lookup_zip_with in Hi.
  destruct (Column.ne_str "nan" c0 !! i) as [b1 |] eqn:E1; [| discriminate].
  cbn in Hi.
  destruct (foldr _ _ cols !! i) as [b2 |] eqn:E2; [| discriminate].
  cbn in Hi. injection Hi as Hi. apply andb_true_iff in Hi as [-> ->].
  destruct Hin as [-> | Hin]; [exact E1 | now apply IH].
Qed.

Lemma lookup_In (cols : list (string * column)) (col : string) (c : column) :
  Frame.lookup col cols = Some c -> In c (map snd cols).
Proof.
  induction cols as [| [name c0] cols IH]; cbn; [discriminate |].
  destruct (String.eqb name col); [intros [= ->]; now left | auto].
Qed.

(** [remove_nan_categorical] returns a well-formed frame in which no text
    column holds the text 'nan'. *)
Theorem remove_nan_categorical_removes_nan
    (s : state) (df : loc) (f : DataFrame) :
  heap s !! df = Some f ->
  Frame.wf f ->
  exists (df' : loc) (s' : state) (f' : DataFrame),
    remove_nan_categorical df s = (inr df', s') /\
    heap s' !! df' = Some f' /\
    Frame.wf f' /\
    forall (col : string) (os : list pyobj),
      Frame.getitem f' col = Some (ObjCol os) -> ~ In (PyStr "nan") os.
Proof.
  intros Hdf Hwf.
  destruct (remove_nan_categorical_run s df f Hdf Hwf)
    as (df' & s' & Hrun & Hdf' & _).
  eexists df', s', _. split; [exact Hrun |]. split; [exact Hdf' |].
  assert (Hlen : length (map without_nan (Frame.rows f)) = length (index f))
    by now rewrite length_map, rows_length.
  split; [now apply select_rows_wf |].
  intros col os' Hos'. rewrite getitem_select_rows in Hos'.
  destruct (Frame.getitem f col) as [c |] eqn:Hc; [| discriminate].
  cbn in Hos'. destruct c as [xs | os | ts]; try discriminate.
  injection Hos' as <-.
  assert (Hall : Forall (fun o => Obj.ne_str "nan" o = true)
                   (filter_mask (map without_nan (Frame.rows f)) os)).
  { apply filter_mask_Forall. intros i o Hi Ho.
    rewrite <- (nan_mask_rows f Hwf) in Hi.
    apply (nan_mask_column _ _ (ObjCol os)) in Hi;
      [| exact (lookup_In _ _ _ Hc)].
    cbn in Hi. rewrite list_lookup_fmap, Ho in Hi. now injection Hi. }
  intros Hin. rewrite List.Forall_forall in Hall.
  specialize (Hall _ Hin). discriminate.
Qed.

(** Applying [remove_nan_categorical] to its own result gives a frame
    equal to that result: a second pass removes nothing. *)
Theorem remove_nan_categorical_twice (s : state) (df : loc) (f : DataFrame) :
  heap s !! df = Some f ->
  Frame.wf f ->
  exists (df1 df2 : loc) (s1 s2 : state) (f' : DataFrame),
    remove_nan_categorical df s = (inr df1, s1) /\
    heap s1 !! df1 = Some f' /\
    remove_nan_categorical df1 s1 = (inr df2, s2) /\
    heap s2 !! df2 = Some f'.
Proof.
  intros Hdf Hwf.
  destruct (remove_nan_categorical_run s df f Hdf Hwf)
    as (df1 & s1 & Hrun1 & Hdf1 & _).
  assert (Hlen : length (map without_nan (Frame.rows f)) = length (index f))
    by now rewrite length_map, rows_length.
  set (f' := Frame.select_rows (map without_nan (Frame.rows f)) f) in *.
  assert (Hwf' : Frame.wf f') by now apply select_rows_wf.
  destruct (remove_nan_categorical_run s1 df1 f' Hdf1 Hwf')
    as (df2 & s2 & Hrun2 & Hdf2 & _).
  exists df1, df2, s1, s2, f'. split; [exact Hrun1 |]. split; [exact Hdf1 |].
  split; [exact Hrun2 |]. rewrite Hdf2. f_equal.
  apply select_rows_all; [exact Hwf' | now rewrite length_map, rows_length |].
  apply Forall_fmap. unfold f'.
  rewrite rows_select_rows, filter_mask_filter by assumption.
  apply List.Forall_forall. intros r Hr. apply filter_In in Hr. tauto.
Qed.

Lemma remove_nan_categorical_removes_nan_witness :
  heap (initial sample) !! 1%positive = Some sample /\
  Frame.wf sample /\
  exists (df' : loc) (s' : state) (f' : DataFrame),
    remove_nan_categorical 1%positive (initial sample) = (inr df', s') /\
    heap s' !! df' = Some f' /\
    Frame.wf f'.
Proof.
  split; [reflexivity |]. split; [exact sample_wf |].
  destruct (remove_nan_categorical_removes_nan
              (initial sample) 1%positive sample eq_refl sample_wf)
    as (df' & s' & f' & Hrun & Hdf' & Hwf' & _).
  exists df', s', f'. auto.
Defined.

Lemma remove_nan_categorical_twice_witness :
  heap (initial sample) !! 1%positive = Some sample /\
  Frame.wf sample /\
  exists (df1 df2 : loc) (s1 s2 : state) (f' : DataFrame),
    remove_nan_categorical 1%positive (initial sample) = (inr df1, s1) /\
    heap s1 !! df1 = Some f' /\
    remove_nan_categorical df1 s1 = (inr df2, s2) /\
    heap s2 !! df2 = Some f'.
Proof.
  split; [reflexivity |]. split; [exact sample_wf |].
  apply (remove_nan_categorical_twice (initial sample) 1%positive sample);
    [reflexivity | exact sample_wf].
Defined.

(** ** Column names *)

Lemma map_chars_length (g : Ascii.ascii -> Ascii.ascii) (s : string) :
  String.length (Str.map_chars g s) = String.length s.
Proof. induction s as [| c s IH]; cbn; congruence. Qed.

Lemma lower_underscore_char (c : Ascii.ascii) :
  let c1 := if Ascii.eqb c Ascii.Space
            then Ascii.ascii_of_nat 95 else c in
  let c2 := if Str.is_upper c1
            then Ascii.ascii_of_nat (Ascii.nat_of_ascii c1 + 32)
            else c1 in
  c2 <> Ascii.Space /\ Str.is_upper c2 = false.
Proof.
  destruct c as [[] [] [] [] [] [] [] []]; vm_compute; split;
    first [reflexivity | discriminate].
Qed.

Lemma normalized_name_clean (name : string) :
  clean_name (Str.lower (Str.replace_spaces name)).
Proof.
  unfold clean_name, Str.lower, Str.replace_spaces.
  induction name as [| c name IH]; cbn [Str.map_chars String.list_ascii_of_string].
  - constructor.
  - constructor; [| exact IH]. exact (lower_underscore_char c).
Qed.

Lemma clean_name_fixed (name : string) :
  clean_name name -> Str.lower (Str.replace_spaces name) = name.
Proof.
  unfold clean_name, Str.lower, Str.replace_spaces.
  induction name as [| c name IH]; cbn [Str.map_chars String.list_ascii_of_string];
    intros H; [reflexivity |].
  apply Forall_cons in H as [[Hsp Hup] H]. rewrite (IH H). f_equal. cbv beta.
  unfold Ascii.Space in *.
  destruct (Ascii.eqb c _) eqn:E.
  - apply Ascii.eqb_eq in E. contradiction.
  - now rewrite Hup.
Qed.

Lemma remove_whitespace_column_run (s : state) (df : loc) (f : DataFrame) :
  heap s !! df = Some f ->
  remove_whitespace_column df s
  = (inr df,
     mkState (<[df := mkFrame (index f)
                        (map (fun p => (Str.lower (Str.replace_spaces (fst p)), snd p))
                           (columns f))]> (heap s))
       (Executed "remove_whitespace_column" :: log s)).
Proof.
  intros Hdf. unfold remove_whitespace_column, log_decorator, mbind, M_bind.
  rewrite (load_run _ _ _ Hdf). erewrite store_run by exact Hdf. reflexivity.
Qed.

Lemma lower_underscore_ascii (c : Ascii.ascii) :
  (Ascii.nat_of_ascii c < 128)%nat ->
  let c1 := if Ascii.eqb c Ascii.Space
            then Ascii.ascii_of_nat 95 else c in
  let c2 := if Str.is_upper c1
            then Ascii.ascii_of_nat (Ascii.nat_of_ascii c1 + 32)
            else c1 in
  (Ascii.nat_of_ascii c2 < 128)%nat.
Proof.
  destruct c as [[] [] [] [] [] [] [] []]; vm_compute; lia.
Qed.

Lemma normalized_name_ascii (name : string) :
  ascii_name name -> ascii_name (Str.lower (Str.replace_spaces name)).
Proof.
  unfold ascii_name, Str.lower, Str.replace_spaces.
  induction name as [| c name IH]; cbn [Str.map_chars String.list_ascii_of_string];
    intros H; [constructor |].
  apply Forall_cons in H as [Hc H].
  constructor; [exact (lower_underscore_ascii c Hc) | exact (IH H)].
Qed.

(** On a frame whose column names are ASCII text,
    [remove_whitespace_column] renames the columns of the caller's frame
    and touches nothing else: the data of the columns, their order and
    the row labels are kept, every new name is ASCII text of the length
    of the old one and holds neither a space nor one of the letters A to
    Z, and a frame whose names are already of that kind is left as it
    is. *)
Theorem remove_whitespace_column_names (s : state) (df : loc) (f : DataFrame) :
  heap s !! df = Some f ->
  Forall ascii_name (map fst (columns f)) ->
  exists (s' : state) (f' : DataFrame),
    remove_whitespace_column df s = (inr df, s') /\
    heap s' = <[df := f']> (heap s) /\
    index f' = index f /\
    map snd (columns f') = map snd (columns f) /\
    Forall ascii_name (map fst (columns f')) /\
    map String.length (map fst (columns f'))
    = map String.length (map fst (columns f)) /\
    Forall clean_name (map fst (columns f')) /\
    (Forall clean_name (map fst (columns f)) -> f' = f).
Proof.
  intros Hdf Hascii. rewrite (remove_whitespace_column_run _ _ _ Hdf).
  eexists _, _. split; [reflexivity |]. split; [reflexivity |].
  cbn [index columns]. split; [reflexivity |].
  rewrite !map_map. cbn [fst snd].
  split; [reflexivity |].
  split.
  { rewrite List.Forall_forall in Hascii. apply List.Forall_forall.
    intros name Hin. apply in_map_iff in Hin.
    destruct Hin as (p & <- & Hp). apply normalized_name_ascii, Hascii.
    apply in_map_iff. now exists p. }
  split.
  { apply map_ext. intros p. unfold Str.lower, Str.replace_spaces.
    now rewrite !map_chars_length. }
  split.
  { apply List.Forall_forall. intros name Hin. apply in_map_iff in Hin.
    destruct Hin as (p & <- & _). apply normalized_name_clean. }
  intros Hclean. clear Hascii. clear Hdf. destruct f as [idx cols].
  cbn [index columns] in *. f_equal.
  induction cols as [| [name c] cols IH]; [reflexivity |].
  cbn [map fst snd] in *. apply Forall_cons in Hclean as [Hn Hclean].
  rewrite (clean_name_fixed _ Hn). f_equal. now apply IH.
Qed.

(** A second call of [remove_whitespace_column] changes no frame. *)
Theorem remove_whitespace_column_twice (s : state) (df : loc) (f : DataFrame) :
  heap s !! df = Some f ->
  exists (s1 s2 : state),
    remove_whitespace_column df s = (inr df, s1) /\
    remove_whitespace_column df s1 = (inr df, s2) /\
    heap s2 = heap s1.
Proof.
  intros Hdf. rewrite (remove_whitespace_column_run _ _ _ Hdf).
  eexists _, _. split; [reflexivity |].
  erewrite remove_whitespace_column_run by (cbn [heap]; apply lookup_insert_eq).
  split; [reflexivity |]. cbn [heap index columns].
  rewrite insert_insert_eq. f_equal. f_equal.
  rewrite map_map. cbn [fst snd]. apply map_ext. intros [name c]. cbn [fst snd].
  f_equal. apply clean_name_fixed, normalized_name_clean.
Qed.

Lemma sessions_ascii : Forall ascii_name (map fst (columns sessions)).
Proof.
  unfold ascii_name. apply (bool_decide_unpack _). vm_compute. reflexivity.
Defined.

Lemma remove_whitespace_column_names_witness :
  heap (initial sessions) !! 1%positive = Some sessions /\
  Forall ascii_name (map fst (columns sessions)) /\
  exists (s' : state) (f' : DataFrame),
    remove_whitespace_column 1%positive (initial sessions) = (inr 1%positive, s') /\
    heap s' = <[1%positive := f']> (heap (initial sessions)) /\
    index f' = index sessions /\
    map snd (columns f') = map snd (columns sessions) /\
    Forall ascii_name (map fst (columns f')) /\
    map String.length (map fst (columns f'))
    = map String.length (map fst (columns sessions)) /\
    Forall clean_name (map fst (columns f')) /\
    (Forall clean_name (map fst (columns sessions)) -> f' = sessions).
Proof.
  split; [reflexivity |]. split; [exact sessions_ascii |].
  apply (remove_whitespace_column_names (initial sessions) 1%positive sessions);
    [reflexivity | exact sessions_ascii].
Defined.

Lemma remove_whitespace_column_twice_witness :
  heap (initial sessions) !! 1%positive = Some sessions /\
  exists (s1 s2 : state),
    remove_whitespace_column 1%positive (initial sessions) = (inr 1%positive, s1) /\
    remove_whitespace_column 1%positive s1 = (inr 1%positive, s2) /\
    heap s2 = heap s1.
Proof.
  split; [reflexivity |].
  apply (remove_whitespace_column_twice (initial sessions) 1%positive sessions).
  reflexivity.
Defined.

(** ** The share of missing cells *)

Lemma missing_le_cells (n : nat) (cols : list (string * column)) :
  Forall (fun p => Column.len (snd p) = n) cols ->
  (foldr Nat.add O (map (fun p => Column.count_missing (snd p)) cols)
   <= n * length cols)%nat.
Proof.
  induction 1 as [| p cols Hp _ IH]; cbn [map foldr length]; [lia |].
  pose proof (count_missing_le (snd p)). lia.
Qed.

Lemma percent_missing_run (s : state) (df : loc) (f : DataFrame) :
  heap s !! df = Some f ->
  percent_missing df s
  = (inr (Float.round2
            (Float.mul
               (Float.true_divide
                  (foldr Nat.add O
                     (map (fun p => Column.count_missing (snd p)) (columns f)))
                  (length (index f) * length (columns f)))
               (F 100))),
     mkState (heap s) (Executed "percent_missing" :: log s)).
Proof.
  intros Hdf. unfold percent_missing, log_decorator, mbind, M_bind.
  rewrite (load_run _ _ _ Hdf). reflexivity.
Qed.

(** [percent_missing] changes no frame.  On a frame with at least one
    cell it returns a number of hundredths between 0 and 100, the
    nearest to the exact percentage of null cells; on a frame without
    rows or without columns it returns NaN. *)
Theorem percent_missing_range (s : state) (df : loc) (f : DataFrame) :
  heap s !! df = Some f ->
  Frame.wf f ->
  let cells := (length (index f) * length (columns f))%nat in
  let missing :=
    foldr Nat.add O (map (fun p => Column.count_missing (snd p)) (columns f)) in
  exists (r : float64) (s' : state),
    percent_missing df s = (inr r, s') /\
    heap s' = heap s /\
    (cells = O -> r = NaN) /\
    ((0 < cells)%nat ->
     exists (p : Q) (k : Z),
       r = F p /\
       within (F 0) (F 100) (F p) /\
       (p == k # 100)%Q /\
       (- (1 # 200)
          <= p - 100 * (inject_Z (Z.of_nat missing) / inject_Z (Z.of_nat cells))
          <= 1 # 200)%Q).
Proof.
  intros Hdf [_ Hlen] cells missing.
  rewrite (percent_missing_run _ _ _ Hdf). fold cells missing.
  eexists _, _. split; [reflexivity |]. split; [reflexivity |].
  split.
  - intros Hz. pose proof (missing_le_cells _ _ Hlen) as Hle.
    fold cells missing in Hle. rewrite Hz in *.
    assert (Hm : missing = O) by lia. now rewrite Hm.
  - intros Hpos.
    destruct (percentage_rounded missing cells Hpos
                (missing_le_cells _ _ Hlen)) as (p & k & E & Hk & Hp & Hnear).
    exists p, k. rewrite E. auto.
Qed.

Lemma percent_missing_range_witness :
  heap (initial sample) !! 1%positive = Some sample /\
  Frame.wf sample /\
  exists (r : float64) (s' : state),
    percent_missing 1%positive (initial sample) = (inr r, s') /\
    heap s' = heap (initial sample) /\
    ((4 * 2)%nat = O -> r = NaN) /\
    ((0 < 4 * 2)%nat ->
     exists (p : Q) (k : Z),
       r = F p /\
       within (F 0) (F 100) (F p) /\
       (p == k # 100)%Q /\
       (- (1 # 200)
          <= p - 100 * (inject_Z (Z.of_nat 2) / inject_Z (Z.of_nat (4 * 2)))
          <= 1 # 200)%Q).
Proof.
  split; [reflexivity |]. split; [exact sample_wf |].
  apply (percent_missing_range (initial sample) 1%positive sample);
    [reflexivity | exact sample_wf].
Defined.

(** ** Bytes to megabytes *)

Lemma convert_bytes_to_megabytes_run
    (s : state) (df : loc) (col : string) (f : DataFrame) (xs : list float64) :
  heap s !! df = Some f ->
  Frame.getitem f col = Some (NumCol xs) ->
  let ys := map (fun x => Float.div x (F Utils.megabyte)) xs in
  Utils.convert_bytes_to_megabytes df col s
  = (inr (NumCol ys),
     mkState (<[df := Frame.setitem f col (NumCol ys)]> (heap s)) (log s)).
Proof.
  intros Hdf Hc ys. unfold Utils.convert_bytes_to_megabytes, mbind, M_bind.
  rewrite (getitem_run _ _ _ _ Hdf), Hc. cbn [lift Utils.truediv].
  rewrite (setitem_run _ _ _ _ _ Hdf).
  erewrite getitem_run by (cbn [heap]; apply lookup_insert_eq).
  now rewrite getitem_setitem_eq.
Qed.

Lemma divided_by_megabyte (x : float64) :
  divided_by 1000000 x (Float.div x (F Utils.megabyte)).
Proof.
  destruct x as [v | sg |]; [| destruct sg; reflexivity | reflexivity].
  cbn [Float.div divided_by]. change (Qeq_bool Utils.megabyte 0) with false.
  cbv iota. eexists. split; [reflexivity |].
  rewrite Qred_correct. unfold Utils.megabyte. field.
Qed.


(** [convert_bytes_to_megabytes] divides the numbers of the named column
    by one million in the caller's frame, where a null stays a null, and
    returns the new column; the other columns and the row labels are
    kept, and nothing is logged. *)
Theorem convert_bytes_to_megabytes_in_place
    (s : state) (df : loc) (col : string) (f : DataFrame) (xs : list float64) :
  heap s !! df = Some f ->
  Frame.getitem f col = Some (NumCol xs) ->
  exists (ys : list float64) (s' : state),
    Utils.convert_bytes_to_megabytes df col s = (inr (NumCol ys), s') /\
    heap s' = <[df := Frame.setitem f col (NumCol ys)]> (heap s) /\
    log s' = log s /\
    Forall2 (divided_by 1000000) xs ys.
Proof.
  intros Hdf Hc. rewrite (convert_bytes_to_megabytes_run _ _ _ _ _ Hdf Hc).
  eexists _, _. split; [reflexivity |]. split; [reflexivity |].
  split; [reflexivity |].
  clear Hc. induction xs as [| x xs IH]; cbn [map]; constructor;
    [apply divided_by_megabyte | exact IH].
Qed.


Lemma convert_bytes_to_megabytes_in_place_witness :
  heap (initial sessions) !! 1%positive = Some sessions /\
  Frame.getitem sessions "Total DL (Bytes)"
  = Some (NumCol [F 2000000; F 500000; NaN]) /\
  exists (ys : list float64) (s' : state),
    Utils.convert_bytes_to_megabytes 1%positive "Total DL (Bytes)" (initial sessions)
    = (inr (NumCol ys), s') /\
    heap s'
    = <[1%positive := Frame.setitem sessions "Total DL (Bytes)" (NumCol ys)]>
        (heap (initial sessions)) /\
    log s' = log (initial sessions) /\
    Forall2 (divided_by 1000000) [F 2000000; F 500000; NaN] ys.
Proof.
  split; [reflexivity |]. split; [reflexivity |].
  apply (convert_bytes_to_megabytes_in_place (initial sessions) 1%positive
           "Total DL (Bytes)" sessions); reflexivity.
Defined.


(** ** Conversion to text *)

Lemma assign_loop (df : loc) (ps : list (string * column)) :
  forall (s : state) (g : DataFrame),
    heap s !! df = Some g ->
    for_each ps (fun p => setitem df (fst p) (snd p)) s
    = (inr tt,
       mkState (<[df := foldl (fun h p => Frame.setitem h (fst p) (snd p)) g ps]>
                  (heap s)) (log s)).
Proof.
  induction ps as [| p ps IH]; intros s g Hg; cbn [for_each foldl].
  - rewrite insert_id by exact Hg. now destruct s.
  - unfold mbind, M_bind. rewrite (setitem_run _ _ _ _ _ Hg).
    erewrite IH by (cbn [heap]; apply lookup_insert_eq).
    cbn [heap log]. now rewrite insert_insert_eq.
Qed.

Lemma assign_names (col : string) (c : column) (cols : list (string * column)) :
  is_Some (Frame.lookup col cols) ->
  map fst (Frame.assign col c cols) = map fst cols.
Proof.
  induction cols as [| [name c0] cols IH]; cbn [Frame.lookup Frame.assign].
  - intros [x Hx]. discriminate.
  - destruct (String.eqb name col); intros H; cbn [map fst]; [reflexivity |].
    now rewrite IH.
Qed.

Lemma assigned_index (ps : list (string * column)) (g : DataFrame) :
  index (foldl (fun h p => Frame.setitem h (fst p) (snd p)) g ps) = index g.
Proof.
  revert g. induction ps as [| p ps IH]; intros g; cbn [foldl]; [reflexivity |].
  now rewrite IH.
Qed.

Lemma assigned_names (ps : list (string * column)) (g : DataFrame) :
  (forall n, In n (map fst ps) -> is_Some (Frame.getitem g n)) ->
  map fst (columns (foldl (fun h p => Frame.setitem h (fst p) (snd p)) g ps))
  = map fst (columns g).
Proof.
  revert g. induction ps as [| p ps IH]; intros g Hin; cbn [foldl]; [reflexivity |].
  rewrite IH.
  - apply assign_names. apply Hin. now left.
  - intros n Hn. apply getitem_setitem_present. apply Hin. now right.
Qed.

Lemma assigned_other (ps : list (string * column)) (g : DataFrame) (col : string) :
  ~ In col (map fst ps) ->
  Frame.getitem (foldl (fun h p => Frame.setitem h (fst p) (snd p)) g ps) col
  = Frame.getitem g col.
Proof.
  revert g. induction ps as [| p ps IH]; intros g Hnot; cbn [foldl]; [reflexivity |].
  cbn [map In] in Hnot. rewrite IH by tauto.
  apply getitem_setitem_ne. tauto.
Qed.

Lemma assigned_in (ps : list (string * column)) (g : DataFrame)
    (col : string) (c : column) :
  NoDup (map fst ps) -> In (col, c) ps ->
  Frame.getitem (foldl (fun h p => Frame.setitem h (fst p) (snd p)) g ps) col
  = Some c.
Proof.
  revert g. induction ps as [| p ps IH]; intros g Hnd Hin; cbn [foldl];
    [destruct Hin |].
  cbn [map] in Hnd. apply NoDup_cons in Hnd as [Hnotin Hnd].
  destruct Hin as [-> | Hin].
  - cbn [fst snd] in *. rewrite assigned_other.
    + apply getitem_setitem_eq.
    + intros H. apply Hnotin. now apply list_elem_of_In.
  - now apply IH.
Qed.

Lemma getitems_present (f : DataFrame) (names : list string) :
  (forall n, In n names -> is_Some (Frame.getitem f n)) ->
  exists cs : list column,
    getitems f names = inr cs /\
    Forall2 (fun n c => Frame.getitem f n = Some c) names cs.
Proof.
  induction names as [| n names IH]; intros H; cbn [getitems].
  - exists []. split; [reflexivity | constructor].
  - destruct (H n (or_introl eq_refl)) as [c Hc]. rewrite Hc.
    destruct IH as (cs & -> & Hcs); [intros m Hm; apply H; now right |].
    exists (c :: cs). split; [reflexivity | now constructor].
Qed.

Lemma getitems_absent (f : DataFrame) (names : list string) (col : string) :
  In col names -> Frame.getitem f col = None ->
  exists n : string,
    getitems f names = inl (KeyError n) /\ In n names /\ Frame.getitem f n = None.
Proof.
  induction names as [| m names IH]; intros Hin Hnone; [destruct Hin |].
  cbn [getitems]. destruct (Frame.getitem f m) as [c |] eqn:Hm.
  - destruct Hin as [-> | Hin]; [congruence |].
    destruct (IH Hin Hnone) as (n & -> & Hn & Hf).
    exists n. split; [reflexivity |]. split; [now right | exact Hf].
  - exists m. split; [reflexivity |]. split; [now left | exact Hm].
Qed.

Lemma astype_str_no_null (fmt : formatter) (c : column) :
  Column.count_missing (astype_str fmt c) = O.
Proof.
  destruct c as [xs | os | ts]; cbn [astype_str Column.count_missing];
    unfold count_null.
  - induction xs as [| x xs IH]; [reflexivity | exact IH].
  - induction os as [| o os IH]; [reflexivity | exact IH].
  - induction ts as [| t ts IH]; [reflexivity | exact IH].
Qed.

Lemma astype_str_len (fmt : formatter) (c : column) :
  Column.len (astype_str fmt c) = Column.len c.
Proof.
  destruct c; cbn [astype_str Column.len]; apply length_map.
Qed.

Lemma string_columns_NoDup : NoDup string_columns.
Proof. apply (bool_decide_unpack _). vm_compute. reflexivity. Qed.

Lemma convert_to_string_run
    (fmt : formatter) (s : state) (df : loc) (f : DataFrame) (cs : list column) :
  heap s !! df = Some f ->
  getitems f string_columns = inr cs ->
  convert_to_string fmt df s
  = (inr df,
     mkState
       (<[df := foldl (fun h p => Frame.setitem h (fst p) (snd p)) f
                  (zip string_columns (map (astype_str fmt) cs))]> (heap s))
       (Executed "convert_to_string" :: log s)).
Proof.
  intros Hdf Hcs. unfold convert_to_string, log_decorator, mbind, M_bind.
  rewrite (load_run _ _ _ Hdf), Hcs. cbn [lift].
  rewrite (assign_loop _ _ _ _ Hdf). reflexivity.
Qed.

Lemma zip_astype (fmt : formatter) (f : DataFrame) (names : list string)
    (cs : list column) :
  Forall2 (fun n c => Frame.getitem f n = Some c) names cs ->
  map fst (zip names (map (astype_str fmt) cs)) = names /\
  forall n c, In n names -> Frame.getitem f n = Some c ->
    In (n, astype_str fmt c) (zip names (map (astype_str fmt) cs)).
Proof.
  induction 1 as [| n c names cs Hn _ [IH1 IH2]].
  - split; [reflexivity | intros n c []].
  - change (zip (n :: names) (map (astype_str fmt) (c :: cs)))
      with ((n, astype_str fmt c) :: zip names (map (astype_str fmt) cs)).
    split; [cbn [map fst]; now rewrite IH1 |].
    intros m d [-> | Hin] Hm.
    + left. congruence.
    + right. now apply IH2.
Qed.

(** When the frame has the five columns [bearer_id], [imsi],
    [msisdn/number], [imei] and [handset_type], [convert_to_string]
    replaces each of them, in the caller's frame, by its entries written
    as text: no entry of these columns is null afterwards, a null having
    been turned into text as well.  The other columns, the order of the
    columns and the row labels are kept. *)
Theorem convert_to_string_text
    (fmt : formatter) (s : state) (df : loc) (f : DataFrame) :
  heap s !! df = Some f ->
  (forall col, In col string_columns -> is_Some (Frame.getitem f col)) ->
  exists (s' : state) (f' : DataFrame),
    convert_to_string fmt df s = (inr df, s') /\
    heap s' = <[df := f']> (heap s) /\
    index f' = index f /\
    map fst (columns f') = map fst (columns f) /\
    (forall col c, In col string_columns -> Frame.getitem f col = Some c ->
       Frame.getitem f' col = Some (astype_str fmt c) /\
       Column.count_missing (astype_str fmt c) = O /\
       Column.len (astype_str fmt c) = Column.len c) /\
    (forall col, ~ In col string_columns ->
       Frame.getitem f' col = Frame.getitem f col).
Proof.
  intros Hdf Hall.
  destruct (getitems_present f string_columns Hall) as (cs & Hcs & Hrel).
  rewrite (convert_to_string_run fmt _ _ _ _ Hdf Hcs).
  destruct (zip_astype fmt f _ _ Hrel) as [Hnames Hpairs].
  eexists _, _. split; [reflexivity |]. split; [reflexivity |].
  split; [apply assigned_index |].
  split.
  { apply assigned_names. rewrite Hnames. exact Hall. }
  split.
  - intros col c Hin Hc. split; [| split].
    + apply assigned_in; [rewrite Hnames; exact string_columns_NoDup |].
      now apply Hpairs.
    + apply astype_str_no_null.
    + apply astype_str_len.
  - intros col Hnot. apply assigned_other. now rewrite Hnames.
Qed.

(** When one of the five columns is missing, [convert_to_string] raises
    [KeyError] for a missing column and converts nothing: the frame is
    left as it was, since the columns are read before any is written. *)
Theorem convert_to_string_absent
    (fmt : formatter) (s : state) (df : loc) (f : DataFrame) (col : string) :
  heap s !! df = Some f ->
  In col string_columns ->
  Frame.getitem f col = None ->
  exists (n : string) (s' : state),
    convert_to_string fmt df s = (inl (KeyError n), s') /\
    In n string_columns /\
    Frame.getitem f n = None /\
    heap s' = heap s /\
    log s' = Failed "convert_to_string" (KeyError n) :: log s.
Proof.
  intros Hdf Hin Hnone.
  destruct (getitems_absent f string_columns col Hin Hnone) as (n & Hn & Hn1 & Hn2).
  exists n. unfold convert_to_string, log_decorator, mbind, M_bind.
  rewrite (load_run _ _ _ Hdf), Hn. cbn [lift].
  eexists. split; [reflexivity |]. auto.
Qed.

Lemma percentage_zero (n : nat) :
  (0 < n)%nat ->
  Float.round2 (Float.mul (Float.true_divide O n) (F 100)) = F 0.
Proof.
  intros Hn. destruct n as [| n]; [lia |]. unfold Float.true_divide, fl.
  assert (E : Qred (inject_Z (Z.of_nat 0) / inject_Z (Z.of_nat (S n))) = 0%Q).
  { transitivity (Qred 0); [| reflexivity]. apply Qred_complete.
    change (inject_Z (Z.of_nat 0)) with 0%Q. unfold Qdiv. ring. }
  rewrite E. reflexivity.
Qed.

(** After [convert_to_string], [percent_missing_column] reports 0 for
    each of the five columns of a frame that has a row, whatever share
    of their entries was null before the conversion; on a frame without
    rows it reports NaN, the outcome of dividing zero by zero. *)
Theorem convert_to_string_hides_missing
    (fmt : formatter) (s : state) (df : loc) (f : DataFrame) (col : string) :
  heap s !! df = Some f ->
  Frame.wf f ->
  (forall n, In n string_columns -> is_Some (Frame.getitem f n)) ->
  In col string_columns ->
  exists s' : state,
    convert_to_string fmt df s = (inr df, s') /\
    fst (percent_missing_column df col s')
    = inr (match index f with [] => NaN | _ :: _ => F 0 end).
Proof.
  intros Hdf [Hnd Hlen] Hall Hin.
  destruct (getitems_present f string_columns Hall) as (cs & Hcs & Hrel).
  rewrite (convert_to_string_run fmt _ _ _ _ Hdf Hcs).
  destruct (zip_astype fmt f _ _ Hrel) as [Hnames Hpairs].
  destruct (Hall col Hin) as [c Hc].
  eexists. split; [reflexivity |].
  erewrite percent_missing_column_run;
    [| cbn [heap]; apply lookup_insert_eq
     | apply assigned_in;
       [rewrite Hnames; exact string_columns_NoDup | exact (Hpairs _ _ Hin Hc)]].
  cbn [fst]. rewrite astype_str_no_null, astype_str_len.
  f_equal. rewrite (getitem_len f col c (conj Hnd Hlen) Hc).
  destruct (index f) as [| i idx]; [reflexivity |].
  apply percentage_zero. cbn [length]. lia.
Qed.

Lemma sessions_wf : Frame.wf sessions.
Proof.
  split; [apply (bool_decide_unpack _); vm_compute; reflexivity |].
  repeat constructor.
Defined.

Lemma sessions_string_columns (col : string) :
  In col string_columns -> is_Some (Frame.getitem sessions col).
Proof.
  intros H. cbn in H.
  destruct H as [<- | [<- | [<- | [<- | [<- | []]]]]]; vm_compute; eauto.
Defined.

Lemma convert_to_string_text_witness :
  heap (initial sessions) !! 1%positive = Some sessions /\
  (forall col, In col string_columns -> is_Some (Frame.getitem sessions col)) /\
  exists (s' : state) (f' : DataFrame),
    convert_to_string plain 1%positive (initial sessions) = (inr 1%positive, s') /\
    heap s' = <[1%positive := f']> (heap (initial sessions)) /\
    index f' = index sessions /\
    map fst (columns f') = map fst (columns sessions) /\
    (forall col c, In col string_columns -> Frame.getitem sessions col = Some c ->
       Frame.getitem f' col = Some (astype_str plain c) /\
       Column.count_missing (astype_str plain c) = O /\
       Column.len (astype_str plain c) = Column.len c) /\
    (forall col, ~ In col string_columns ->
       Frame.getitem f' col = Frame.getitem sessions col).
Proof.
  split; [reflexivity |]. split; [exact sessions_string_columns |].
  apply (convert_to_string_text plain (initial sessions) 1%positive sessions);
    [reflexivity | exact sessions_string_columns].
Defined.

Lemma convert_to_string_absent_witness :
  heap (initial sample) !! 1%positive = Some sample /\
  In "imsi"%string string_columns /\
  Frame.getitem sample "imsi" = None /\
  exists (n : string) (s' : state),
    convert_to_string plain 1%positive (initial sample) = (inl (KeyError n), s') /\
    In n string_columns /\
    Frame.getitem sample n = None /\
    heap s' = heap (initial sample) /\
    log s' = Failed "convert_to_string" (KeyError n) :: log (initial sample).
Proof.
  split; [reflexivity |]. split; [cbn; tauto |]. split; [reflexivity |].
  apply (convert_to_string_absent plain (initial sample) 1%positive sample "imsi");
    [reflexivity | cbn; tauto | reflexivity].
Defined.

Lemma convert_to_string_hides_missing_witness :
  heap (initial sessions) !! 1%positive = Some sessions /\
  Frame.wf sessions /\
  (forall n, In n string_columns -> is_Some (Frame.getitem sessions n)) /\
  In "bearer_id"%string string_columns /\
  exists s' : state,
    convert_to_string plain 1%positive (initial sessions) = (inr 1%positive, s') /\
    fst (percent_missing_column 1%positive "bearer_id" s') = inr (F 0).
Proof.
  split; [reflexivity |]. split; [exact sessions_wf |].
  split; [exact sessions_string_columns |].
  split; [cbn; tauto |].
  apply (convert_to_string_hides_missing plain (initial sessions) 1%positive
           sessions "bearer_id");
    [reflexivity | exact sessions_wf
     | exact sessions_string_columns | cbn; tauto].
Defined.

(** ** Scaling to the unit interval *)










Lemma getitems_numeric (f : DataFrame) (names : list string) :
  (forall n, In n names -> exists xs, Frame.getitem f n = Some (NumCol xs)) ->
  exists (cs : list column) (X : list (list float64)),
    getitems f names = inr cs /\
    to_numpy cs = inr X /\
    Forall2 (fun n xs => Frame.getitem f n = Some (NumCol xs)) names X.
Proof.
  induction names as [| n names IH]; intros H; cbn [getitems].
  - exists [], []. repeat split. constructor.
  - destruct (H n (or_introl eq_refl)) as [xs Hxs]. rewrite Hxs.
    destruct IH as (cs & X & -> & HX & Hrel); [intros m Hm; apply H; now right |].
    exists (NumCol xs :: cs), (xs :: X). cbn [to_numpy]. rewrite HX.
    repeat split. now constructor.
Qed.

Lemma numerical_columns_numeric (f : DataFrame) (n : string) :
  NoDup (map fst (columns f)) ->
  In n (Frame.select_dtypes [number] f) ->
  exists xs, Frame.getitem f n = Some (NumCol xs).
Proof.
  intros Hnd Hin.
  destruct (select_dtypes_lookup _ _ _ Hnd Hin) as (c & Hc & Hty).
  destruct c as [xs | os | ts]; [eauto | |]; exfalso; cbn in Hty;
    apply list_elem_of_singleton in Hty; discriminate.
Qed.


Lemma get_numerical_columns_run (s : state) (df : loc) (f : DataFrame) :
  heap s !! df = Some f ->
  get_numerical_columns df s
  = (inr (Frame.select_dtypes [number] f),
     mkState (heap s) (Executed "get_numerical_columns" :: log s)).
Proof.
  intros Hdf. unfold get_numerical_columns, log_decorator, mbind, M_bind.
  now rewrite (load_run _ _ _ Hdf).
Qed.

(** The table handed to the scaler holds an infinite entry exactly when
    a numeric column of the frame does. *)
Lemma table_isinf (f : DataFrame) (names : list string)
    (X : list (list float64)) :
  Forall2 (fun n xs => Frame.getitem f n = Some (NumCol xs)) names X ->
  ((forall col xs, Frame.getitem f col = Some (NumCol xs) -> finite xs) ->
   existsb (existsb Float.isinf) X = false) /\
  (forall col xs x, In col names -> Frame.getitem f col = Some (NumCol xs) ->
     In x xs -> Float.isinf x = true ->
     existsb (existsb Float.isinf) X = true).
Proof.
  induction 1 as [| n xs names X Hn _ [IH1 IH2]].
  - split; [reflexivity | intros col xs x []].
  - cbn [existsb]. split.
    + intros Hfin. rewrite (IH1 Hfin), orb_false_r.
      specialize (Hfin n xs Hn). unfold finite in Hfin.
      destruct (existsb Float.isinf xs) eqn:E; [| reflexivity].
      apply existsb_exists in E as (x & Hx & Hinf).
      rewrite List.Forall_forall in Hfin. rewrite (Hfin x Hx) in Hinf.
      discriminate.
    + intros col ys x [-> | Hcol] Hc Hx Hinf.
      * rewrite Hn in Hc. injection Hc as <-.
        apply orb_true_iff. left. apply existsb_exists. eauto.
      * apply orb_true_iff. right. now apply (IH2 col ys x).
Qed.


(** On a frame without rows, or without a numeric column,
    [min_max_scaler] raises [ValueError] and creates no frame. *)
Theorem min_max_scaler_empty (s : state) (df : loc) (f : DataFrame) :
  heap s !! df = Some f ->
  Frame.wf f ->
  length (index f) = O \/ Frame.select_dtypes [number] f = [] ->
  exists (msg : string) (s' : state),
    min_max_scaler df s = (inl (ValueError msg), s') /\
    heap s' = heap s.
Proof.
  intros Hdf [Hnd Hlen] Hempty.
  set (names := Frame.select_dtypes [number] f) in *.
  destruct (getitems_numeric f names) as (cs & X & Hcs & HX & Hrel).
  { intros n Hn. now apply numerical_columns_numeric. }
  assert (Hfit : exists msg,
            MinMaxScaler.fit_transform (length (index f)) X = inl (ValueError msg)).
  { unfold MinMaxScaler.fit_transform. destruct X as [| xs X]; [eauto |].
    destruct (existsb (existsb Float.isinf) (xs :: X)); [eauto |].
    destruct Hempty as [-> | E]; [eauto |].
    rewrite E in Hrel. inversion Hrel. }
  destruct Hfit as [msg Hfit]. exists msg.
  unfold min_max_scaler, log_decorator, mbind, M_bind.
  rewrite (load_run _ _ _ Hdf), (get_numerical_columns_run _ _ _ Hdf).
  fold names. cbn [lift]. rewrite Hcs, HX, Hfit.
  eexists. split; reflexivity.
Qed.

(** On a frame in which a numeric column holds an infinite entry,
    [min_max_scaler] raises [ValueError] and creates no frame. *)
Theorem min_max_scaler_infinite
    (s : state) (df : loc) (f : DataFrame) (col : string)
    (xs : list float64) (x : float64) :
  heap s !! df = Some f ->
  Frame.wf f ->
  Frame.getitem f col = Some (NumCol xs) ->
  In x xs -> Float.isinf x = true ->
  exists (msg : string) (s' : state),
    min_max_scaler df s = (inl (ValueError msg), s') /\
    heap s' = heap s.
Proof.
  intros Hdf [Hnd Hlen] Hc Hx Hinf.
  set (names := Frame.select_dtypes [number] f) in *.
  destruct (getitems_numeric f names) as (cs & X & Hcs & HX & Hrel).
  { intros n Hn. now apply numerical_columns_numeric. }
  assert (Hcol : In col names).
  { apply (select_dtypes_complete _ _ _ _ Hc). cbn. apply list_elem_of_here. }
  assert (Hfit : exists msg,
            MinMaxScaler.fit_transform (length (index f)) X = inl (ValueError msg)).
  { unfold MinMaxScaler.fit_transform. destruct X as [| ys X]; [eauto |].
    rewrite (proj2 (table_isinf f names _ Hrel) col xs x Hcol Hc Hx Hinf).
    eauto. }
  destruct Hfit as [msg Hfit]. exists msg.
  unfold min_max_scaler, log_decorator, mbind, M_bind.
  rewrite (load_run _ _ _ Hdf), (get_numerical_columns_run _ _ _ Hdf).
  fold names. cbn [lift]. rewrite Hcs, HX, Hfit.
  eexists. split; reflexivity.
Qed.



Lemma min_max_scaler_empty_witness :
  let f := mkFrame [0; 1] [("s"%string, ObjCol [PyStr "a"; PyNone])] in
  heap (initial f) !! 1%positive = Some f /\
  Frame.wf f /\
  (length (index f) = O \/ Frame.select_dtypes [number] f = []) /\
  exists (msg : string) (s' : state),
    min_max_scaler 1%positive (initial f) = (inl (ValueError msg), s') /\
    heap s' = heap (initial f).
Proof.
  intros f.
  assert (Hwf : Frame.wf f).
  { split; [apply (bool_decide_unpack _); vm_compute; reflexivity |].
    repeat constructor. }
  split; [reflexivity |]. split; [exact Hwf |].
  split; [right; reflexivity |].
  apply (min_max_scaler_empty (initial f) 1%positive f);
    [reflexivity | exact Hwf | right; reflexivity].
Defined.

Lemma min_max_scaler_infinite_witness :
  let f := mkFrame [0; 1] [("x"%string, NumCol [F 1; Inf false])] in
  heap (initial f) !! 1%positive = Some f /\
  Frame.wf f /\
  Frame.getitem f "x" = Some (NumCol [F 1; Inf false]) /\
  In (Inf false) [F 1; Inf false] /\
  Float.isinf (Inf false) = true /\
  exists (msg : string) (s' : state),
    min_max_scaler 1%positive (initial f) = (inl (ValueError msg), s') /\
    heap s' = heap (initial f).
Proof.
  intros f.
  assert (Hwf : Frame.wf f).
  { split; [apply (bool_decide_unpack _); vm_compute; reflexivity |].
    repeat constructor. }
  split; [reflexivity |]. split; [exact Hwf |]. split; [reflexivity |].
  split; [right; now left |]. split; [reflexivity |].
  apply (min_max_scaler_infinite (initial f) 1%positive f "x"
           [F 1; Inf false] (Inf false));
    [reflexivity | exact Hwf | reflexivity | right; now left | reflexivity].
Defined.

(** ** Outliers replaced by the most frequent value *)

Lemma Float_eqb_equivalence :
  equivalence_on (fun x => Float.isnan x = false) Float.eqb.
Proof.
  split; [| split].
  - intros [q | sg |] H; cbn in *; try discriminate.
    + apply Qeq_bool_iff. reflexivity.
    + now destruct sg.
  - intros [q | sg |] [q' | sg' |] Hx Hy H; cbn in *; try discriminate.
    + apply Qeq_bool_iff. apply Qeq_bool_iff in H. now symmetry.
    + now destruct sg, sg'.
  - intros [q | sg |] [q' | sg' |] [q'' | sg'' |] Hx Hy Hz H1 H2; cbn in *;
      try discriminate.
    + apply Qeq_bool_iff. apply Qeq_bool_iff in H1, H2. now rewrite H1.
    + now destruct sg, sg', sg''.
Qed.

Lemma series_mode_first (xs : list float64) (x0 : float64) :
  In x0 xs -> x0 <> NaN ->
  exists m : float64,
    getitem0 (Series.mode xs) = inr m /\ In m xs /\ m <> NaN.
Proof.
  intros Hx Hn. unfold Series.mode.
  assert (Hv : In x0 (Series.values xs)).
  { apply values_In. split; [exact Hx |]. now destruct x0. }
  assert (Hne : sort_values Float.leb
                  (most_frequent Float.eqb (Series.values xs)) <> []).
  { apply sort_values_nonempty.
    apply (most_frequent_nonempty _ _ _ Float_eqb_equivalence).
    - apply values_not_null.
    - intros E. rewrite E in Hv. destruct Hv. }
  destruct (sort_values Float.leb _) as [| m ms] eqn:E; [congruence |].
  exists m. split; [reflexivity |].
  assert (Hm : In m (Series.values xs)).
  { apply (most_frequent_incl Float.eqb).
    apply (sort_values_In Float.leb). rewrite E. now left. }
  apply values_In in Hm as [Hm Hnan]. split; [exact Hm |].
  intros ->. discriminate.
Qed.

Lemma Forall2_map_same {A B : Type} (P : A -> B -> Prop) (g : A -> B)
    (l : list A) :
  (forall x, P x (g x)) -> Forall2 P l (map g l).
Proof. intros H. induction l; cbn [map]; constructor; auto. Qed.

Lemma series_mode_all_null (xs : list float64) :
  Forall (fun x => x = NaN) xs -> Series.mode xs = [].
Proof.
  intros H. unfold Series.mode.
  assert (E : Series.values xs = []).
  { unfold Series.values, dropna.
    induction H as [| x xs -> _ IH]; [reflexivity | exact IH]. }
  rewrite E. reflexivity.
Qed.

Lemma finite_In_number (xs : list float64) (y : float64) :
  In y xs -> y <> NaN -> finite xs -> exists m : Q, y = F m /\ In (F m) xs.
Proof.
  intros Hin Hn Hfin. unfold finite in Hfin. rewrite List.Forall_forall in Hfin.
  specialize (Hfin y Hin). destruct y as [m | sg |];
    [now exists m | discriminate | contradiction].
Qed.

(** With the policy mode, on a numeric column that holds a value,
    [handle_outliers] returns a frame equal to the input except in the
    named column, where every entry that lies within the bounds, and
    every null, is kept, and an entry outside the bounds is either kept
    or replaced by a value of the input column that is not null, which
    is a number of the input column when the column holds no infinity:
    no new value appears. *)
Theorem handle_outliers_mode_values
    (s : state) (df : loc) (col : string) (f : DataFrame)
    (xs : list float64) (x0 : float64) :
  heap s !! df = Some f ->
  Frame.getitem f col = Some (NumCol xs) ->
  In x0 xs -> x0 <> NaN ->
  let q1 := Series.quantile xs (1 # 4) in
  let q3 := Series.quantile xs (3 # 4) in
  let iqr := Float.sub q3 q1 in
  let lb := Float.sub q1 (Float.mul (F (3 # 2)) iqr) in
  let ub := Float.add q3 (Float.mul (F (3 # 2)) iqr) in
  exists (df' : loc) (s' : state) (ys : list float64),
    handle_outliers df col "mode" s = (inr df', s') /\
    heap s' !! df' = Some (Frame.setitem f col (NumCol ys)) /\
    Forall2 (fun x y =>
               y = x \/
               ((Float.ltb x lb = true \/ Float.gtb x ub = true) /\
                y <> NaN /\ In y xs /\
                (finite xs -> exists m : Q, y = F m /\ In (F m) xs))) xs ys.
Proof.
  intros Hdf Hc Hx0 Hn0. cbv zeta.
  set (lb := Float.sub (Series.quantile xs (1 # 4)) _).
  set (ub := Float.add (Series.quantile xs (3 # 4)) _).
  destruct (series_mode_first xs x0 Hx0 Hn0) as (m & Hm & Hmin & Hmn).
  set (xs1 := map (fun x => if Float.ltb x lb then m else x) xs).
  assert (Hv1 : exists x1, In x1 xs1 /\ x1 <> NaN).
  { destruct (Float.ltb x0 lb) eqn:E.
    - exists m. split; [| exact Hmn].
      apply in_map_iff. exists x0. rewrite E. auto.
    - exists x0. split; [| exact Hn0].
      apply in_map_iff. exists x0. rewrite E. auto. }
  destruct Hv1 as (x1 & Hx1 & Hn1).
  destruct (series_mode_first xs1 x1 Hx1 Hn1) as (m1 & Hm1 & Hm1in & Hm1n).
  assert (Hm1xs : In m1 xs).
  { apply in_map_iff in Hm1in as (x & Hx & Hxin).
    destruct (Float.ltb x lb); [now subst m1 | now subst x]. }
  exists (fresh (dom (heap s))).
  unfold handle_outliers, log_decorator, copy, mbind, M_bind.
  rewrite (load_run _ _ _ Hdf). unfold alloc.
  set (l := fresh (dom (heap s))).
  erewrite getitem_run by (cbn [heap]; apply lookup_insert_eq). rewrite Hc.
  cbn [String.eqb Ascii.eqb Bool.eqb].
  fold lb ub. rewrite Hm. cbn [lift]. rewrite np_where_map. fold xs1.
  erewrite setitem_run by (cbn [heap]; apply lookup_insert_eq).
  rewrite Hm1. rewrite np_where_map.
  erewrite setitem_run by (cbn [heap]; apply lookup_insert_eq).
  cbn [heap log mret M_ret].
  eexists _, _. split; [reflexivity |].
  cbn [heap]. rewrite !insert_insert_eq, lookup_insert_eq, setitem_setitem.
  split; [reflexivity |].
  subst xs1. rewrite map_map. apply Forall2_map_same. intros x.
  assert (Hmnum := finite_In_number xs m Hmin Hmn).
  assert (Hm1num := finite_In_number xs m1 Hm1xs Hm1n).
  destruct (Float.ltb x lb) eqn:E1.
  - right. split; [now left |].
    destruct (Float.gtb m ub); auto.
  - destruct (Float.gtb x ub) eqn:E2; [| now left].
    right. split; [now right | auto].
Qed.

(** With the policy mode, on a numeric column without a number (an
    empty one, or one of nulls only), [handle_outliers] raises
    [KeyError]: the most frequent value is looked up before it is known
    whether anything is to be replaced.  The caller's frame is left as
    it was. *)
Theorem handle_outliers_mode_all_null
    (s : state) (df : loc) (col : string) (f : DataFrame) (xs : list float64) :
  heap s !! df = Some f ->
  Frame.getitem f col = Some (NumCol xs) ->
  Forall (fun x => x = NaN) xs ->
  exists s' : state,
    handle_outliers df col "mode" s = (inl (KeyError "0"), s') /\
    heap s' !! df = Some f.
Proof.
  intros Hdf Hc Hnull.
  unfold handle_outliers, log_decorator, copy, mbind, M_bind.
  rewrite (load_run _ _ _ Hdf). unfold alloc.
  erewrite getitem_run by (cbn [heap]; apply lookup_insert_eq). rewrite Hc.
  cbn [String.eqb Ascii.eqb Bool.eqb].
  rewrite (series_mode_all_null xs Hnull). cbn [getitem0 lift].
  eexists. split; [reflexivity |]. cbn [heap].
  rewrite lookup_insert_ne; [exact Hdf |].
  intros E. pose proof (fresh_unused s) as Hfresh. rewrite E in Hfresh. congruence.
Qed.

Lemma handle_outliers_mode_values_witness :
  heap (initial sample) !! 1%positive = Some sample /\
  Frame.getitem sample "n" = Some (NumCol [F 1; F 2; F 1; NaN]) /\
  In (F 1) [F 1; F 2; F 1; NaN] /\
  F 1 <> NaN /\
  exists (df' : loc) (s' : state) (ys : list float64),
    handle_outliers 1%positive "n" "mode" (initial sample) = (inr df', s') /\
    heap s' !! df' = Some (Frame.setitem sample "n" (NumCol ys)) /\
    Forall2 (fun x y =>
               y = x \/
               ((Float.ltb x (F (1 # 4)) = true \/ Float.gtb x (F (9 # 4)) = true) /\
                y <> NaN /\ In y [F 1; F 2; F 1; NaN] /\
                (finite [F 1; F 2; F 1; NaN] ->
                 exists m : Q, y = F m /\ In (F m) [F 1; F 2; F 1; NaN])))
      [F 1; F 2; F 1; NaN] ys.
Proof.
  split; [reflexivity |]. split; [reflexivity |]. split; [now left |].
  split; [discriminate |].
  apply (handle_outliers_mode_values (initial sample) 1%positive "n" sample
           [F 1; F 2; F 1; NaN] (F 1));
    [reflexivity | reflexivity | now left | discriminate].
Defined.

Lemma handle_outliers_mode_all_null_witness :
  let f := mkFrame [0; 1] [("n"%string, NumCol [NaN; NaN])] in
  heap (initial f) !! 1%positive = Some f /\
  Frame.getitem f "n" = Some (NumCol [NaN; NaN]) /\
  Forall (fun x => x = NaN) [NaN; NaN] /\
  exists s' : state,
    handle_outliers 1%positive "n" "mode" (initial f) = (inl (KeyError "0"), s') /\
    heap s' !! 1%positive = Some f.
Proof.
  intros f. split; [reflexivity |]. split; [reflexivity |].
  split; [repeat constructor |].
  apply (handle_outliers_mode_all_null (initial f) 1%positive "n" f [NaN; NaN]);
    [reflexivity | reflexivity | repeat constructor].
Defined.

(** ** The two lists of columns *)

Lemma get_categorical_columns_run (s : state) (df : loc) (f : DataFrame) :
  heap s !! df = Some f ->
  get_categorical_columns df s
  = (inr (Frame.select_dtypes [object; datetime64] f),
     mkState (heap s) (Executed "get_categorical_columns" :: log s)).
Proof.
  intros Hdf. unfold get_categorical_columns, log_decorator, mbind, M_bind.
  now rewrite (load_run _ _ _ Hdf).
Qed.

Lemma select_dtypes_iff (include : list dtype) (f : DataFrame)
    (col : string) (c : column) :
  NoDup (map fst (columns f)) ->
  Frame.getitem f col = Some c ->
  In col (Frame.select_dtypes include f) <-> Column.dtype_of c ∈ include.
Proof.
  intros Hnd Hc. split.
  - intros Hin. destruct (select_dtypes_lookup _ _ _ Hnd Hin) as (c' & Hc' & Hty).
    congruence.
  - now apply select_dtypes_complete.
Qed.

(** [get_numerical_columns] and [get_categorical_columns] change no
    frame, and on a frame with distinct column names they return
    disjoint lists: a column is in the first when it holds numbers, in
    the second when it holds objects or timestamps, and every name
    listed is a column of the frame. *)
Theorem column_lists_disjoint (s : state) (df : loc) (f : DataFrame) :
  heap s !! df = Some f ->
  NoDup (map fst (columns f)) ->
  exists (nums cats : list string) (s1 s2 : state),
    get_numerical_columns df s = (inr nums, s1) /\
    get_categorical_columns df s1 = (inr cats, s2) /\
    heap s2 = heap s /\
    (forall col, In col nums -> ~ In col cats) /\
    (forall col, In col nums \/ In col cats -> is_Some (Frame.getitem f col)) /\
    (forall col c, Frame.getitem f col = Some c ->
       (In col nums <-> Column.dtype_of c = number) /\
       (In col cats <->
        Column.dtype_of c = object \/ Column.dtype_of c = datetime64)).
Proof.
  intros Hdf Hnd. rewrite (get_numerical_columns_run _ _ _ Hdf).
  eexists _, _, _, _. split; [reflexivity |].
  rewrite (get_categorical_columns_run _ _ f) by exact Hdf.
  split; [reflexivity |]. split; [reflexivity |].
  assert (Hchar : forall col c, Frame.getitem f col = Some c ->
            (In col (Frame.select_dtypes [number] f)
             <-> Column.dtype_of c = number) /\
            (In col (Frame.select_dtypes [object; datetime64] f)
             <-> Column.dtype_of c = object \/ Column.dtype_of c = datetime64)).
  { intros col c Hc.
    rewrite (select_dtypes_iff _ _ _ _ Hnd Hc), (select_dtypes_iff _ _ _ _ Hnd Hc).
    rewrite list_elem_of_singleton, elem_of_cons, list_elem_of_singleton.
    tauto. }
  split; [| split; [| exact Hchar]].
  - intros col Hn Hcat.
    destruct (select_dtypes_present _ _ _ Hn) as [c Hc].
    destruct (Hchar col c Hc) as [H1 H2].
    apply H1 in Hn. apply H2 in Hcat. destruct Hcat; congruence.
  - intros col [H | H]; exact (select_dtypes_present _ _ _ H).
Qed.

Lemma column_lists_disjoint_witness :
  heap (initial sample) !! 1%positive = Some sample /\
  NoDup (map fst (columns sample)) /\
  exists (nums cats : list string) (s1 s2 : state),
    get_numerical_columns 1%positive (initial sample) = (inr nums, s1) /\
    get_categorical_columns 1%positive s1 = (inr cats, s2) /\
    heap s2 = heap (initial sample) /\
    (forall col, In col nums -> ~ In col cats) /\
    (forall col, In col nums \/ In col cats ->
       is_Some (Frame.getitem sample col)) /\
    (forall col c, Frame.getitem sample col = Some c ->
       (In col nums <-> Column.dtype_of c = number) /\
       (In col cats <->
        Column.dtype_of c = object \/ Column.dtype_of c = datetime64)).
Proof.
  split; [reflexivity |]. split; [exact (proj1 sample_wf) |].
  apply (column_lists_disjoint (initial sample) 1%positive sample);
    [reflexivity | exact (proj1 sample_wf)].
Defined.
